(** * dbt manifest loader, reference resolution and test selection

    A shallow embedding of
    - [core/dbt/parser/manifest.py]: [ManifestLoader] (partial parsing, the
      per-project file cache, the saved-manifest state check) and the
      [process_refs] / [process_sources] passes;
    - the rest of [manifest.py] that can be told without the templating
      engine: the counts of a pass ([ManifestLoaderInfo]), [process_node],
      [_check_resource_uniqueness] and [_get_node_column];
    - [core/dbt/task/test.py]: [TestSelector] and [TestRunner.execute].

    Python dictionaries are [gmap]s and Python sets are [gset]s; a set or a
    mapping whose iteration order can be observed is given by the list of
    its elements in that order.  Exceptions are values of [Exception], a
    function that can raise returns a [result], and code that mutates
    objects runs in the state-and-error monad [M].

    Classes and functions that the two files import from the rest of dbt
    are collected in type classes ([FileHashOps], [ManifestOps],
    [ParserOps], [SystemOps], [LoadOps], [GraphOps], [DocsOps],
    [RelationOps], [RunnerOps]): every property below holds whatever they
    are.  The few whose behaviour a property depends on are instead
    modelled from the specification; their comment says so. *)

From stdpp Require Import base gmap sets list strings pretty.

Set Default Proof Using "Type".

(** * Part I: the model *)

(** ** Messages, exceptions, the monad *)

(** [dbt.node_types.NodeType] *)
Inductive NodeType :=
| Model | Analysis | Test | Snapshot | Operation | Seed | RPCCall
| Documentation | Source | Macro | Exposure.

#[global] Instance NodeType_eq_dec : EqDecision NodeType.
Proof. solve_decision. Defined.

Abbreviation UniqueId := string.

(** The text of a message is produced by [dbt.exceptions] and [dbt.ui]; the
    model keeps the function that builds it and the arguments it is given:
    [get_target_not_found_or_disabled_msg (node, target_model_name,
    target_model_package, disabled)], [get_source_not_found_or_disabled_msg
    (node, target_name, target_table_name, disabled)] and [warning_tag
    (msg)].  The node argument is kept by its unique id.  A message that
    is a string literal of the code is kept as it is written. *)
Inductive Message :=
| literal (text : string)
| target_not_found_or_disabled_msg
    (node : UniqueId) (target_model_name : string)
    (target_model_package : option string) (disabled : bool)
| source_not_found_or_disabled_msg
    (node : UniqueId) (target_name target_table_name : string)
    (disabled : bool)
| warning_tag (msg : Message).

(** [InternalException] is dbt's internal-consistency error,
    [CompilationException] the error reported to the user for a fault of
    the project; [PythonException] stands for every other subclass of
    [Exception] ([OSError], [pickle.UnpicklingError], ...), by name. *)
Inductive Exception :=
| InternalException (msg : string)
| CompilationException (msg : Message)
| PythonException (name : string).

Inductive result (A : Type) :=
| Ok (a : A)
| Raise (e : Exception).
Arguments Ok {A} a.
Arguments Raise {A} e.

#[global] Instance result_ret : MRet result := λ A a, Ok a.

#[global] Instance result_bind : MBind result :=
  λ A B f r, match r with Ok a => f a | Raise e => Raise e end.

(** [try: body / except Exception as exc: handler(exc)] *)
Definition try_except {A} (body : result A) (handler : Exception → result A)
  : result A :=
  match body with
  | Ok a => Ok a
  | Raise exc => handler exc
  end.

(** A computation that reads and writes a state [σ] and may raise. *)
Definition M (σ A : Type) : Type := σ → result (A * σ).

#[global] Instance M_ret {σ} : MRet (M σ) := λ A a s, Ok (a, s).

#[global] Instance M_bind {σ} : MBind (M σ) :=
  λ A B f c s, match c s with Ok (a, s') => f a s' | Raise e => Raise e end.

Definition raise {σ A} (e : Exception) : M σ A := λ _, Raise e.

Definition get {σ} : M σ σ := λ s, Ok (s, s).

Definition modify {σ} (f : σ → σ) : M σ unit := λ s, Ok ((), f s).

(** A call that may raise and leaves the state alone. *)
Definition lift {σ A} (r : result A) : M σ A :=
  λ s, match r with Ok a => Ok (a, s) | Raise e => Raise e end.

(** A call that may raise and replaces the state. *)
Definition update {σ} (f : σ → result σ) : M σ unit :=
  λ s, match f s with Ok s' => Ok ((), s') | Raise e => Raise e end.

(** [for x in l: body] *)
Fixpoint for_each {σ A} (l : list A) (body : A → M σ unit) : M σ unit :=
  match l with
  | [] => mret ()
  | x :: l => body x ;; for_each l body
  end.

(** Run a computation on a component of the state. *)
Definition zoom {σ τ A} (proj : σ → τ) (inj : τ → σ → σ) (c : M τ A)
  : M σ A :=
  λ s, match c (proj s) with
       | Ok (a, t) => Ok (a, inj t s)
       | Raise e => Raise e
       end.

(** ** Resources *)

(** [ManifestNode]: the attributes read or written by the code under study.
    [config_enabled] is [node.config.enabled], [depends_on_nodes] is
    [node.depends_on.nodes]; a ref is the list of its arguments and a source
    mention the pair that the loops unpack. *)
Record ManifestNode := {
  unique_id : UniqueId;
  package_name : string;
  resource_type : NodeType;
  config_enabled : bool;
  refs : list (list string);
  sources : list (string * string);
  depends_on_nodes : list UniqueId;
}.

(** [ParsedExposure].  Its [resource_type] is a constant of the class,
    [NodeType.Exposure]. *)
Record ParsedExposure := {
  exp_unique_id : UniqueId;
  exp_package_name : string;
  exp_refs : list (list string);
  exp_sources : list (string * string);
  exp_depends_on_nodes : list UniqueId;
}.

(** [ParsedSourceDefinition] and [ParsedMacro], by their unique id. *)
Record ParsedSourceDefinition := {
  src_unique_id : UniqueId;
}.

Record ParsedMacro := {
  macro_unique_id : UniqueId;
}.

(** What [Manifest.resolve_ref] and [Manifest.resolve_source] return: the
    target, [Disabled(target)], or [None]. *)
Inductive MaybeResolved (A : Type) :=
| Resolved (target : A)
| Disabled (target : A)
| NoTarget.
Arguments Resolved {A} target.
Arguments Disabled {A} target.
Arguments NoTarget {A}.

(** [target is None or isinstance(target, Disabled)], together with the
    value of [isinstance(target, Disabled)] when it holds. *)
Definition unresolved {A} (target : MaybeResolved A) : option bool :=
  match target with
  | Resolved _ => None
  | Disabled _ => Some true
  | NoTarget => Some false
  end.

(** [isinstance(target, Disabled)] *)
Definition isinstance_Disabled {A} (target : MaybeResolved A) : bool :=
  match target with
  | Disabled _ => true
  | Resolved _ | NoTarget => false
  end.

(** [ManifestMetadata]: the version of dbt that produced the manifest. *)
Record ManifestMetadata := {
  dbt_version : string;
}.

(** [FilePath (searched_path, relative_path, project_root)]: the root of
    the project the file was found in, the directory of the project that
    was searched, and the path of the file in that directory. *)
Record FilePath := {
  searched_path : string;
  relative_path : string;
  project_root : string;
}.

#[global] Instance FilePath_eq_dec : EqDecision FilePath.
Proof. solve_decision. Defined.

(** [dbt.contracts.files] is outside the files under study.  The values of
    [FileHash], its [__eq__] and [FileHash.from_contents] are taken as
    given; Python's [!=] is the negation of [__eq__].  So is the property
    [search_key] of a [FilePath], which is computed from the three
    attributes of the path. *)
Class FileHashOps := {
  FileHash : Type;
  FileHash_eq : FileHash → FileHash → bool;
  from_contents : string → FileHash;
  search_key : FilePath → string;
}.

(** ** The manifest *)

Section manifest.
Context `{FileHashOps}.

Definition FileHash_ne (a b : FileHash) : bool := negb (FileHash_eq a b).

(** [ManifestStateCheck] *)
Record ManifestStateCheck := {
  vars_hash : FileHash;
  profile_hash : FileHash;
  project_hashes : gmap string FileHash;
}.

(** [SourceFile]: its path, its content checksum and the unique ids of the
    resources that were parsed from it. *)
Record SourceFile := {
  path : FilePath;
  checksum : FileHash;
  file_nodes : list UniqueId;
  file_exposures : list UniqueId;
  file_macros : list UniqueId;
}.

(** [FileBlock(file=...)] *)
Record FileBlock := {
  file : SourceFile;
}.

(** [Manifest].  [metadata] is [None] when the object has no
    [metadata.dbt_version] to read (the read raises [AttributeError]);
    [state_check] is an [Optional]; [files] is keyed by search key and the
    resources by unique id. *)
Record Manifest := {
  metadata : option ManifestMetadata;
  state_check : option ManifestStateCheck;
  files : gmap string SourceFile;
  nodes : gmap UniqueId ManifestNode;
  exposures : gmap UniqueId ParsedExposure;
  macros : gmap UniqueId ParsedMacro;
}.

(** [MacroManifest(macros, files)] *)
Record MacroManifest := {
  mm_macros : gmap UniqueId ParsedMacro;
  mm_files : gmap string SourceFile;
}.

Definition set_state_check (v : option ManifestStateCheck) (m : Manifest)
  : Manifest :=
  {| metadata := metadata m; state_check := v; files := files m;
     nodes := nodes m; exposures := exposures m; macros := macros m |}.

Definition set_files (v : gmap string SourceFile) (m : Manifest)
  : Manifest :=
  {| metadata := metadata m; state_check := state_check m; files := v;
     nodes := nodes m; exposures := exposures m; macros := macros m |}.

Definition set_nodes (v : gmap UniqueId ManifestNode) (m : Manifest)
  : Manifest :=
  {| metadata := metadata m; state_check := state_check m; files := files m;
     nodes := v; exposures := exposures m; macros := macros m |}.

Definition set_exposures (v : gmap UniqueId ParsedExposure) (m : Manifest)
  : Manifest :=
  {| metadata := metadata m; state_check := state_check m; files := files m;
     nodes := nodes m; exposures := v; macros := macros m |}.

Definition set_macros (v : gmap UniqueId ParsedMacro) (m : Manifest)
  : Manifest :=
  {| metadata := metadata m; state_check := state_check m; files := files m;
     nodes := nodes m; exposures := exposures m; macros := v |}.

(** The saved manifest with one more entry in its project hashes. *)
Definition add_project_hash (k : string) (h : FileHash) (saved : Manifest)
  : Manifest :=
  match state_check saved with
  | Some old =>
      set_state_check
        (Some {| vars_hash := vars_hash old;
                 profile_hash := profile_hash old;
                 project_hashes := <[k := h]> (project_hashes old) |})
        saved
  | None => saved
  end.

(** [Manifest({}, {}, {}, {}, {}, {}, [], {})] with its [metadata] set. *)
Definition empty_manifest (md : ManifestMetadata) : Manifest :=
  {| metadata := Some md; state_check := None; files := ∅;
     nodes := ∅; exposures := ∅; macros := ∅ |}.

End manifest.

(** The methods of [Manifest] that the two files call and that are defined
    with the class, outside them. *)
Class ManifestOps `{FileHashOps} := {
  (** [resolve_ref (target_model_name, target_model_package,
      current_project, node_package)] *)
  resolve_ref :
    Manifest → string → option string → string → string →
    MaybeResolved ManifestNode;
  (** [resolve_source (target_source_name, target_table_name,
      current_project, node_package)] *)
  resolve_source :
    Manifest → string → string → string → string →
    MaybeResolved ParsedSourceDefinition;
  update_node : ManifestNode → Manifest → result Manifest;
  update_exposure : ParsedExposure → Manifest → result Manifest;
  patch_nodes : Manifest → result Manifest;
  patch_macros : Manifest → result Manifest;
  build_flat_graph : Manifest → result Manifest;
}.

(** ** Reference resolution ([process_refs], [process_sources]) *)

(** [logger.debug] and [logger.warning] append a record to the log. *)
Inductive LogLevel := DEBUG | WARNING.

Record LogRecord := {
  level : LogLevel;
  message : Message;
}.

(** The argument [node] of [invalid_ref_fail_unless_test] and of
    [invalid_source_fail_unless_test] is a node or an exposure. *)
Inductive Resource :=
| NodeResource (node : ManifestNode)
| ExposureResource (exposure : ParsedExposure).

Definition resource_type_of (r : Resource) : NodeType :=
  match r with
  | NodeResource node => resource_type node
  | ExposureResource _ => Exposure
  end.

Definition unique_id_of (r : Resource) : UniqueId :=
  match r with
  | NodeResource node => unique_id node
  | ExposureResource exposure => exp_unique_id exposure
  end.

Definition set_enabled (b : bool) (node : ManifestNode) : ManifestNode :=
  {| unique_id := unique_id node; package_name := package_name node;
     resource_type := resource_type node; config_enabled := b;
     refs := refs node; sources := sources node;
     depends_on_nodes := depends_on_nodes node |}.

(** [node.depends_on.nodes.append(target_id)] *)
Definition depends_on_append (target_id : UniqueId) (node : ManifestNode)
  : ManifestNode :=
  {| unique_id := unique_id node; package_name := package_name node;
     resource_type := resource_type node;
     config_enabled := config_enabled node;
     refs := refs node; sources := sources node;
     depends_on_nodes := depends_on_nodes node ++ [target_id] |}.

(** [exposure.depends_on.nodes.append(target_id)] *)
Definition exp_depends_on_append (target_id : UniqueId)
    (exposure : ParsedExposure) : ParsedExposure :=
  {| exp_unique_id := exp_unique_id exposure;
     exp_package_name := exp_package_name exposure;
     exp_refs := exp_refs exposure; exp_sources := exp_sources exposure;
     exp_depends_on_nodes := exp_depends_on_nodes exposure ++ [target_id] |}.

(** The decoding of a ref shared by [_process_refs_for_node] and
    [_process_refs_for_exposure]: [(target_model_package,
    target_model_name)], or the exception for a wrong number of
    arguments. *)
Definition ref_arguments (ref : list string)
  : result (option string * string) :=
  match ref with
  | [target_model_name] => Ok (None, target_model_name)
  | [target_model_package; target_model_name] =>
      Ok (Some target_model_package, target_model_name)
  | _ =>
      Raise (InternalException
               ("Refs should always be 1 or 2 arguments - got "
                +:+ pretty (length ref)))
  end.

Section resolution.
Context `{FileHashOps} `{!ManifestOps}.

(** The state of the passes: the manifest they are given and the global
    logger. *)
Record Env := {
  env_manifest : Manifest;
  logger : list LogRecord;
}.

Definition set_env_manifest (m : Manifest) (env : Env) : Env :=
  {| env_manifest := m; logger := logger env |}.

(** The environment after [logger] has been sent [msg] at level [lvl]. *)
Definition logged (lvl : LogLevel) (msg : Message) (env : Env) : Env :=
  {| env_manifest := env_manifest env;
     logger := logger env ++ [{| level := lvl; message := msg |}] |}.

Definition log (lvl : LogLevel) (msg : Message) : M Env unit :=
  modify (logged lvl msg).

(** Modelled from the spec: [dbt.exceptions.warn_or_error] is defined
    outside the files under study; for the unresolved reference of a
    validation check the spec has "a non-fatal warning".  The message,
    put through [log_fmt], is logged as a warning. *)
Definition warn_or_error (msg : Message) (log_fmt : Message → Message)
  : M Env unit :=
  log WARNING (log_fmt msg).

(** Modelled from the spec: [dbt.exceptions.ref_target_not_found] is
    defined outside the files under study; the spec has "a fatal
    resolution error naming the resource, the requested source/table, and
    whether the nearest match was merely disabled". *)
Definition ref_target_not_found {A} (node : Resource)
    (target_model_name : string) (target_model_package : option string)
    (disabled : bool) : M Env A :=
  raise (CompilationException
           (target_not_found_or_disabled_msg
              (unique_id_of node) target_model_name target_model_package
              disabled)).

(** Modelled from the spec: [dbt.exceptions.source_target_not_found], as
    [ref_target_not_found]. *)
Definition source_target_not_found {A} (node : Resource)
    (target_name target_table_name : string) (disabled : bool) : M Env A :=
  raise (CompilationException
           (source_not_found_or_disabled_msg
              (unique_id_of node) target_name target_table_name disabled)).

Definition invalid_ref_fail_unless_test (node : Resource)
    (target_model_name : string) (target_model_package : option string)
    (disabled : bool) : M Env unit :=
  if decide (resource_type_of node = Test) then
    let msg :=
      target_not_found_or_disabled_msg
        (unique_id_of node) target_model_name target_model_package disabled in
    if disabled then log DEBUG (warning_tag msg)
    else warn_or_error msg warning_tag
  else
    ref_target_not_found node target_model_name target_model_package disabled.

Definition invalid_source_fail_unless_test (node : Resource)
    (target_name target_table_name : string) (disabled : bool)
  : M Env unit :=
  if decide (resource_type_of node = Test) then
    let msg :=
      source_not_found_or_disabled_msg
        (unique_id_of node) target_name target_table_name disabled in
    if disabled then log DEBUG (warning_tag msg)
    else warn_or_error msg warning_tag
  else
    source_target_not_found node target_name target_table_name disabled.

(** The passes mutate the node (the exposure) they are given.  When it is
    the object that the manifest holds under its unique id, as in
    [process_refs] and [process_sources], the manifest sees the
    assignment: [node_assigned] is the environment after an assignment to
    an attribute of [node]. *)
Definition node_assigned (node : ManifestNode) (env : Env) : Env :=
  let m := env_manifest env in
  if decide (is_Some (nodes m !! unique_id node))
  then set_env_manifest (set_nodes (<[unique_id node := node]> (nodes m)) m) env
  else env.

Definition assign_node (node : ManifestNode) : M Env unit :=
  modify (node_assigned node).

Definition exposure_assigned (exposure : ParsedExposure) (env : Env) : Env :=
  let m := env_manifest env in
  if decide (is_Some (exposures m !! exp_unique_id exposure))
  then set_env_manifest
         (set_exposures
            (<[exp_unique_id exposure := exposure]> (exposures m)) m) env
  else env.

Definition assign_exposure (exposure : ParsedExposure) : M Env unit :=
  modify (exposure_assigned exposure).

(** A call of a method of the manifest that mutates it. *)
Definition on_manifest (f : Manifest → result Manifest) : M Env unit :=
  zoom env_manifest set_env_manifest (update f).

(** The body of the loop of [_process_refs_for_exposure] for one ref; the
    result is the exposure after the assignments made to it. *)
Definition process_ref_for_exposure (current_project : string)
    (exposure : ParsedExposure) (ref : list string) : M Env ParsedExposure :=
  '(target_model_package, target_model_name) ← lift (ref_arguments ref);
  env ← get;
  let target_model :=
    resolve_ref (env_manifest env) target_model_name target_model_package
                current_project (exp_package_name exposure) in
  match target_model with
  | Resolved target =>
      let target_model_id := unique_id target in
      let exposure := exp_depends_on_append target_model_id exposure in
      assign_exposure exposure;;
      on_manifest (update_exposure exposure);;
      mret exposure
  | Disabled _ | NoTarget =>
      invalid_ref_fail_unless_test
        (ExposureResource exposure) target_model_name target_model_package
        (isinstance_Disabled target_model);;
      mret exposure
  end.

(** [for x in l], for a body that assigns to the object [b]. *)
Fixpoint for_each_on {σ A B} (l : list A) (body : B → A → M σ B) (b : B)
  : M σ B :=
  match l with
  | [] => mret b
  | x :: l => b' ← body b x; for_each_on l body b'
  end.

Definition _process_refs_for_exposure (current_project : string)
    (exposure : ParsedExposure) : M Env ParsedExposure :=
  for_each_on (exp_refs exposure)
              (process_ref_for_exposure current_project) exposure.

(** The body of the loop of [_process_refs_for_node] for one ref. *)
Definition process_ref_for_node (current_project : string)
    (node : ManifestNode) (ref : list string) : M Env ManifestNode :=
  '(target_model_package, target_model_name) ← lift (ref_arguments ref);
  env ← get;
  let target_model :=
    resolve_ref (env_manifest env) target_model_name target_model_package
                current_project (package_name node) in
  match target_model with
  | Resolved target =>
      let target_model_id := unique_id target in
      let node := depends_on_append target_model_id node in
      assign_node node;;
      on_manifest (update_node node);;
      mret node
  | Disabled _ | NoTarget =>
      let node := set_enabled false node in
      assign_node node;;
      invalid_ref_fail_unless_test
        (NodeResource node) target_model_name target_model_package
        (isinstance_Disabled target_model);;
      mret node
  end.

Definition _process_refs_for_node (current_project : string)
    (node : ManifestNode) : M Env ManifestNode :=
  for_each_on (refs node) (process_ref_for_node current_project) node.

(** [for node in manifest.nodes.values()]: the loop visits the keys that
    the mapping has when it starts and reads the object then held under
    each.  The keys come in the order of [map_to_list], not in Python's
    insertion order; no property below depends on the order. *)
Definition for_each_node (body : ManifestNode → M Env unit) : M Env unit :=
  env ← get;
  for_each (map_to_list (nodes (env_manifest env))).*1 (λ uid,
    env ← get;
    match nodes (env_manifest env) !! uid with
    | Some node => body node
    | None => mret ()
    end).

Definition for_each_exposure (body : ParsedExposure → M Env unit)
  : M Env unit :=
  env ← get;
  for_each (map_to_list (exposures (env_manifest env))).*1 (λ uid,
    env ← get;
    match exposures (env_manifest env) !! uid with
    | Some exposure => body exposure
    | None => mret ()
    end).

Definition process_refs (current_project : string) : M Env unit :=
  for_each_node (λ node,
    _process_refs_for_node current_project node;; mret ());;
  for_each_exposure (λ exposure,
    _process_refs_for_exposure current_project exposure;; mret ()).

(** The body of the loop of [_process_sources_for_exposure]. *)
Definition process_source_for_exposure (current_project : string)
    (exposure : ParsedExposure) (mention : string * string)
  : M Env ParsedExposure :=
  let '(source_name, table_name) := mention in
  env ← get;
  let target_source :=
    resolve_source (env_manifest env) source_name table_name
                   current_project (exp_package_name exposure) in
  match target_source with
  | Resolved target =>
      let target_source_id := src_unique_id target in
      let exposure := exp_depends_on_append target_source_id exposure in
      assign_exposure exposure;;
      on_manifest (update_exposure exposure);;
      mret exposure
  | Disabled _ | NoTarget =>
      invalid_source_fail_unless_test
        (ExposureResource exposure) source_name table_name
        (isinstance_Disabled target_source);;
      mret exposure
  end.

Definition _process_sources_for_exposure (current_project : string)
    (exposure : ParsedExposure) : M Env ParsedExposure :=
  for_each_on (exp_sources exposure)
              (process_source_for_exposure current_project) exposure.

(** The body of the loop of [_process_sources_for_node]. *)
Definition process_source_for_node (current_project : string)
    (node : ManifestNode) (mention : string * string) : M Env ManifestNode :=
  let '(source_name, table_name) := mention in
  env ← get;
  let target_source :=
    resolve_source (env_manifest env) source_name table_name
                   current_project (package_name node) in
  match target_source with
  | Resolved target =>
      let target_source_id := src_unique_id target in
      let node := depends_on_append target_source_id node in
      assign_node node;;
      on_manifest (update_node node);;
      mret node
  | Disabled _ | NoTarget =>
      let node := set_enabled false node in
      assign_node node;;
      invalid_source_fail_unless_test
        (NodeResource node) source_name table_name
        (isinstance_Disabled target_source);;
      mret node
  end.

Definition _process_sources_for_node (current_project : string)
    (node : ManifestNode) : M Env ManifestNode :=
  for_each_on (sources node) (process_source_for_node current_project) node.

(** The [assert] that a node is no [ParsedSourceDefinition] holds of every
    [ManifestNode]. *)
Definition process_sources (current_project : string) : M Env unit :=
  for_each_node (λ node,
    if decide (resource_type node = Source) then mret ()
    else _process_sources_for_node current_project node;; mret ());;
  for_each_exposure (λ exposure,
    _process_sources_for_exposure current_project exposure;; mret ()).

End resolution.

(** ** The loader ([ManifestLoader]) *)

(** [config.args]: an attribute that is absent or [None] is [None]. *)
Record Args := {
  args_vars : option string;
  args_profile : option string;
  args_target : option string;
  profiles_dir : string;
}.

(** [RuntimeConfig]: [partial_parse] is [config.partial_parse]. *)
Record RuntimeConfig := {
  project_name : string;
  target_path : string;
  partial_parse : option bool;
  args : Args;
}.

(** [Project] *)
Record Project := {
  project_project_name : string;
  project_project_root : string;
}.

(** The parser classes: [_parser_types], and [MacroParser]. *)
Inductive ParserType :=
| ModelParser | SnapshotParser | AnalysisParser | DataTestParser
| HookParser | SeedParser | DocumentationParser | SchemaParser
| MacroParser.

#[global] Instance ParserType_eq_dec : EqDecision ParserType.
Proof. solve_decision. Defined.

Definition _parser_types : list ParserType :=
  [ModelParser; SnapshotParser; AnalysisParser; DataTestParser;
   HookParser; SeedParser; DocumentationParser; SchemaParser].

(** A parser object, [cls(project, manifest, root_project)]: the manifest
    it is given is the loader's, which [parse_file] mutates. *)
Record Parser := {
  parser_cls : ParserType;
  parser_project : Project;
  parser_root_project : option RuntimeConfig;
}.

Definition PARTIAL_PARSE_FILE_NAME : string := "partial_parse.pickle".

Definition DEFAULT_PARTIAL_PARSE : bool := false.

(** The contract of the parsers ([dbt.parser.*]). *)
Class ParserOps `{FileHashOps} := {
  parser_resource_type : Parser → NodeType;
  search : Parser → list FilePath;
  load_file : Parser → FilePath → result SourceFile;
  parse_file : Parser → FileBlock → Manifest → result Manifest;
}.

(** The process environment: the version of dbt, the command-line flag
    [flags.PARTIAL_PARSE], and the file system ([World]) with the calls of
    [os], [open] and [pickle] made on it.  [read_text path] is
    [open(path).read()], [pickle_load path] is [with open(path, 'rb') as fp:
    pickle.load(fp)], and [pickle_dump path manifest] is [with open(path,
    'wb') as fp: pickle.dump(manifest, fp)]. *)
Class SystemOps `{FileHashOps} := {
  __version__ : string;
  flags_PARTIAL_PARSE : option bool;
  World : Type;
  path_join : string → string → string;
  path_exists : string → World → bool;
  read_text : string → World → result string;
  pickle_load : string → World → result Manifest;
  make_directory : string → World → result World;
  pickle_dump : string → Manifest → World → result World;
}.

(** The steps of a load that are taken by other modules of dbt: the
    configuration ([get_metadata], [load_dependencies]), the adapter's
    [connections.set_query_header], [dbt.parser.sources.patch_sources], and
    the two steps of [manifest.py] that work on names, relations and
    descriptions, which the model of a resource does not have:
    [process_docs] and [_check_manifest].  Each may raise. *)
Class LoadOps `{FileHashOps} := {
  get_metadata : RuntimeConfig → ManifestMetadata;
  load_dependencies : RuntimeConfig → result (list (string * Project));
  set_query_header : MacroManifest → result unit;
  patch_sources : RuntimeConfig → Manifest → result Manifest;
  process_docs : RuntimeConfig → Manifest → result Manifest;
  _check_manifest : Manifest → RuntimeConfig → result unit;
}.

Section loader.
Context `{FileHashOps} `{!ManifestOps} `{!ParserOps} `{!SystemOps} `{!LoadOps}.

Record ManifestLoader := {
  root_project : RuntimeConfig;
  all_projects : list (string * Project);
  macro_hook : MacroManifest → result unit;
  manifest : Manifest;
  old_manifest : option Manifest;
  _loaded_file_cache : gmap string FileBlock;
}.

Definition set_manifest (m : Manifest) (self : ManifestLoader)
  : ManifestLoader :=
  {| root_project := root_project self; all_projects := all_projects self;
     macro_hook := macro_hook self; manifest := m;
     old_manifest := old_manifest self;
     _loaded_file_cache := _loaded_file_cache self |}.

Definition set_old_manifest (old : option Manifest) (self : ManifestLoader)
  : ManifestLoader :=
  {| root_project := root_project self; all_projects := all_projects self;
     macro_hook := macro_hook self; manifest := manifest self;
     old_manifest := old;
     _loaded_file_cache := _loaded_file_cache self |}.

Definition set_loaded_file_cache (cache : gmap string FileBlock)
    (self : ManifestLoader) : ManifestLoader :=
  {| root_project := root_project self; all_projects := all_projects self;
     macro_hook := macro_hook self; manifest := manifest self;
     old_manifest := old_manifest self;
     _loaded_file_cache := cache |}.

(** A call made to a parser. *)
Inductive Call :=
| load_file_call (parser : Parser) (path : FilePath)
| parse_file_call (parser : Parser) (block : FileBlock).

(** What a load works on besides the loader: the file system, the
    adapter's [_macro_manifest_lazy], the log, and the calls made to the
    parsers so far, latest last.  The adapter's macro manifest is kept as
    the [MacroManifest] that the adapter is given, with the macros and the
    files that it has then.  (In the code its two dictionaries are the
    ones of the loader's manifest; what is put into them later is not
    followed here, and no property below rests on it.) *)
Record Process := {
  world : World;
  _macro_manifest_lazy : option MacroManifest;
  log_records : list LogRecord;
  calls : list Call;
}.

Record Run := {
  self : ManifestLoader;
  process : Process;
}.

Definition set_self (l : ManifestLoader) (run : Run) : Run :=
  {| self := l; process := process run |}.

Definition set_process (p : Process) (run : Run) : Run :=
  {| self := self run; process := p |}.

Definition set_world (w : World) (p : Process) : Process :=
  {| world := w; _macro_manifest_lazy := _macro_manifest_lazy p;
     log_records := log_records p; calls := calls p |}.

Definition set_macro_manifest_lazy (mm : option MacroManifest) (p : Process)
  : Process :=
  {| world := world p; _macro_manifest_lazy := mm;
     log_records := log_records p; calls := calls p |}.

Definition record_call (c : Call) (p : Process) : Process :=
  {| world := world p; _macro_manifest_lazy := _macro_manifest_lazy p;
     log_records := log_records p; calls := calls p ++ [c] |}.

(** The process after [logger.debug(msg)]. *)
Definition debug_logged (msg : Message) (p : Process) : Process :=
  {| world := world p; _macro_manifest_lazy := _macro_manifest_lazy p;
     log_records := log_records p ++ [{| level := DEBUG; message := msg |}];
     calls := calls p |}.

Definition logger_debug (msg : Message) : M Run unit :=
  modify (λ run, set_process (debug_logged msg (process run)) run).

(** A call to a parser: when it returns, the call is on record. *)
Definition call {A} (c : Call) (r : result A) : M Run A :=
  a ← lift r;
  modify (λ run, set_process (record_call c (process run)) run);;
  mret a.

(** [self.manifest] as the state of a computation. *)
Definition on_self_manifest {A} (c : M Manifest A) : M Run A :=
  zoom (λ run, manifest (self run))
       (λ m run, set_self (set_manifest m (self run)) run) c.

Definition on_world (f : World → result World) : M Run unit :=
  zoom (λ run, world (process run))
       (λ w run, set_process (set_world w (process run)) run) (update f).

(** Modelled from the spec: [Manifest.has_file] is defined outside the
    files under study.  The spec has "look up the same file path in the
    cached manifest's file-id index [...] If present: compare content
    hashes", and the comment in [_get_cached] "If the checksum is
    different, 'has_file' returns false". *)
Definition has_file (m : Manifest) (source_file : SourceFile) : bool :=
  match files m !! search_key (path source_file) with
  | Some old_file => FileHash_eq (checksum old_file) (checksum source_file)
  | None => false
  end.

(** [cur] with the entries of [old] for the keys [ids]. *)
Definition copy_entries {V} (ids : list UniqueId)
    (old cur : gmap UniqueId V) : gmap UniqueId V :=
  foldr (λ id acc,
           match old !! id with
           | Some v => <[id := v]> acc
           | None => acc
           end) cur ids.

(** Modelled from the spec: the test that [Manifest.sanitized_update]
    makes with its [resource_type] argument is outside the files under
    study.  The spec has a file that "was previously produced by a
    different resource kind" parsed fresh, and the comment in
    [_get_cached] speaks of "tracking parser type vs node type":
    [old_file] was produced by the kind [kind] when every node that the old
    manifest has from it is of that resource type. *)
Definition produced_by (kind : NodeType) (old_manifest : Manifest)
    (old_file : SourceFile) : bool :=
  forallb (λ id, match nodes old_manifest !! id with
                 | Some node => bool_decide (resource_type node = kind)
                 | None => true
                 end)
          (file_nodes old_file).

(** Modelled from the spec: [Manifest.sanitized_update] is defined outside
    the files under study.  The spec has "If absent (file is new, or was
    previously produced by a different resource kind), parse fresh" and
    "copy forward all resources, documentation, and dependency
    placeholders previously produced from that file into the current
    Manifest, skip reparsing".  When the old file record was produced by
    the kind [resource_type] of the parser, the record and the resources it
    lists are put into the manifest and the answer is [True]; when it was
    produced by another kind, nothing is put in and the answer is [False].
    (When the old manifest does not have the file there is nothing to
    copy; [_get_cached] asks only after [has_file].) *)
Definition sanitized_update (source_file : SourceFile)
    (old_manifest : Manifest) (resource_type : NodeType) : M Manifest bool :=
  let key := search_key (path source_file) in
  match files old_manifest !! key with
  | Some old_file =>
      if produced_by resource_type old_manifest old_file then
        modify (λ m,
          {| metadata := metadata m;
             state_check := state_check m;
             files := <[key := old_file]> (files m);
             nodes := copy_entries (file_nodes old_file)
                                   (nodes old_manifest) (nodes m);
             exposures := copy_entries (file_exposures old_file)
                                       (exposures old_manifest) (exposures m);
             macros := copy_entries (file_macros old_file)
                                    (macros old_manifest) (macros m) |});;
        mret true
      else mret false
  | None => mret false
  end.

Definition _get_file (path : FilePath) (parser : Parser) : M Run FileBlock :=
  run ← get;
  match _loaded_file_cache (self run) !! search_key path with
  | Some block => mret block
  | None =>
      source_file ← call (load_file_call parser path) (load_file parser path);
      let block := {| file := source_file |} in
      modify (λ run,
        set_self
          (set_loaded_file_cache
             (<[search_key path := block]> (_loaded_file_cache (self run)))
             (self run)) run);;
      mret block
  end.

Definition _get_cached (block : FileBlock) (parser : Parser) : M Run bool :=
  run ← get;
  match old_manifest (self run) with
  | None => mret false
  | Some old =>
      if has_file old (file block) then
        on_self_manifest
          (sanitized_update (file block) old (parser_resource_type parser))
      else mret false
  end.

Definition parse_with_cache (path : FilePath) (parser : Parser)
  : M Run unit :=
  block ← _get_file path parser;
  cached ← _get_cached block parser;
  if negb cached then
    run ← get;
    m ← call (parse_file_call parser block)
             (parse_file parser block (manifest (self run)));
    modify (λ run, set_self (set_manifest m (self run)) run)
  else mret ().

(** [self._loaded_file_cache.clear()] *)
Definition clear_loaded_file_cache : M Run unit :=
  modify (λ run, set_self (set_loaded_file_cache ∅ (self run)) run).

(** The parsers that [parse_project] makes: [cls(project, self.manifest,
    self.root_project)] for every [cls] of [_parser_types]. *)
Definition project_parsers (project : Project) (run : Run) : list Parser :=
  (λ cls, {| parser_cls := cls; parser_project := project;
             parser_root_project := Some (root_project (self run)) |})
    <$> _parser_types.

(** The counts and timings of [self._perf_info] are not part of the
    model. *)
Definition parse_project (project : Project) : M Run unit :=
  run ← get;
  let parsers := project_parsers project run in
  clear_loaded_file_cache;;
  for_each parsers (λ parser,
    for_each (search parser) (λ path, parse_with_cache path parser)).

Definition load : M Run unit :=
  run ← get;
  (if old_manifest (self run) is Some _
   then logger_debug (literal "Got an acceptable cached parse result")
   else mret ());;
  for_each (all_projects (self run)).*2 parse_project.

Definition write_manifest_for_partial_parse : M Run unit :=
  run ← get;
  let path := path_join (target_path (root_project (self run)))
                        PARTIAL_PARSE_FILE_NAME in
  on_world (make_directory (target_path (root_project (self run))));;
  on_world (pickle_dump path (manifest (self run))).

(** [valid] is assigned as in the code, every check being made.  The
    construction of a loader is modelled by what it returns: the messages
    that [matching_parse_results] and [read_saved_manifest] send to
    [logger.debug] on the way are not part of the model. *)
Definition matching_parse_results (self : ManifestLoader)
    (manifest' : Manifest) : bool :=
  match metadata manifest' with
  | None => false
  | Some md =>
      if bool_decide (dbt_version md ≠ __version__) then false
      else
        let valid := true in
        match state_check (manifest self), state_check manifest' with
        | Some new, Some old =>
            let valid :=
              if FileHash_ne (vars_hash new) (vars_hash old)
              then false else valid in
            let valid :=
              if FileHash_ne (profile_hash new) (profile_hash old)
              then false else valid in
            let missing_keys : gset string :=
              filter (λ k, k ∉ dom (project_hashes old))
                     (dom (project_hashes new)) in
            let valid :=
              if bool_decide (missing_keys ≠ ∅) then false else valid in
            map_fold
              (λ key new_value valid,
                 match project_hashes old !! key with
                 | Some old_value =>
                     if FileHash_ne new_value old_value
                     then false else valid
                 | None => valid
                 end)
              valid (project_hashes new)
        | _, _ => false
        end
  end.

Definition _partial_parse_enabled (self : ManifestLoader) : bool :=
  match flags_PARTIAL_PARSE with
  | Some b => b
  | None =>
      match partial_parse (root_project self) with
      | Some b => b
      | None => DEFAULT_PARTIAL_PARSE
      end
  end.

Definition read_saved_manifest (self : ManifestLoader) (w : World)
  : result (option Manifest) :=
  if negb (_partial_parse_enabled self) then Ok None
  else
    let path := path_join (target_path (root_project self))
                          PARTIAL_PARSE_FILE_NAME in
    if path_exists path w then
      try_except
        (manifest' ← pickle_load path w;
         if matching_parse_results self manifest'
         then Ok (Some manifest')
         else Ok None)
        (λ exc, Ok None)
    else Ok None.

(** The resolution passes work on [self.manifest] and the global logger. *)
Definition on_env {A} (c : M Env A) : M Run A :=
  zoom (λ run, {| env_manifest := manifest (self run);
                  logger := log_records (process run) |})
       (λ env run,
          {| self := set_manifest (env_manifest env) (self run);
             process :=
               {| world := world (process run);
                  _macro_manifest_lazy := _macro_manifest_lazy (process run);
                  log_records := logger env;
                  calls := calls (process run) |} |})
       c.

Definition process_manifest : M Run unit :=
  run ← get;
  let project_name := project_name (root_project (self run)) in
  on_env (process_sources project_name);;
  on_env (process_refs project_name);;
  on_self_manifest (update (process_docs (root_project (self run)))).

(** The manifest of the model has no [sources], [disabled] and
    [selectors]: [patch_sources] stands for the call and the assignment of
    its result, and the two assignments that follow it in the code are left
    out, as is the timing. *)
Definition update_manifest : M Run Manifest :=
  run ← get;
  on_self_manifest (update (patch_sources (root_project (self run))));;
  on_self_manifest (update patch_nodes);;
  on_self_manifest (update patch_macros);;
  process_manifest;;
  run ← get;
  mret (manifest (self run)).

(** [getattr(config.args, name, default) or default] *)
Definition getattr_or (attr : option string) (default : string) : string :=
  match attr with
  | Some v => if decide (v = "") then default else v
  | None => default
  end.

Definition build_manifest_state_check (config : RuntimeConfig)
    (all_projects : list (string * Project)) (w : World)
  : result ManifestStateCheck :=
  let vars_hash :=
    from_contents
      (String.concat (String Ascii.zero EmptyString)
         [getattr_or (args_vars (args config)) "{}";
          getattr_or (args_profile (args config)) "";
          getattr_or (args_target (args config)) "";
          __version__]) in
  let profile_path := path_join (profiles_dir (args config)) "profiles.yml" in
  profile ← read_text profile_path w;
  let profile_hash := from_contents profile in
  project_hashes ←
    foldl (λ (acc : result (gmap string FileHash)) '(name, project),
             project_hashes ← acc;
             let path := path_join (project_project_root project)
                                   "dbt_project.yml" in
             contents ← read_text path w;
             mret (<[name := from_contents contents]> project_hashes))
          (Ok ∅) all_projects;
  mret {| vars_hash := vars_hash; profile_hash := profile_hash;
          project_hashes := project_hashes |}.

(** [ManifestLoader(root_project, all_projects, macro_hook)]; a
    [macro_hook] of [None] is [lambda m: None]. *)
Definition __init__ (root_project : RuntimeConfig)
    (all_projects : list (string * Project))
    (macro_hook : option (MacroManifest → result unit)) (w : World)
  : result ManifestLoader :=
  let m := empty_manifest (get_metadata root_project) in
  state_check ← build_manifest_state_check root_project all_projects w;
  let self :=
    {| root_project := root_project; all_projects := all_projects;
       macro_hook := default (λ _, Ok ()) macro_hook;
       manifest := set_state_check (Some state_check) m;
       old_manifest := None; _loaded_file_cache := ∅ |} in
  old ← read_saved_manifest self w;
  mret (set_old_manifest old self).

Definition create_macro_manifest : M Run MacroManifest :=
  run ← get;
  for_each (all_projects (self run)).*2 (λ project,
    let parser := {| parser_cls := MacroParser; parser_project := project;
                     parser_root_project := None |} in
    for_each (search parser) (λ path, parse_with_cache path parser));;
  run ← get;
  mret {| mm_macros := macros (manifest (self run));
          mm_files := files (manifest (self run)) |}.

Definition load_macros_from_adapter : M Run unit :=
  run ← get;
  match _macro_manifest_lazy (process run) with
  | None =>
      macro_manifest ← create_macro_manifest;
      modify (λ run,
        set_process
          (set_macro_manifest_lazy (Some macro_manifest) (process run)) run);;
      lift (macro_hook (self run) macro_manifest)
  | Some macro_manifest =>
      modify (λ run,
        set_self
          (set_manifest
             (set_macros (mm_macros macro_manifest)
                (set_files (mm_files macro_manifest) (manifest (self run))))
             (self run)) run);;
      lift (macro_hook (self run) macro_manifest)
  end.

(** [ManifestLoader.get_full_manifest(config, reset=reset)].
    [config.clear_dependencies()] acts on the configuration alone and the
    tracking event sent at the end has no effect on the result: both are
    left out, as is the timing. *)
Definition get_full_manifest (config : RuntimeConfig) (reset : bool)
  : M Process Manifest :=
  (if reset then modify (set_macro_manifest_lazy None) else mret ());;
  projects ← lift (load_dependencies config);
  p ← get;
  loader ← lift (__init__ config projects (Some set_query_header) (world p));
  zoom (λ p, {| self := loader; process := p |}) (λ run _, process run)
    (load_macros_from_adapter;;
     load;;
     write_manifest_for_partial_parse;;
     m ← update_manifest;
     lift (_check_manifest m config);;
     on_self_manifest (update build_flat_graph);;
     run ← get;
     mret (manifest (self run))).

(** [ManifestLoader.load_macros(root_config, macro_hook)] *)
Definition load_macros (root_config : RuntimeConfig)
    (macro_hook : MacroManifest → result unit) : M Process MacroManifest :=
  projects ← lift (load_dependencies root_config);
  p ← get;
  loader ← lift (__init__ root_config projects (Some macro_hook) (world p));
  zoom (λ p, {| self := loader; process := p |}) (λ run _, process run)
    create_macro_manifest.

(** *** Notions used to state the properties of the loader *)

(** [parser.parse_file(block)] on the loader's manifest as it stands: the
    parser's result replaces it and the call goes on record. *)
Definition parsed_fresh (parser : Parser) (block : FileBlock) (run : Run)
  : result (unit * Run) :=
  match parse_file parser block (manifest (self run)) with
  | Ok m =>
      Ok ((), set_self (set_manifest m (self run))
                (set_process
                   (record_call (parse_file_call parser block) (process run))
                   run))
  | Raise e => Raise e
  end.


(** The run after [_get_file] has loaded [source_file] for [fp]. *)
Definition file_loaded (fp : FilePath) (parser : Parser)
    (source_file : SourceFile) (run : Run) : Run :=
  set_self
    (set_loaded_file_cache
       (<[search_key fp := {| file := source_file |}]>
          (_loaded_file_cache (self run)))
       (self run))
    (set_process (record_call (load_file_call parser fp) (process run)) run).

(** A computation that leaves [self.root_project] as it is. *)
Definition keeps_root_project {A} (c : M Run A) : Prop :=
  ∀ run a run', c run = Ok (a, run') →
                root_project (self run') = root_project (self run).

(** The run at the point where [load] starts on the projects: when the
    loader has an old manifest, the message that says so is in the log. *)
Definition load_started (run : Run) : Run :=
  if old_manifest (self run) is Some _
  then set_process
         (debug_logged (literal "Got an acceptable cached parse result")
                       (process run)) run
  else run.

(** The run at the point where [get_full_manifest] is about to call
    [write_manifest_for_partial_parse]: the dependencies are loaded, the
    loader is made, [load_macros_from_adapter] and [load] have returned. *)
Definition run_of_load (config : RuntimeConfig) (reset : bool) (p : Process)
  : result Run :=
  let p := if reset then set_macro_manifest_lazy None p else p in
  projects ← load_dependencies config;
  loader ← __init__ config projects (Some set_query_header) (world p);
  match (load_macros_from_adapter;; load) {| self := loader; process := p |}
  with
  | Ok (_, run) => Ok run
  | Raise e => Raise e
  end.

(** What [get_full_manifest] does after it has written the manifest. *)
Definition after_write (config : RuntimeConfig) : M Run Manifest :=
  m ← update_manifest;
  lift (_check_manifest m config);;
  on_self_manifest (update build_flat_graph);;
  run ← get;
  mret (manifest (self run)).

End loader.

(** Unfolding of the monad's operations. *)
Ltac unfold_monad :=
  unfold call, on_self_manifest, on_world, zoom, update, lift, modify, get,
    raise, mbind, mret, M_bind, M_ret, result_bind, result_ret in *.

(** ** Test selection ([TestSelector], [core/dbt/task/test.py]) *)

(** [dbt.graph.Graph] is defined outside the files under study: the graph
    and its method [select_successors], which gives the successors of a
    set of selected ids, are taken as given. *)
Class GraphOps := {
  Graph : Type;
  select_successors : Graph → gset UniqueId → gset UniqueId;
}.

Module TestSelector.
Section selector.
Context `{FileHashOps} `{GraphOps}.

Record t := {
  graph : Graph;
  manifest : Manifest;
}.

(** The body of the loop of [expand_selection]. *)
Definition add_if_test (self : t) (unique_id : UniqueId)
    (selected_tests : gset UniqueId) : gset UniqueId :=
  match nodes (manifest self) !! unique_id with
  | Some node =>
      if decide (resource_type node = Test)
      then {[unique_id]} ∪ selected_tests
      else selected_tests
  | None => selected_tests
  end.

Definition expand_selection (self : t) (selected : gset UniqueId)
    (greedy : bool) : gset UniqueId * gset UniqueId :=
  let selected_tests :=
    set_fold (add_if_test self) ∅ (select_successors (graph self) selected) in
  let results := if greedy then selected ∪ selected_tests else selected in
  (results, selected_tests).

(** The body of the loop of [incorporate_greedy_nodes]: [selected] is the
    set that the loop mutates, so the subset test sees the ids added by the
    iterations before. *)
Definition incorporate (self : t) (selected : gset UniqueId)
    (unique_id : UniqueId) : gset UniqueId :=
  match nodes (manifest self) !! unique_id with
  | Some node =>
      if decide (list_to_set (depends_on_nodes node) ⊆ selected)
      then {[unique_id]} ∪ selected
      else selected
  | None => selected
  end.

(** [greedy_nodes] is a Python set: it is given by the list of its
    elements in the order in which the loop visits them. *)
Definition incorporate_greedy_nodes (self : t) (selected : gset UniqueId)
    (greedy_nodes : list UniqueId) : gset UniqueId :=
  foldl (incorporate self) selected greedy_nodes.

(** [x] is a key of [manifest.nodes] and its node is a test. *)
Definition is_test_node (self : t) (x : UniqueId) : Prop :=
  ∃ node, nodes (manifest self) !! x = Some node ∧ resource_type node = Test.

(** [x] is a key of [manifest.nodes] and every dependency of its node is in
    [selected]. *)
Definition dependencies_selected (self : t) (selected : gset UniqueId)
    (x : UniqueId) : Prop :=
  ∃ node, nodes (manifest self) !! x = Some node ∧
          ∀ d, d ∈ depends_on_nodes node → d ∈ selected.

End selector.
End TestSelector.

(** ** More of the loader

    Notions used to state the properties of the construction of the
    state check, of the passes over the files, and of the macro
    manifest. *)

Section state_check_notions.
Context `{FileHashOps} `{!ManifestOps} `{!ParserOps} `{!SystemOps} `{!LoadOps}.

(** The path of the [dbt_project.yml] of a project. *)
Definition project_file (project : Project) : string :=
  path_join (project_project_root project) "dbt_project.yml".

(** The body of the loop of [build_manifest_state_check] over
    [all_projects.items()]: the hashes so far, or the exception raised. *)
Definition hash_project (w : World) (acc : result (gmap string FileHash))
    (item : string * Project) : result (gmap string FileHash) :=
  let '(name, project) := item in
  project_hashes ← acc;
  let path := path_join (project_project_root project) "dbt_project.yml" in
  contents ← read_text path w;
  mret (<[name := from_contents contents]> project_hashes).

End state_check_notions.

Section parse_pass_notions.
Context `{FileHashOps} `{!ManifestOps} `{!ParserOps} `{!SystemOps} `{!LoadOps}.

(** The search keys of the files that the calls [cs] loaded, in the order
    of the calls. *)
Definition loaded_keys (cs : list Call) : list string :=
  omap (λ c, match c with
             | load_file_call _ fp => Some (search_key fp)
             | parse_file_call _ _ => None
             end) cs.

(** [run'] differs from [run] at most in the loader's manifest, in its
    file cache, and by calls made to the parsers after those of [run]. *)
Definition parse_frame (run run' : Run) : Prop :=
  root_project (self run') = root_project (self run) ∧
  all_projects (self run') = all_projects (self run) ∧
  macro_hook (self run') = macro_hook (self run) ∧
  old_manifest (self run') = old_manifest (self run) ∧
  world (process run') = world (process run) ∧
  _macro_manifest_lazy (process run') = _macro_manifest_lazy (process run) ∧
  log_records (process run') = log_records (process run) ∧
  calls (process run) `prefix_of` calls (process run').

(** Every search key that the file cache of [run] has, the one of [run']
    has. *)
Definition cache_grows (run run' : Run) : Prop :=
  ∀ key, is_Some (_loaded_file_cache (self run) !! key) →
         is_Some (_loaded_file_cache (self run') !! key).

(** The state of a pass that started with the calls [before] on record and
    an empty file cache, and that parses the paths [found]: the pass has
    loaded one file for every search key in the cache, and no other; the
    cache holds the blocks of these files; every block handed to a parser
    was loaded in the pass. *)
Definition pass_invariant (found : Parser → FilePath → Prop)
    (before : list Call) (run : Run) : Prop :=
  ∃ new,
    calls (process run) = before ++ new ∧
    NoDup (loaded_keys new) ∧
    (∀ key, key ∈ loaded_keys new ↔
            is_Some (_loaded_file_cache (self run) !! key)) ∧
    (∀ key block, _loaded_file_cache (self run) !! key = Some block →
       ∃ parser fp, load_file_call parser fp ∈ new ∧ search_key fp = key ∧
                    load_file parser fp = Ok (file block)) ∧
    (∀ parser fp, load_file_call parser fp ∈ new → found parser fp) ∧
    (∀ parser block, parse_file_call parser block ∈ new →
       ∃ fp parser' fp',
         found parser fp ∧ load_file_call parser' fp' ∈ new ∧
         search_key fp' = search_key fp ∧
         load_file parser' fp' = Ok (file block)).

(** The parser that [create_macro_manifest] makes for a project:
    [MacroParser(project, self.manifest)]. *)
Definition macro_parser (project : Project) : Parser :=
  {| parser_cls := MacroParser; parser_project := project;
     parser_root_project := None |}.

(** The macro files of different projects have different search keys. *)
Definition macro_files_kept_apart (projects : list Project) : Prop :=
  ∀ project project' fp fp',
    project ∈ projects → project' ∈ projects →
    fp ∈ search (macro_parser project) →
    fp' ∈ search (macro_parser project') →
    search_key fp = search_key fp' → project = project'.

(** The loader with another [macro_hook]. *)
Definition set_macro_hook (hook : MacroManifest → result unit)
    (self : ManifestLoader) : ManifestLoader :=
  {| root_project := root_project self; all_projects := all_projects self;
     macro_hook := hook; manifest := manifest self;
     old_manifest := old_manifest self;
     _loaded_file_cache := _loaded_file_cache self |}.

(** A computation that leaves the adapter's [_macro_manifest_lazy] as it
    is. *)
Definition keeps_macro_manifest_lazy {A} (c : M Run A) : Prop :=
  ∀ run a run', c run = Ok (a, run') →
                _macro_manifest_lazy (process run')
                = _macro_manifest_lazy (process run).

(** [run'] differs from [run] at most in the loader's manifest and in the
    log. *)
Definition resolve_frame (run run' : Run) : Prop :=
  root_project (self run') = root_project (self run) ∧
  all_projects (self run') = all_projects (self run) ∧
  macro_hook (self run') = macro_hook (self run) ∧
  old_manifest (self run') = old_manifest (self run) ∧
  _loaded_file_cache (self run') = _loaded_file_cache (self run) ∧
  world (process run') = world (process run) ∧
  _macro_manifest_lazy (process run') = _macro_manifest_lazy (process run) ∧
  calls (process run') = calls (process run).

(** A computation that, when it returns, has taken the run to one that
    [R] relates it to. *)
Definition relates {A} (R : relation Run) (c : M Run A) : Prop :=
  ∀ run a run', c run = Ok (a, run') → R run run'.

(** The run of the loader with another [macro_hook]. *)
Definition with_macro_hook (hook : MacroManifest → result unit) (run : Run)
  : Run :=
  set_self (set_macro_hook hook (self run)) run.

End parse_pass_notions.

(** ** The counts of a load ([ManifestLoaderInfo]) *)

Module Perf.

(** [ParserInfo], [ProjectLoaderInfo] and [ManifestLoaderInfo], without
    the elapsed times. *)
Record ParserInfo := {
  parser : NodeType;
  parser_path_count : nat;
}.

Record ProjectLoaderInfo := {
  project_name : string;
  project_path_count : nat;
  parsers : list ParserInfo;
}.

Record ManifestLoaderInfo := {
  path_count : nat;
  is_partial_parse_enabled : option bool;
  projects : list ProjectLoaderInfo;
}.

Section perf.
Context `{FileHashOps} `{!ManifestOps} `{!ParserOps} `{!SystemOps} `{!LoadOps}.

(** A step of the loader, in a state that has [self._perf_info] too. *)
Definition on_run {A} (c : M Run A) : M (Run * ManifestLoaderInfo) A :=
  zoom fst (λ run st, (run, st.2)) c.

(** [parse_project] with the counts that it keeps in [self._perf_info]. *)
Definition parse_project (project : Project)
  : M (Run * ManifestLoaderInfo) unit :=
  st ← get;
  let parsers := project_parsers project st.1 in
  on_run clear_loaded_file_cache;;
  '(project_parser_info, total_path_count) ←
    for_each_on parsers
      (λ '(project_parser_info, total_path_count) parser,
         parser_path_count ←
           for_each_on (search parser)
             (λ parser_path_count path,
                on_run (parse_with_cache path parser);;
                mret (parser_path_count + 1))
             0;
         if decide (0 < parser_path_count) then
           mret (project_parser_info
                 ++ [{| parser := parser_resource_type parser;
                        parser_path_count := parser_path_count |}],
                 total_path_count + parser_path_count)
         else mret (project_parser_info, total_path_count))
      ([], 0);
  let project_info :=
    {| project_name := project_project_name project;
       project_path_count := total_path_count;
       parsers := project_parser_info |} in
  modify (λ st,
    (st.1,
     {| path_count := path_count st.2 + total_path_count;
        is_partial_parse_enabled := is_partial_parse_enabled st.2;
        projects := projects st.2 ++ [project_info] |})).

(** The entries of [ProjectLoaderInfo.parsers] for the parsers [ps]: one
    for every parser that finds a path. *)
Definition parser_infos (ps : list Parser) : list ParserInfo :=
  omap (λ p, if decide (0 < length (search p))
             then Some {| parser := parser_resource_type p;
                          parser_path_count := length (search p) |}
             else None) ps.

(** The number of paths that the parsers [ps] find. *)
Definition paths_found (ps : list Parser) : nat :=
  sum_list ((λ p, length (search p)) <$> ps).

(** [self._perf_info] after a pass over [project] that has returned. *)
Definition info_after (project : Project) (run : Run)
    (info : ManifestLoaderInfo) : ManifestLoaderInfo :=
  let ps := project_parsers project run in
  {| path_count := path_count info + paths_found ps;
     is_partial_parse_enabled := is_partial_parse_enabled info;
     projects :=
       projects info
       ++ [{| project_name := project_project_name project;
              project_path_count := paths_found ps;
              parsers := parser_infos ps |}] |}.

End perf.
End Perf.

(** ** A node made after the load ([process_node]) *)

(** [generate_runtime_docs (config, node, manifest, config.project_name)]
    followed by [_process_docs_for_node (ctx, node)]: the descriptions of
    the node and of its columns are rendered by the templating engine, in
    place.  The model of a node has no descriptions: what is left of the
    two calls is that they may raise. *)
Class DocsOps `{FileHashOps} := {
  render_node_docs : RuntimeConfig → ManifestNode → Manifest → result unit;
}.

Section process_node_notions.
Context `{FileHashOps} `{!ManifestOps} `{!DocsOps}.

(** [process_node (config, manifest, node)], for a node made after the
    load: its sources are resolved, then its refs, then its descriptions
    are rendered.  The node is processed whatever its resource type. *)
Definition process_node (config : RuntimeConfig) (node : ManifestNode)
  : M Env ManifestNode :=
  node ← _process_sources_for_node (project_name config) node;
  node ← _process_refs_for_node (project_name config) node;
  env ← get;
  lift (render_node_docs config node (env_manifest env));;
  mret node.

(** [node'] is [node] but for [config.enabled] and [depends_on.nodes]. *)
Definition same_resource (node node' : ManifestNode) : Prop :=
  unique_id node' = unique_id node ∧
  package_name node' = package_name node ∧
  resource_type node' = resource_type node ∧
  refs node' = refs node ∧
  sources node' = sources node.

(** What a pass over [n] mentions has made of [node]: it has appended the
    ids [new] to the dependencies, at most one for every mention, and the
    node is enabled afterwards exactly when it was enabled before and every
    mention gave a dependency. *)
Definition resolved_into (n : nat) (new : list UniqueId)
    (node node' : ManifestNode) : Prop :=
  same_resource node node' ∧
  depends_on_nodes node' = depends_on_nodes node ++ new ∧
  length new ≤ n ∧
  (config_enabled node' = true ↔
   config_enabled node = true ∧ length new = n).

End process_node_notions.

(** ** The uniqueness of resources ([_check_resource_uniqueness]) *)

(** What [_check_resource_uniqueness] takes from the rest of dbt:
    [NodeType.refable ()]; the attribute [node.name], which the model of a
    node does not have; the name of the adapter's relation for a node,
    [str (relation_cls.create_from (config=config, node=node))]; and the
    exceptions that [dbt.exceptions.raise_duplicate_resource_name] and
    [dbt.exceptions.raise_ambiguous_alias] raise. *)
Class RelationOps := {
  refable : list NodeType;
  node_name : ManifestNode → string;
  full_node_name : RuntimeConfig → ManifestNode → string;
  raise_duplicate_resource_name : ManifestNode → ManifestNode → Exception;
  raise_ambiguous_alias : ManifestNode → ManifestNode → string → Exception;
}.

Section uniqueness.
Context `{FileHashOps} `{!RelationOps}.

(** The body of the loop of [_check_resource_uniqueness], on the dicts
    [names_resources] and [alias_resources]. *)
Definition check_resource (config : RuntimeConfig)
    (seen : gmap string ManifestNode * gmap string ManifestNode)
    (node : ManifestNode)
  : result (gmap string ManifestNode * gmap string ManifestNode) :=
  let '(names_resources, alias_resources) := seen in
  if decide (resource_type node ∉ refable) then Ok seen
  else
    let name := node_name node in
    let full_node_name := full_node_name config node in
    match names_resources !! name with
    | Some existing_node =>
        Raise (raise_duplicate_resource_name existing_node node)
    | None =>
        match alias_resources !! full_node_name with
        | Some existing_alias =>
            Raise (raise_ambiguous_alias existing_alias node full_node_name)
        | None =>
            Ok (<[name := node]> names_resources,
                <[full_node_name := node]> alias_resources)
        end
    end.

(** The loop over [items], from the dicts [seen]. *)
Definition check_resources (config : RuntimeConfig)
    (items : list (UniqueId * ManifestNode))
    (seen : gmap string ManifestNode * gmap string ManifestNode)
  : result (gmap string ManifestNode * gmap string ManifestNode) :=
  foldl (λ acc item, seen ← acc; check_resource config seen item.2)
        (Ok seen) items.

(** [_check_resource_uniqueness (manifest, config)].  The items of
    [manifest.nodes] come in the order of [map_to_list]. *)
Definition _check_resource_uniqueness (manifest : Manifest)
    (config : RuntimeConfig) : result unit :=
  check_resources config (map_to_list (nodes manifest)) (∅, ∅);; Ok ().

(** The dicts of the loop hold refable nodes of [items], each under its
    name and under the name of its relation. *)
Definition seen_from (config : RuntimeConfig)
    (items : list (UniqueId * ManifestNode))
    (seen : gmap string ManifestNode * gmap string ManifestNode) : Prop :=
  (∀ s node, seen.1 !! s = Some node →
     node_name node = s ∧ resource_type node ∈ refable ∧
     ∃ uid, (uid, node) ∈ items) ∧
  (∀ s node, seen.2 !! s = Some node →
     full_node_name config node = s ∧ resource_type node ∈ refable ∧
     ∃ uid, (uid, node) ∈ items) ∧
  (∀ uid node, (uid, node) ∈ items → resource_type node ∈ refable →
     is_Some (seen.1 !! node_name node) ∧
     is_Some (seen.2 !! full_node_name config node)).

(** Two different entries of [manifest.nodes] whose nodes are refable. *)
Definition refable_pair (manifest : Manifest) (node1 node2 : ManifestNode)
  : Prop :=
  ∃ uid1 uid2,
    nodes manifest !! uid1 = Some node1 ∧
    nodes manifest !! uid2 = Some node2 ∧
    uid1 ≠ uid2 ∧
    resource_type node1 ∈ refable ∧ resource_type node2 ∈ refable.

End uniqueness.

(** ** More of the test selection *)

Section selection_notions.
Context `{FileHashOps} `{GraphOps}.
Import TestSelector.

(** No candidate of [greedy_nodes] waits for another one: a dependency of
    a candidate that is itself a candidate is selected already. *)
Definition independent_candidates (self : TestSelector.t)
    (selected : gset UniqueId) (greedy_nodes : list UniqueId) : Prop :=
  ∀ c node d, c ∈ greedy_nodes → nodes (manifest self) !! c = Some node →
              d ∈ depends_on_nodes node → d ∈ greedy_nodes → d ∈ selected.

End selection_notions.

(** ** Running a test ([TestRunner.execute]) *)

(** [str.upper], on the letters of ASCII.  (The upper case of a character
    outside ASCII is no letter of [ERROR], the one string that the result
    is compared with.) *)
Definition ascii_upper (c : Ascii.ascii) : Ascii.ascii :=
  let n := Ascii.nat_of_ascii c in
  if (97 <=? n)%nat && (n <=? 122)%nat then Ascii.ascii_of_nat (n - 32)
  else c.

Fixpoint upper (s : string) : string :=
  match s with
  | EmptyString => EmptyString
  | String c s => String (ascii_upper c) (upper s)
  end.

Module TestRunner.

(** The members of [dbt.contracts.results.TestStatus] that [execute]
    gives. *)
Inductive TestStatus := Pass | Fail | Warn.

(** The class of the node that [execute] is given, as its [isinstance]
    tests see it; [OtherNode] keeps the text of [type(test)]. *)
Inductive TestClass :=
| CompiledDataTestNode
| CompiledSchemaTestNode
| OtherNode (type_repr : string).

(** A compiled test: [severity] is [test.config.severity]. *)
Record CompiledTestNode := {
  test_class : TestClass;
  test_unique_id : UniqueId;
  severity : string;
}.

(** [RunResult]; [timing] and [adapter_response], which [execute] leaves
    empty, are not kept. *)
Record RunResult := {
  node : CompiledTestNode;
  status : TestStatus;
  thread_id : string;
  execution_time : Z;
  message : Z;
}.

(** The two methods that run the query of a test and give the number of
    failing rows, through the adapter and the templating engine;
    [flags.WARN_ERROR]; and the name of the current thread. *)
Class RunnerOps `{FileHashOps} := {
  execute_data_test : CompiledTestNode → Manifest → result Z;
  execute_schema_test : CompiledTestNode → result Z;
  flags_WARN_ERROR : bool;
  current_thread_name : string;
}.

Section runner.
Context `{FileHashOps} `{!RunnerOps}.

Definition execute (test : CompiledTestNode) (manifest : Manifest)
  : result RunResult :=
  failed_rows ←
    match test_class test with
    | CompiledDataTestNode => execute_data_test test manifest
    | CompiledSchemaTestNode => execute_schema_test test
    | OtherNode type_repr =>
        Raise (InternalException
                 ("Expected compiled schema test or compiled data test, got "
                  +:+ type_repr))
    end;
  let severity := upper (severity test) in
  let thread_id := current_thread_name in
  let status :=
    if decide (failed_rows = 0%Z) then Pass
    else if bool_decide (severity = "ERROR") || flags_WARN_ERROR then Fail
    else Warn in
  mret {| node := test; status := status; thread_id := thread_id;
          execution_time := 0; message := failed_rows |}.

End runner.
End TestRunner.

(** ** Columns of a node ([_get_node_column]) *)

(** [ColumnInfo]: its name and its description, which is empty when the
    constructor is given the name alone. *)
Record ColumnInfo := {
  column_name : string;
  column_description : string;
}.

(** [_get_node_column (node, column_name)], on [node.columns]: what the
    call returns or raises, and [node.columns] afterwards.  When the
    column is missing, the first assignment puts a new [ColumnInfo] into
    [node.columns]; the second one reads the local variable [column], which
    no statement has assigned yet. *)
Definition _get_node_column (columns : gmap string ColumnInfo)
    (column_name : string) : result ColumnInfo * gmap string ColumnInfo :=
  match columns !! column_name with
  | Some column => (Ok column, columns)
  | None =>
      let columns :=
        <[column_name := {| column_name := column_name;
                            column_description := "" |}]> columns in
      (Raise (PythonException "UnboundLocalError"), columns)
  end.

(** ** A sample installation

    Concrete collaborators and two small projects, for the examples:
    hashes are strings compared as strings, the search key of a path is
    the location of the file ([project_root/searched_path/relative_path]),
    the file system keeps the pickled manifests by path (and can be
    read-only), every project has one file of macros and one of models,
    and a ref [name] of a node of package [pkg] resolves to the node
    [model.pkg.name]. *)

Definition sample_hash : FileHashOps :=
  {| FileHash := string; FileHash_eq := String.eqb; from_contents := id;
     search_key := λ fp,
       project_root fp +:+ "/" +:+ searched_path fp +:+ "/"
       +:+ relative_path fp |}.

Section sample.
#[local] Existing Instance sample_hash.

Definition sample_resolve_ref (m : Manifest) (target_model_name : string)
    (target_model_package : option string)
    (current_project node_package : string) : MaybeResolved ManifestNode :=
  let pkg := default node_package target_model_package in
  match nodes m !! ("model." +:+ pkg +:+ "." +:+ target_model_name) with
  | Some target =>
      if config_enabled target then Resolved target else Disabled target
  | None => NoTarget
  end.

Definition sample_manifest_ops : ManifestOps :=
  {| resolve_ref := sample_resolve_ref;
     resolve_source := λ _ _ _ _ _, NoTarget;
     update_node := λ node m,
       Ok (set_nodes (<[unique_id node := node]> (nodes m)) m);
     update_exposure := λ exposure m,
       Ok (set_exposures
             (<[exp_unique_id exposure := exposure]> (exposures m)) m);
     patch_nodes := Ok;
     patch_macros := Ok;
     build_flat_graph := Ok |}.

(** A model of package [pkg], as a parser makes it: enabled, without
    dependencies yet. *)
Definition parsed_model (pkg name : string) (refs : list (list string))
  : ManifestNode :=
  {| unique_id := "model." +:+ pkg +:+ "." +:+ name; package_name := pkg;
     resource_type := Model; config_enabled := true; refs := refs;
     sources := []; depends_on_nodes := [] |}.

(** In every project the macro parser finds [macros/m.sql] and the model
    parser [models/y.sql].  A file's checksum is its location.  Parsing a
    macro file registers it with one macro named after its location;
    parsing a model file registers it with the models [x] and [y] of the
    project, [y] with a ref to [x]. *)
Definition sample_parser_ops : ParserOps :=
  {| parser_resource_type := λ parser,
       match parser_cls parser with
       | ModelParser => Model
       | SnapshotParser => Snapshot
       | AnalysisParser => Analysis
       | DataTestParser | SchemaParser => Test
       | HookParser => Operation
       | SeedParser => Seed
       | DocumentationParser => Documentation
       | MacroParser => Macro
       end;
     search := λ parser,
       let found searched relative :=
         [{| searched_path := searched; relative_path := relative;
             project_root := project_project_root (parser_project parser) |}]
       in
       if decide (parser_cls parser = MacroParser) then found "macros" "m.sql"
       else if decide (parser_cls parser = ModelParser)
            then found "models" "y.sql"
            else [];
     load_file := λ parser fp,
       Ok {| path := fp; checksum := search_key fp;
             file_nodes := []; file_exposures := []; file_macros := [] |};
     parse_file := λ parser block m,
       let fp := path (file block) in
       let m := set_files (<[search_key fp := file block]> (files m)) m in
       if decide (parser_cls parser = MacroParser) then
         let id := "macro." +:+ search_key fp in
         Ok (set_macros (<[id := {| macro_unique_id := id |}]> (macros m)) m)
       else
         let pkg := project_project_name (parser_project parser) in
         let x := parsed_model pkg "x" [] in
         let y := parsed_model pkg "y" [["x"]] in
         Ok (set_nodes (<[unique_id y := y]> (<[unique_id x := x]> (nodes m)))
                       m) |}.

(** The file system: the pickled manifests by path.  When [writable] is
    false, [open(path, 'wb')] raises [OSError]. *)
Definition sample_system (writable : bool) : SystemOps :=
  {| __version__ := "0.19.1";
     flags_PARTIAL_PARSE := Some true;
     World := gmap string Manifest;
     path_join := λ a b, a +:+ "/" +:+ b;
     path_exists := λ p w, bool_decide (is_Some (w !! p));
     read_text := λ p w, Ok p;
     pickle_load := λ p w,
       match w !! p with
       | Some m => Ok m
       | None => Raise (PythonException "FileNotFoundError")
       end;
     make_directory := λ p w, Ok w;
     pickle_dump := λ p m w,
       if writable then Ok (<[p := m]> w)
       else Raise (PythonException "OSError") |}.

Definition writable_system : SystemOps := sample_system true.

Definition read_only_system : SystemOps := sample_system false.

Definition project_a : Project :=
  {| project_project_name := "a"; project_project_root := "/a" |}.

Definition project_b : Project :=
  {| project_project_name := "b"; project_project_root := "/b" |}.

Definition sample_projects : list (string * Project) :=
  [("a", project_a); ("b", project_b)].

Definition sample_load_ops : LoadOps :=
  {| get_metadata := λ _, {| dbt_version := "0.19.1" |};
     load_dependencies := λ _, Ok sample_projects;
     set_query_header := λ _, Ok ();
     patch_sources := λ _, Ok;
     process_docs := λ _, Ok;
     _check_manifest := λ _ _, Ok () |}.

(** A process that has not loaded anything yet, on an empty file
    system. *)
Definition sample_world (writable : bool)
  : @World _ (sample_system writable) :=
  (∅ : gmap string Manifest).

Definition sample_process (writable : bool)
  : @Process _ (sample_system writable) :=
  {| world := sample_world writable; _macro_manifest_lazy := None;
     log_records := []; calls := [] |}.

Definition sample_config : RuntimeConfig :=
  {| project_name := "a"; target_path := "target"; partial_parse := None;
     args := {| args_vars := None; args_profile := None; args_target := None;
                profiles_dir := "~/.dbt" |} |}.

(** A loader of the sample projects, with and without an old manifest.  The
    old manifest has [macros/m.sql] of project [a], with the checksum of
    the file and the macro that was parsed from it. *)
Definition sample_state_check : ManifestStateCheck :=
  {| vars_hash := "vars"; profile_hash := "profile";
     project_hashes := {["a" := "hash of a"]} |}.

Definition sample_macro_path : FilePath :=
  {| searched_path := "macros"; relative_path := "m.sql";
     project_root := "/a" |}.

(** What the sample parsers load for [macros/m.sql] of project [a]. *)
Definition sample_macro_file : SourceFile :=
  {| path := sample_macro_path; checksum := "/a/macros/m.sql";
     file_nodes := []; file_exposures := []; file_macros := [] |}.

Definition sample_old_file : SourceFile :=
  {| path := sample_macro_path; checksum := "/a/macros/m.sql";
     file_nodes := []; file_exposures := [];
     file_macros := ["macro./a/macros/m.sql"] |}.

Definition sample_old_state_check : ManifestStateCheck :=
  {| vars_hash := "vars"; profile_hash := "profile";
     project_hashes := <["a" := "hash of a"]> {["gone" := "hash of gone"]} |}.

Definition sample_old_manifest : Manifest :=
  {| metadata := Some {| dbt_version := "0.19.1" |};
     state_check := Some sample_old_state_check;
     files := {["/a/macros/m.sql" := sample_old_file]};
     nodes := ∅; exposures := ∅;
     macros :=
       {["macro./a/macros/m.sql" :=
           {| macro_unique_id := "macro./a/macros/m.sql" |}]} |}.





Definition sample_loader (old : option Manifest) : ManifestLoader :=
  {| root_project := sample_config; all_projects := sample_projects;
     macro_hook := λ _, Ok ();
     manifest := set_state_check (Some sample_state_check)
                   (empty_manifest {| dbt_version := "0.19.1" |});
     old_manifest := old; _loaded_file_cache := ∅ |}.

Definition sample_run (old : option Manifest)
  : @Run _ (sample_system true) :=
  {| self := sample_loader old; process := sample_process true |}.

(** Nodes for the resolution passes: a test and a model of package [a], a
    disabled model, and the manifest that holds them. *)
Definition sample_node (id : UniqueId) (type : NodeType) (enabled : bool)
    (deps : list UniqueId) : ManifestNode :=
  {| unique_id := id; package_name := "a"; resource_type := type;
     config_enabled := enabled; refs := []; sources := [];
     depends_on_nodes := deps |}.

Definition sample_test : ManifestNode :=
  sample_node "test.a.t" Test true [].

Definition sample_model : ManifestNode :=
  sample_node "model.a.m" Model true [].

(** The test with a ref that does not resolve and one that does. *)
Definition sample_test_with_refs : ManifestNode :=
  {| unique_id := "test.a.t"; package_name := "a"; resource_type := Test;
     config_enabled := true; refs := [["missing"]; ["a"; "m"]];
     sources := []; depends_on_nodes := [] |}.

(** The test and the model with a ref to the model [off], which is
    disabled. *)
Definition sample_test_of_disabled : ManifestNode :=
  {| unique_id := "test.a.t"; package_name := "a"; resource_type := Test;
     config_enabled := true; refs := [["off"]]; sources := [];
     depends_on_nodes := [] |}.

Definition sample_model_of_disabled : ManifestNode :=
  {| unique_id := "model.a.m"; package_name := "a"; resource_type := Model;
     config_enabled := true; refs := [["off"]]; sources := [];
     depends_on_nodes := [] |}.

Definition sample_env : Env :=
  {| env_manifest :=
       set_nodes
         (<["test.a.t" := sample_test]>
            (<["model.a.m" := sample_model]>
               {["model.a.off" := sample_node "model.a.off" Model false []]}))
         (empty_manifest {| dbt_version := "0.19.1" |});
     logger := [] |}.

(** The sample manifest with [node] under its unique id. *)
Definition sample_env_of (node : ManifestNode) : Env :=
  {| env_manifest :=
       set_nodes (<[unique_id node := node]> (nodes (env_manifest sample_env)))
                 (env_manifest sample_env);
     logger := [] |}.

(** A graph given by the set of direct successors of each resource;
    the successors of a selection are those of its elements. *)
Definition adjacency_successors (g : gmap UniqueId (gset UniqueId))
    (selected : gset UniqueId) : gset UniqueId :=
  ⋃ ((λ node, default ∅ (g !! node)) <$> elements selected).

Definition sample_graph_ops : GraphOps :=
  {| Graph := gmap UniqueId (gset UniqueId);
     select_successors := adjacency_successors |}.

#[local] Existing Instance sample_graph_ops.

(** The scenario of the spec: [model_2] refers to [model_1], [model_3] to
    both, and [unique_model_1] checks [model_1]; besides, a test on
    [model_1] and [model_3], a test on the result of [unique_model_1], and
    an exposure of [model_1], which is no key of [manifest.nodes]. *)
Definition sample_selector : TestSelector.t :=
  {| TestSelector.graph :=
       (<["model_1" := {["model_2"; "model_3"; "unique_model_1";
                         "relationships_1_3"; "exposure_1"]}]>
       (<["model_2" := {["model_3"]}]>
       (<["model_3" := {["relationships_1_3"]}]>
          {["unique_model_1" := {["chained"]}]}))
        : gmap UniqueId (gset UniqueId));
     TestSelector.manifest :=
       set_nodes
         (<["model_1" := sample_node "model_1" Model true []]>
         (<["model_2" := sample_node "model_2" Model true ["model_1"]]>
         (<["model_3" :=
              sample_node "model_3" Model true ["model_1"; "model_2"]]>
         (<["unique_model_1" :=
              sample_node "unique_model_1" Test true ["model_1"]]>
         (<["relationships_1_3" :=
              sample_node "relationships_1_3" Test true
                          ["model_1"; "model_3"]]>
            {["chained" :=
                sample_node "chained" Test true ["unique_model_1"]]})))))
         (empty_manifest {| dbt_version := "0.19.1" |}) |}.

End sample.

(** More of the sample installation: the manifest that a load of the
    sample projects saves, and collaborators for [process_node], for the
    uniqueness check and for the runner of tests. *)

Section sample_more.
#[local] Existing Instances sample_hash writable_system.

(** The state check of the sample configuration and projects: the file
    system of the sample reads, for a path, the path. *)
Definition sample_built_state_check : ManifestStateCheck :=
  {| vars_hash :=
       String.concat (String Ascii.zero EmptyString) ["{}"; ""; ""; "0.19.1"];
     profile_hash := "~/.dbt/profiles.yml";
     project_hashes :=
       <["b" := "/b/dbt_project.yml"]> {["a" := "/a/dbt_project.yml"]} |}.

Definition sample_saved_manifest : Manifest :=
  set_state_check (Some sample_built_state_check)
                  (empty_manifest {| dbt_version := "0.19.1" |}).

(** A file system with that manifest under the target path. *)
Definition sample_saved_world : World :=
  ({["target/partial_parse.pickle" := sample_saved_manifest]}
   : gmap string Manifest).

Definition sample_docs_ops : DocsOps :=
  {| render_node_docs := λ _ _ _, Ok () |}.

(** The name of a node is its unique id, its relation the id under the
    name of the project. *)
Definition sample_relation_ops : RelationOps :=
  {| refable := [Model; Seed; Snapshot];
     node_name := unique_id;
     full_node_name := λ config node,
       project_name config +:+ "." +:+ unique_id node;
     raise_duplicate_resource_name := λ _ _,
       PythonException "CompilationException";
     raise_ambiguous_alias := λ _ _ _,
       PythonException "CompilationException" |}.

(** A runner whose data tests find three failing rows and whose schema
    tests find none, without [--warn-error]. *)
Definition sample_runner_ops : TestRunner.RunnerOps :=
  {| TestRunner.execute_data_test := λ _ _, Ok 3%Z;
     TestRunner.execute_schema_test := λ _, Ok 0%Z;
     TestRunner.flags_WARN_ERROR := false;
     TestRunner.current_thread_name := "Thread-1" |}.

Definition sample_data_test (severity : string)
  : TestRunner.CompiledTestNode :=
  {| TestRunner.test_class := TestRunner.CompiledDataTestNode;
     TestRunner.test_unique_id := "test.a.t";
     TestRunner.severity := severity |}.

(** An exposure of package [a] with a ref to the model [m]. *)
Definition sample_exposure : ParsedExposure :=
  {| exp_unique_id := "exposure.a.e"; exp_package_name := "a";
     exp_refs := [["m"]]; exp_sources := []; exp_depends_on_nodes := [] |}.

(** The test with a mention of a source, which the sample manifest does
    not resolve. *)
Definition sample_test_with_source : ManifestNode :=
  {| unique_id := "test.a.t"; package_name := "a"; resource_type := Test;
     config_enabled := true; refs := []; sources := [("raw", "t")];
     depends_on_nodes := [] |}.

End sample_more.


(** * Part II: properties *)

(** ** The state check of a saved manifest *)

Section state_check_properties.
Context `{FileHashOps} `{!SystemOps}.
Implicit Types (self : ManifestLoader) (saved : Manifest).
Implicit Types (new old : ManifestStateCheck).

(** The loop over [project_hashes.items()] keeps [valid] exactly when no
    key that both mappings have carries two different hashes. *)
Lemma project_hashes_loop (new_hashes old_hashes : gmap string FileHash)
    (valid : bool) :
  map_fold
    (λ key new_value valid,
       match old_hashes !! key with
       | Some old_value =>
           if FileHash_ne new_value old_value then false else valid
       | None => valid
       end) valid new_hashes = true ↔
  valid = true ∧
  ∀ k hn ho, new_hashes !! k = Some hn → old_hashes !! k = Some ho →
             FileHash_eq hn ho = true.
Proof.
  apply (map_fold_weak_ind (λ r m,
    r = true ↔ valid = true ∧
      ∀ k hn ho, m !! k = Some hn → old_hashes !! k = Some ho →
                 FileHash_eq hn ho = true)).
  - split; [intros ->; split; [done|]; intros k hn ho; by rewrite lookup_empty
           |by intros [-> _]].
  - intros k hn m r Hfresh IH.
    assert (Hins :
      (∀ k' h' ho, <[k:=hn]> m !! k' = Some h' → old_hashes !! k' = Some ho →
                   FileHash_eq h' ho = true) ↔
      (∀ ho, old_hashes !! k = Some ho → FileHash_eq hn ho = true) ∧
      (∀ k' h' ho, m !! k' = Some h' → old_hashes !! k' = Some ho →
                   FileHash_eq h' ho = true)).
    { split.
      - intros HP. split; [intros ho; apply HP, lookup_insert_eq|].
        intros k' h' ho Hk'. apply HP. rewrite lookup_insert_ne; [done|].
        intros ->. congruence.
      - intros [Hk Hm] k' h' ho. destruct (decide (k = k')) as [->|Hne].
        + rewrite lookup_insert_eq. intros [= <-]. apply Hk.
        + rewrite lookup_insert_ne by done. apply Hm. }
    rewrite Hins.
    unfold FileHash_ne.
    destruct (old_hashes !! k) as [ho|] eqn:Hold.
    + destruct (FileHash_eq hn ho) eqn:Heq; simpl.
      * rewrite IH. split.
        -- intros [-> Hm]. split; [done|]. split; [|done].
           by intros ? [= <-].
        -- intros [-> [_ Hm]]. done.
      * split; [done|]. intros [_ [Hk _]]. specialize (Hk ho eq_refl).
        congruence.
    + rewrite IH. split.
      * intros [-> Hm]. split; [done|]. split; [|done]. by intros ? [=].
      * intros [-> [_ Hm]]. done.
Qed.

(** C1: when the loader's manifest and the saved manifest both have a state
    check, the saved manifest is accepted exactly when its version tag can
    be read and is the running version, the vars hashes and the profile
    hashes are equal, every project of the current state check is a project
    of the saved one, and the projects that both have carry equal hashes.
    A project that only the saved state check has does not count: adding
    one changes nothing. *)
Theorem matching_parse_results_spec self saved new old :
  state_check (manifest self) = Some new →
  state_check saved = Some old →
  (matching_parse_results self saved = true ↔
     (∃ md, metadata saved = Some md ∧ dbt_version md = __version__) ∧
     FileHash_eq (vars_hash new) (vars_hash old) = true ∧
     FileHash_eq (profile_hash new) (profile_hash old) = true ∧
     (∀ k, k ∈ dom (project_hashes new) → k ∈ dom (project_hashes old)) ∧
     (∀ k hn ho, project_hashes new !! k = Some hn →
                 project_hashes old !! k = Some ho →
                 FileHash_eq hn ho = true)) ∧
  (∀ k h, project_hashes new !! k = None →
          matching_parse_results self (add_project_hash k h saved)
          = matching_parse_results self saved).
Proof.
  intros Hnew Hold.
  assert (Hiff : ∀ saved old, state_check saved = Some old →
    matching_parse_results self saved = true ↔
     (∃ md, metadata saved = Some md ∧ dbt_version md = __version__) ∧
     FileHash_eq (vars_hash new) (vars_hash old) = true ∧
     FileHash_eq (profile_hash new) (profile_hash old) = true ∧
     (∀ k, k ∈ dom (project_hashes new) → k ∈ dom (project_hashes old)) ∧
     (∀ k hn ho, project_hashes new !! k = Some hn →
                 project_hashes old !! k = Some ho →
                 FileHash_eq hn ho = true)).
  { clear saved old Hold. intros saved old Hold.
    unfold matching_parse_results. rewrite Hnew, Hold.
    destruct (metadata saved) as [md|]; [|split; [done|by intros [[? [? _]] _]]].
    destruct (decide (dbt_version md = __version__)) as [Hv|Hv].
    2:{ rewrite bool_decide_eq_true_2 by done.
        split; [done|]. intros [(md' & [= <-] & ?) _]. done. }
    rewrite bool_decide_eq_false_2 by (intros ?; done).
    rewrite project_hashes_loop. unfold FileHash_ne.
    destruct (FileHash_eq (vars_hash new) (vars_hash old)); simpl;
      [|split; [intros [Hf _]; by repeat case_match
               |by intros (_ & ? & _)]].
    destruct (FileHash_eq (profile_hash new) (profile_hash old)); simpl;
      [|split; [intros [Hf _]; by repeat case_match
               |by intros (_ & _ & ? & _)]].
    case_bool_decide as Hmissing.
    - split; [by intros [? _]|]. intros (_ & _ & _ & Hsub & _).
      destruct Hmissing. apply set_eq. intros k.
      rewrite elem_of_filter. split; [|by intros ?%not_elem_of_empty].
      intros [Hk1 Hk2]. destruct Hk1. by apply Hsub.
    - split.
      + intros [_ Hcommon]. split; [by exists md|].
        split; [done|]. split; [done|]. split; [|done].
        intros k Hk. destruct (decide (k ∈ dom (project_hashes old))); [done|].
        exfalso. apply (not_elem_of_empty (C:=gset string) k).
        rewrite <-Hmissing. by apply elem_of_filter.
      + intros (_ & _ & _ & _ & Hcommon). done. }
  split; [by apply Hiff|].
  intros k h Hk.
  assert (Hadd : state_check (add_project_hash k h saved)
                 = Some {| vars_hash := vars_hash old;
                           profile_hash := profile_hash old;
                           project_hashes := <[k := h]> (project_hashes old) |}).
  { unfold add_project_hash. by rewrite Hold. }
  assert (Hmd : metadata (add_project_hash k h saved) = metadata saved).
  { unfold add_project_hash. by rewrite Hold. }
  apply eq_true_iff_eq.
  rewrite (Hiff _ _ Hadd), (Hiff _ _ Hold), Hmd. simpl.
  assert (Hdom : ∀ k', k' ∈ dom (project_hashes new) →
                 (k' ∈ dom (<[k:=h]> (project_hashes old))
                  ↔ k' ∈ dom (project_hashes old))).
  { intros k' Hk'. rewrite dom_insert, elem_of_union, elem_of_singleton.
    split; [|tauto]. intros [->|?]; [|done].
    apply elem_of_dom in Hk' as [? ?]. congruence. }
  assert (Hlk : ∀ k' hn, project_hashes new !! k' = Some hn →
                <[k:=h]> (project_hashes old) !! k' = project_hashes old !! k').
  { intros k' hn Hk'. apply lookup_insert_ne. intros ->. congruence. }
  split; intros (Hv & Hvars & Hprof & Hsub & Hcommon);
    (split; [done|]; split; [done|]; split; [done|]; split).
  - intros k' Hk'. apply (Hdom k' Hk'), Hsub, Hk'.
  - intros k' hn ho Hn Ho. apply (Hcommon k' hn ho Hn).
    by rewrite (Hlk k' hn Hn).
  - intros k' Hk'. apply (Hdom k' Hk'), Hsub, Hk'.
  - intros k' hn ho Hn Ho. apply (Hcommon k' hn ho Hn).
    by rewrite (Hlk k' hn Hn) in Ho.
Qed.

End state_check_properties.

(** ** Parsing with the cache *)

Section loader_properties.
Context `{FileHashOps} `{!ManifestOps} `{!ParserOps} `{!SystemOps} `{!LoadOps}.
Implicit Types (run : Run) (parser : Parser) (block : FileBlock).
Implicit Types (old : Manifest) (old_file : SourceFile).



Lemma parse_with_cache_unfold fp parser run block run1 :
  _get_file fp parser run = Ok (block, run1) →
  parse_with_cache fp parser run
  = match _get_cached block parser run1 with
    | Ok (true, run2) => Ok ((), run2)
    | Ok (false, run2) => parsed_fresh parser block run2
    | Raise e => Raise e
    end.
Proof.
  intros Hget. unfold parse_with_cache, parsed_fresh.
  unfold mbind at 1. unfold M_bind at 1. rewrite Hget.
  unfold mbind at 1. unfold M_bind at 1.
  destruct (_get_cached block parser run1) as [[[] run2]|]; [done| |done].
  simpl. unfold_monad.
  by destruct (parse_file parser block (manifest (self run2))).
Qed.


End loader_properties.

(** ** The file cache *)

Section file_cache_properties.
Context `{FileHashOps} `{!ManifestOps} `{!ParserOps} `{!SystemOps} `{!LoadOps}.
Implicit Types (run : Run) (parser : Parser) (block : FileBlock).
Implicit Types (fp : FilePath).

Lemma _get_file_miss fp parser run :
  _loaded_file_cache (self run) !! search_key fp = None →
  _get_file fp parser run
  = match load_file parser fp with
    | Ok source_file =>
        Ok ({| file := source_file |}, file_loaded fp parser source_file run)
    | Raise e => Raise e
    end.
Proof.
  intros Hmiss. unfold _get_file. unfold_monad. rewrite Hmiss.
  by destruct (load_file parser fp).
Qed.

Lemma _get_file_hit fp parser run block :
  _loaded_file_cache (self run) !! search_key fp = Some block →
  _get_file fp parser run = Ok (block, run).
Proof. intros Hhit. unfold _get_file. unfold_monad. by rewrite Hhit. Qed.

(** When a search key is not in the cache, [_get_file] loads the file and
    caches its block; from then on, while the cache has the key, a call
    for a path with that search key, by whatever parser, returns that block
    and changes nothing: no call of [load_file] is made. *)
Lemma _get_file_memoizes fp parser run source_file :
  _loaded_file_cache (self run) !! search_key fp = None →
  load_file parser fp = Ok source_file →
  let block := {| file := source_file |} in
  let run1 := file_loaded fp parser source_file run in
  _get_file fp parser run = Ok (block, run1) ∧
  calls (process run1) = calls (process run) ++ [load_file_call parser fp] ∧
  _loaded_file_cache (self run1) !! search_key fp = Some block ∧
  ∀ fp' parser' run',
    search_key fp' = search_key fp →
    _loaded_file_cache (self run') !! search_key fp = Some block →
    _get_file fp' parser' run' = Ok (block, run').
Proof.
  intros Hmiss Hload. simpl. split; [|split; [|split]].
  - by rewrite _get_file_miss, Hload.
  - done.
  - apply lookup_insert_eq.
  - intros fp' parser' run' Hkey Hhit. apply _get_file_hit. by rewrite Hkey.
Qed.

(** [parse_project] empties the file cache before it parses anything. *)
Lemma parse_project_clears_cache project run :
  parse_project project run
  = for_each (project_parsers project run)
      (λ parser, for_each (search parser)
                   (λ fp, parse_with_cache fp parser))
      (set_self (set_loaded_file_cache ∅ (self run)) run).
Proof. reflexivity. Qed.

End file_cache_properties.

(** ** Reading and writing the saved manifest *)

Section saved_manifest_properties.
Context `{FileHashOps} `{!ManifestOps} `{!ParserOps} `{!SystemOps} `{!LoadOps}.
Implicit Types (self : ManifestLoader) (w : World) (run : Run).
Implicit Types (config : RuntimeConfig) (p : Process).

(** C8: [read_saved_manifest] never raises.  It returns [None] when the
    file does not exist, when opening or unpickling it raises, whatever the
    exception, and when the manifest read is rejected by
    [matching_parse_results]; a manifest that it returns was read from the
    file and accepted. *)
Theorem read_saved_manifest_never_raises self w :
  let saved_path :=
    path_join (target_path (root_project self)) PARTIAL_PARSE_FILE_NAME in
  (∃ r, read_saved_manifest self w = Ok r) ∧
  (path_exists saved_path w = false → read_saved_manifest self w = Ok None) ∧
  (∀ exc, pickle_load saved_path w = Raise exc →
          read_saved_manifest self w = Ok None) ∧
  (∀ m, pickle_load saved_path w = Ok m →
        matching_parse_results self m = false →
        read_saved_manifest self w = Ok None) ∧
  (∀ m, read_saved_manifest self w = Ok (Some m) →
        pickle_load saved_path w = Ok m ∧
        matching_parse_results self m = true).
Proof.
  intros saved_path. unfold read_saved_manifest. fold saved_path.
  unfold try_except, mbind, result_bind.
  destruct (_partial_parse_enabled self); simpl;
    [|repeat split; eauto; done].
  destruct (path_exists saved_path w); [|repeat split; eauto; done].
  destruct (pickle_load saved_path w) as [m|exc];
    [|repeat split; eauto; done].
  destruct (matching_parse_results self m) eqn:Hmatch.
  - split; [eauto|]. split; [done|]. split; [done|]. split.
    + intros m' [= <-]. congruence.
    + by intros m' [= <-].
  - split; [eauto|]. split; [done|]. split; [done|]. split; done.
Qed.

(** Nothing in a load assigns to [self.root_project]. *)
Lemma keeps_root_project_ret {A} (a : A) : keeps_root_project (mret a).
Proof. by intros run a' run' [= _ <-]. Qed.

Lemma keeps_root_project_bind {A B} (c : M Run A) (f : A → M Run B) :
  keeps_root_project c → (∀ a, keeps_root_project (f a)) →
  keeps_root_project (c ≫= f).
Proof.
  intros Hc Hf run b run'. unfold mbind, M_bind.
  destruct (c run) as [[a run1]|] eqn:E; [|done].
  intros Hrun'. rewrite (Hf _ _ _ _ Hrun'). by apply (Hc _ a).
Qed.

Lemma keeps_root_project_for_each {A} (l : list A) (body : A → M Run unit) :
  (∀ x, keeps_root_project (body x)) → keeps_root_project (for_each l body).
Proof.
  intros Hbody. induction l as [|x l IH]; simpl.
  - apply keeps_root_project_ret.
  - apply keeps_root_project_bind; [apply Hbody|done].
Qed.

Lemma keeps_root_project_get : keeps_root_project get.
Proof. by intros run a run' [= _ <-]. Qed.

Lemma keeps_root_project_lift {A} (r : result A) :
  keeps_root_project (lift r).
Proof. intros run a run'. unfold lift. destruct r; by intros [= _ <-]. Qed.

Lemma keeps_root_project_modify (f : Run → Run) :
  (∀ run, root_project (self (f run)) = root_project (self run)) →
  keeps_root_project (modify f).
Proof. intros Hf run a run' [= _ <-]. apply Hf. Qed.

Lemma keeps_root_project_call {A} (c : Call) (r : result A) :
  keeps_root_project (call c r).
Proof.
  intros run a run'. unfold call. unfold_monad.
  destruct r; by intros [= _ <-].
Qed.

Lemma keeps_root_project_on_self_manifest {A} (c : M Manifest A) :
  keeps_root_project (on_self_manifest c).
Proof.
  intros run a run'. unfold on_self_manifest, zoom.
  destruct (c _) as [[a' m]|]; by intros [= _ <-].
Qed.

Lemma keeps_root_project_parse_with_cache fp parser :
  keeps_root_project (parse_with_cache fp parser).
Proof.
  apply keeps_root_project_bind.
  - apply keeps_root_project_bind; [apply keeps_root_project_get|].
    intros run. destruct (_ !! _).
    + apply keeps_root_project_ret.
    + apply keeps_root_project_bind; [apply keeps_root_project_call|].
      intros source_file. apply keeps_root_project_bind.
      * by apply keeps_root_project_modify.
      * intros _. apply keeps_root_project_ret.
  - intros block. apply keeps_root_project_bind.
    + apply keeps_root_project_bind; [apply keeps_root_project_get|].
      intros run. destruct (old_manifest _); [|apply keeps_root_project_ret].
      destruct (has_file _ _); [|apply keeps_root_project_ret].
      apply keeps_root_project_on_self_manifest.
    + intros cached. destruct (negb cached); [|apply keeps_root_project_ret].
      apply keeps_root_project_bind; [apply keeps_root_project_get|].
      intros run. apply keeps_root_project_bind;
        [apply keeps_root_project_call|].
      intros m. by apply keeps_root_project_modify.
Qed.

Lemma keeps_root_project_load : keeps_root_project load.
Proof.
  apply keeps_root_project_bind; [apply keeps_root_project_get|].
  intros run. apply keeps_root_project_bind.
  { destruct (old_manifest _); [|apply keeps_root_project_ret].
    by apply keeps_root_project_modify. }
  intros _. apply keeps_root_project_for_each. intros project.
  apply keeps_root_project_bind; [apply keeps_root_project_get|].
  intros run1. apply keeps_root_project_bind.
  - by apply keeps_root_project_modify.
  - intros _. apply keeps_root_project_for_each. intros parser.
    apply keeps_root_project_for_each. intros fp.
    apply keeps_root_project_parse_with_cache.
Qed.

Lemma keeps_root_project_load_macros_from_adapter :
  keeps_root_project load_macros_from_adapter.
Proof.
  apply keeps_root_project_bind; [apply keeps_root_project_get|].
  intros run. destruct (_macro_manifest_lazy _).
  - apply keeps_root_project_bind; [by apply keeps_root_project_modify|].
    intros _. apply keeps_root_project_lift.
  - apply keeps_root_project_bind.
    + apply keeps_root_project_bind; [apply keeps_root_project_get|].
      intros run1. apply keeps_root_project_bind.
      * apply keeps_root_project_for_each. intros project.
        apply keeps_root_project_for_each. intros fp.
        apply keeps_root_project_parse_with_cache.
      * intros _. apply keeps_root_project_bind;
          [apply keeps_root_project_get|].
        intros run2. apply keeps_root_project_ret.
    + intros macro_manifest. apply keeps_root_project_bind;
        [by apply keeps_root_project_modify|].
      intros _. apply keeps_root_project_lift.
Qed.

(** The loader of a load is the loader of the configuration. *)
Lemma run_of_load_root_project config reset p run :
  run_of_load config reset p = Ok run → root_project (self run) = config.
Proof.
  unfold run_of_load. unfold mbind at 1 2. unfold result_bind.
  destruct (load_dependencies config) as [projects|]; [|done].
  destruct (__init__ _ _ _ _) as [loader|] eqn:Hinit; [|done].
  destruct ((load_macros_from_adapter;; load) _) as [[[] run']|] eqn:Hrun;
    [|done].
  intros [= ->].
  apply (keeps_root_project_bind _ _
           keeps_root_project_load_macros_from_adapter
           (λ _, keeps_root_project_load)) in Hrun.
  rewrite Hrun. simpl. clear Hrun.
  unfold __init__ in Hinit. unfold mbind, result_bind, mret, result_ret in Hinit.
  destruct (build_manifest_state_check _ _ _); [|done].
  destruct (read_saved_manifest _ _); [|done].
  by injection Hinit as <-.
Qed.

Lemma get_full_manifest_unfold config reset p run :
  run_of_load config reset p = Ok run →
  get_full_manifest config reset p
  = match write_manifest_for_partial_parse run with
    | Ok (_, run') =>
        match after_write config run' with
        | Ok (m, run'') => Ok (m, process run'')
        | Raise e => Raise e
        end
    | Raise e => Raise e
    end.
Proof.
  unfold run_of_load, get_full_manifest, after_write.
  unfold zoom, mbind, M_bind, result_bind, lift, get.
  assert (Hreset :
    (if reset then modify (set_macro_manifest_lazy None) else mret ()) p
    = Ok ((), if reset then set_macro_manifest_lazy None p else p))
    by by destruct reset.
  rewrite Hreset. clear Hreset.
  set (p' := if reset then set_macro_manifest_lazy None p else p).
  destruct (load_dependencies config) as [projects|]; [|done].
  destruct (__init__ config projects (Some set_query_header) (world p'))
    as [loader|]; [|done].
  destruct (load_macros_from_adapter {| self := loader; process := p' |})
    as [[[] run1]|]; [|done].
  destruct (load run1) as [[[] run2]|]; [|done].
  intros [= ->].
  destruct (write_manifest_for_partial_parse run) as [[[] run3]|]; [|done].
  destruct (update_manifest run3) as [[m run4]|]; [|done].
  destruct (_check_manifest m config); [|done].
  destruct (on_self_manifest (update build_flat_graph) run4)
    as [[[] run5]|]; done.
Qed.

(** C6, as the code has it: once [load] has returned,
    [get_full_manifest] pickles the loader's manifest as it then is into
    [partial_parse.pickle] under the target path of the configuration,
    whether or not partial parsing is enabled; when making the directory
    or writing the file raises, [get_full_manifest] raises that exception
    and returns no manifest; when both succeed it goes on with the file
    system that results. *)
Theorem get_full_manifest_persists config reset p run :
  run_of_load config reset p = Ok run →
  let target := target_path config in
  let saved_path := path_join target PARTIAL_PARSE_FILE_NAME in
  (∀ exc, make_directory target (world (process run)) = Raise exc →
          get_full_manifest config reset p = Raise exc) ∧
  (∀ w exc, make_directory target (world (process run)) = Ok w →
            pickle_dump saved_path (manifest (self run)) w = Raise exc →
            get_full_manifest config reset p = Raise exc) ∧
  (∀ w w', make_directory target (world (process run)) = Ok w →
           pickle_dump saved_path (manifest (self run)) w = Ok w' →
           get_full_manifest config reset p
           = match after_write config
                     (set_process (set_world w' (process run)) run) with
             | Ok (m, run') => Ok (m, process run')
             | Raise e => Raise e
             end).
Proof.
  intros Hload target saved_path.
  rewrite (get_full_manifest_unfold _ _ _ _ Hload).
  unfold write_manifest_for_partial_parse. subst target saved_path.
  rewrite <-(run_of_load_root_project _ _ _ _ Hload).
  unfold_monad. simpl.
  split; [|split].
  - by intros exc ->.
  - intros w exc -> Hdump. simpl. by rewrite Hdump.
  - intros w w' -> Hdump. simpl. by rewrite Hdump.
Qed.

End saved_manifest_properties.

(** ** Reference resolution *)

Section resolution_properties.
Context `{FileHashOps} `{!ManifestOps}.
Implicit Types (node : ManifestNode) (exposure : ParsedExposure) (env : Env).
Implicit Types (ref : list string) (current_project : string).

Lemma node_assigned_lookup node env :
  is_Some (nodes (env_manifest env) !! unique_id node) →
  nodes (env_manifest (node_assigned node env)) !! unique_id node = Some node.
Proof.
  intros Hin. unfold node_assigned. rewrite decide_True by done.
  simpl. apply lookup_insert_eq.
Qed.

Lemma unresolved_isinstance_Disabled {A} (target : MaybeResolved A) disabled :
  unresolved target = Some disabled → isinstance_Disabled target = disabled.
Proof. destruct target; simpl; congruence. Qed.

(** The four loop bodies on a mention that does not resolve. *)
Lemma process_ref_for_node_unresolved current_project env node ref pkg name
    disabled :
  ref_arguments ref = Ok (pkg, name) →
  unresolved (resolve_ref (env_manifest env) name pkg current_project
                          (package_name node)) = Some disabled →
  process_ref_for_node current_project node ref env
  = match invalid_ref_fail_unless_test
            (NodeResource (set_enabled false node)) name pkg disabled
            (node_assigned (set_enabled false node) env) with
    | Ok (_, env') => Ok (set_enabled false node, env')
    | Raise e => Raise e
    end.
Proof.
  intros Href Hun.
  pose proof (unresolved_isinstance_Disabled _ _ Hun) as Hdis.
  unfold process_ref_for_node. unfold mbind at 1. unfold M_bind at 1.
  unfold lift at 1. rewrite Href. unfold mbind at 1. unfold M_bind at 1.
  unfold get at 1.
  destruct (resolve_ref _ _ _ _ _) as [target|target|];
    [by simpl in Hun| |]; by rewrite Hdis.
Qed.

Lemma process_source_for_node_unresolved current_project env node
    source_name table_name disabled :
  unresolved (resolve_source (env_manifest env) source_name table_name
                             current_project (package_name node))
  = Some disabled →
  process_source_for_node current_project node (source_name, table_name) env
  = match invalid_source_fail_unless_test
            (NodeResource (set_enabled false node)) source_name table_name
            disabled (node_assigned (set_enabled false node) env) with
    | Ok (_, env') => Ok (set_enabled false node, env')
    | Raise e => Raise e
    end.
Proof.
  intros Hun.
  pose proof (unresolved_isinstance_Disabled _ _ Hun) as Hdis.
  unfold process_source_for_node. unfold mbind at 1. unfold M_bind at 1.
  unfold get at 1.
  destruct (resolve_source _ _ _ _ _) as [target|target|];
    [by simpl in Hun| |]; by rewrite Hdis.
Qed.

Lemma process_ref_for_exposure_unresolved current_project env exposure ref
    pkg name disabled :
  ref_arguments ref = Ok (pkg, name) →
  unresolved (resolve_ref (env_manifest env) name pkg current_project
                          (exp_package_name exposure)) = Some disabled →
  process_ref_for_exposure current_project exposure ref env
  = match invalid_ref_fail_unless_test
            (ExposureResource exposure) name pkg disabled env with
    | Ok (_, env') => Ok (exposure, env')
    | Raise e => Raise e
    end.
Proof.
  intros Href Hun.
  pose proof (unresolved_isinstance_Disabled _ _ Hun) as Hdis.
  unfold process_ref_for_exposure. unfold mbind at 1. unfold M_bind at 1.
  unfold lift at 1. rewrite Href. unfold mbind at 1. unfold M_bind at 1.
  unfold get at 1.
  destruct (resolve_ref _ _ _ _ _) as [target|target|];
    [by simpl in Hun| |]; by rewrite Hdis.
Qed.

Lemma process_source_for_exposure_unresolved current_project env exposure
    source_name table_name disabled :
  unresolved (resolve_source (env_manifest env) source_name table_name
                             current_project (exp_package_name exposure))
  = Some disabled →
  process_source_for_exposure current_project exposure
                              (source_name, table_name) env
  = match invalid_source_fail_unless_test
            (ExposureResource exposure) source_name table_name disabled env
    with
    | Ok (_, env') => Ok (exposure, env')
    | Raise e => Raise e
    end.
Proof.
  intros Hun.
  pose proof (unresolved_isinstance_Disabled _ _ Hun) as Hdis.
  unfold process_source_for_exposure. unfold mbind at 1. unfold M_bind at 1.
  unfold get at 1.
  destruct (resolve_source _ _ _ _ _) as [target|target|];
    [by simpl in Hun| |]; by rewrite Hdis.
Qed.

(** A loop over [l1 ++ l2] is the loop over [l1] followed, when it does not
    raise, by the loop over [l2]. *)
Lemma for_each_on_app {σ A B} (l1 l2 : list A) (body : B → A → M σ B)
    (b : B) (s : σ) :
  for_each_on (l1 ++ l2) body b s
  = match for_each_on l1 body b s with
    | Ok (b', s') => for_each_on l2 body b' s'
    | Raise e => Raise e
    end.
Proof.
  revert b s. induction l1 as [|x l1 IH]; intros b s; simpl; [done|].
  unfold mbind, M_bind. destruct (body b x s) as [[b' s']|]; [|done].
  apply IH.
Qed.

Lemma ref_arguments_malformed ref :
  length ref ≠ 1 → length ref ≠ 2 →
  ref_arguments ref
  = Raise (InternalException
             ("Refs should always be 1 or 2 arguments - got "
              +:+ pretty (length ref))).
Proof. intros H1 H2. by destruct ref as [|? [|? [|? ?]]]. Qed.

(** C9: a ref with a number of arguments other than 1 and 2 makes the
    body of the loop raise [InternalException], on a node of any resource
    type and on an exposure, before anything is resolved; so the pass over
    the refs of a node or of an exposure raises it as soon as it reaches
    such a ref.  [InternalException] is not the compilation error of an
    unresolved reference. *)
Theorem malformed_ref_raises_internal_exception current_project ref :
  length ref ≠ 1 → length ref ≠ 2 →
  let exc :=
    InternalException
      ("Refs should always be 1 or 2 arguments - got "
       +:+ pretty (length ref)) in
  (∀ node env, process_ref_for_node current_project node ref env = Raise exc) ∧
  (∀ exposure env,
     process_ref_for_exposure current_project exposure ref env = Raise exc) ∧
  (∀ node env before after,
     refs node = before ++ ref :: after →
     _process_refs_for_node current_project node env
     = match for_each_on before (process_ref_for_node current_project)
                         node env with
       | Ok _ => Raise exc
       | Raise e => Raise e
       end) ∧
  (∀ exposure env before after,
     exp_refs exposure = before ++ ref :: after →
     _process_refs_for_exposure current_project exposure env
     = match for_each_on before (process_ref_for_exposure current_project)
                         exposure env with
       | Ok _ => Raise exc
       | Raise e => Raise e
       end) ∧
  (∀ msg, exc ≠ CompilationException msg).
Proof.
  intros H1 H2 exc.
  assert (Hnode : ∀ node env,
    process_ref_for_node current_project node ref env = Raise exc).
  { intros node env. unfold process_ref_for_node.
    unfold mbind at 1. unfold M_bind at 1. unfold lift at 1.
    by rewrite ref_arguments_malformed. }
  assert (Hexp : ∀ exposure env,
    process_ref_for_exposure current_project exposure ref env = Raise exc).
  { intros exposure env. unfold process_ref_for_exposure.
    unfold mbind at 1. unfold M_bind at 1. unfold lift at 1.
    by rewrite ref_arguments_malformed. }
  split; [done|]. split; [done|]. split; [|split; [|done]].
  - intros node env before after Hrefs.
    unfold _process_refs_for_node. rewrite Hrefs, for_each_on_app.
    destruct (for_each_on before _ node env) as [[node' env']|]; [|done].
    simpl. unfold mbind, M_bind. by rewrite Hnode.
  - intros exposure env before after Hrefs.
    unfold _process_refs_for_exposure. rewrite Hrefs, for_each_on_app.
    destruct (for_each_on before _ exposure env) as [[exposure' env']|];
      [|done].
    simpl. unfold mbind, M_bind. by rewrite Hexp.
Qed.

End resolution_properties.

(** ** Test selection *)

Section selection_properties.
Context `{FileHashOps} `{GraphOps}.
Import TestSelector.
Implicit Types (self : TestSelector.t).
Implicit Types (S W : gset UniqueId) (x c : UniqueId).

Lemma elem_of_foldr_add_if_test self (l : list UniqueId) x :
  x ∈ foldr (add_if_test self) ∅ l ↔ x ∈ l ∧ is_test_node self x.
Proof.
  induction l as [|y l IH]; simpl.
  - rewrite elem_of_nil. split; [by intros ?%not_elem_of_empty|tauto].
  - unfold is_test_node in *. unfold add_if_test at 1.
    destruct (nodes (manifest self) !! y) as [node|] eqn:E.
    + destruct (decide (resource_type node = Test)) as [Ht|Ht].
      * rewrite elem_of_union, elem_of_singleton, IH, elem_of_cons.
        split; [|tauto]. intros [->|[? ?]]; [|tauto]. eauto.
      * rewrite IH, elem_of_cons. split; [tauto|].
        intros [[->|?] (node' & E' & Ht')]; [congruence|eauto].
    + rewrite IH, elem_of_cons. split; [tauto|].
      intros [[->|?] (node' & E' & Ht')]; [congruence|eauto].
Qed.

Lemma elem_of_selected_tests self S greedy x :
  x ∈ (expand_selection self S greedy).2 ↔
  x ∈ select_successors (graph self) S ∧ is_test_node self x.
Proof.
  unfold expand_selection, set_fold; simpl.
  by rewrite elem_of_foldr_add_if_test, elem_of_elements.
Qed.

(** C4: without [greedy] the first component of the result is the
    selection itself; with [greedy] it is the selection joined with the
    second component.  The second component is the same for both values of
    [greedy], and holds exactly the successors of the selection, as
    [graph.select_successors] gives them, that are keys of
    [manifest.nodes] with a node of resource type [Test]. *)
Theorem expand_selection_spec self S :
  let T := (expand_selection self S false).2 in
  (expand_selection self S false).1 = S ∧
  (expand_selection self S true).1 = S ∪ T ∧
  (expand_selection self S true).2 = T ∧
  ∀ x, x ∈ T ↔ x ∈ select_successors (graph self) S ∧ is_test_node self x.
Proof.
  simpl. split; [done|]. split; [done|]. split; [done|].
  intros x. apply (elem_of_selected_tests self S false).
Qed.

Lemma elem_of_incorporate self W c x :
  x ∈ incorporate self W c ↔
  x ∈ W ∨ (x = c ∧ dependencies_selected self W c).
Proof.
  unfold incorporate, dependencies_selected.
  destruct (nodes (manifest self) !! c) as [node|] eqn:E.
  - destruct (decide (list_to_set (depends_on_nodes node) ⊆ W)) as [Hs|Hs].
    + rewrite elem_of_union, elem_of_singleton. split; [|tauto].
      intros [->|?]; [|tauto]. right. split; [done|].
      exists node. split; [done|]. intros d Hd.
      apply Hs. by apply elem_of_list_to_set.
    + split; [tauto|]. intros [?|[-> (node' & [= <-] & Hdeps)]]; [done|].
      destruct Hs. intros d Hd%elem_of_list_to_set. by apply Hdeps.
  - split; [tauto|]. by intros [?|[_ (? & ? & _)]].
Qed.

Lemma incorporate_greedy_nodes_app self S (l1 l2 : list UniqueId) :
  incorporate_greedy_nodes self S (l1 ++ l2)
  = incorporate_greedy_nodes self (incorporate_greedy_nodes self S l1) l2.
Proof. apply foldl_app. Qed.

Lemma incorporate_greedy_nodes_mono self S (l : list UniqueId) :
  S ⊆ incorporate_greedy_nodes self S l.
Proof.
  revert S. induction l as [|y l IH]; intros S; simpl; [done|].
  etrans; [|apply IH]. intros x Hx. apply elem_of_incorporate. by left.
Qed.

Lemma incorporate_greedy_nodes_bound self S (l : list UniqueId) x :
  x ∈ incorporate_greedy_nodes self S l →
  x ∈ S ∨ (x ∈ l ∧ is_Some (nodes (manifest self) !! x)).
Proof.
  revert S. induction l as [|y l IH]; intros S; simpl; [by left|].
  intros [Hx|[Hx Hn]]%IH.
  - apply elem_of_incorporate in Hx as [?|[-> (node & E & _)]]; [by left|].
    right. split; [by left|by exists node].
  - right. split; [by right|done].
Qed.

(** C5: let the loop visit the candidates in the order [before ++ c ::
    after], and let [W] be the working selection when it looks at [c], that
    is, the selection with what the iterations over [before] have added.
    The result contains the selection, and nothing but the selection and
    candidates.  The candidate [c] is in the result exactly when it was
    selected to begin with or it is a key of [manifest.nodes] and all the
    dependencies of its node are in [W]: dependencies that a later
    candidate supplies are not waited for, and a candidate that the loop
    adds has all its dependencies in the selection. *)
Theorem incorporate_greedy_nodes_spec self S (before after : list UniqueId) c :
  NoDup (before ++ c :: after) →
  let W := incorporate_greedy_nodes self S before in
  let R := incorporate_greedy_nodes self S (before ++ c :: after) in
  S ⊆ W ∧ W ⊆ R ∧
  (∀ x, x ∈ R → x ∈ S ∨ x ∈ before ++ c :: after) ∧
  (c ∈ R ↔ c ∈ S ∨ dependencies_selected self W c) ∧
  (c ∉ S → ¬ dependencies_selected self W c → c ∉ R) ∧
  (c ∈ R → c ∉ S →
   ∀ node, nodes (manifest self) !! c = Some node →
           ∀ d, d ∈ depends_on_nodes node → d ∈ W ∧ d ∈ R).
Proof.
  intros Hnodup W R.
  apply NoDup_app in Hnodup as (_ & Hbefore & [Hafter _]%NoDup_cons).
  assert (HR : R = incorporate_greedy_nodes self (incorporate self W c) after)
    by (unfold R; by rewrite incorporate_greedy_nodes_app).
  assert (HSW : S ⊆ W) by apply incorporate_greedy_nodes_mono.
  assert (HWR : W ⊆ R).
  { rewrite HR. etrans; [|apply incorporate_greedy_nodes_mono].
    intros x Hx. apply elem_of_incorporate. by left. }
  assert (Hc : c ∈ R ↔ c ∈ S ∨ dependencies_selected self W c).
  { split.
    - rewrite HR. intros [Hx|[Hx _]]%incorporate_greedy_nodes_bound; [|done].
      apply elem_of_incorporate in Hx as [Hx|[_ ?]]; [|by right].
      apply incorporate_greedy_nodes_bound in Hx as [?|[Hx _]]; [by left|].
      destruct (Hbefore c Hx). by left.
    - intros [Hx|Hdeps]; [by apply HWR, HSW|].
      rewrite HR. apply incorporate_greedy_nodes_mono.
      apply elem_of_incorporate. by right. }
  split; [done|]. split; [done|]. split; [|split; [done|split]].
  - intros x [?|[? _]]%incorporate_greedy_nodes_bound; [by left|by right].
  - intros HnS Hndeps [?|?]%Hc; done.
  - intros [?|(node' & E & Hdeps)]%Hc HnS node Hnode d Hd; [done|].
    assert (node' = node) as -> by congruence.
    split; [|apply HWR]; by apply Hdeps.
Qed.

(** C10: an id that is not a key of [manifest.nodes] is never in the
    candidate set of [expand_selection] and is never added to a selection,
    by [expand_selection] or by [incorporate_greedy_nodes]: what these
    return beyond the selection they were given are keys of
    [manifest.nodes], with a node of resource type [Test] in the case of
    [expand_selection]. *)
Theorem ids_outside_manifest_are_skipped self S greedy (G : list UniqueId) :
  (∀ x, x ∈ (expand_selection self S greedy).2 → is_test_node self x) ∧
  (∀ x, x ∈ (expand_selection self S greedy).1 →
        x ∈ S ∨ is_test_node self x) ∧
  S ⊆ (expand_selection self S greedy).1 ∧
  (∀ x, x ∈ incorporate_greedy_nodes self S G →
        x ∈ S ∨ (x ∈ G ∧ is_Some (nodes (manifest self) !! x))) ∧
  S ⊆ incorporate_greedy_nodes self S G ∧
  (∀ x, nodes (manifest self) !! x = None →
        (x ∉ (expand_selection self S greedy).2) ∧
        (x ∈ (expand_selection self S greedy).1 ↔ x ∈ S) ∧
        (x ∈ incorporate_greedy_nodes self S G ↔ x ∈ S)).
Proof.
  assert (H1 : ∀ x, x ∈ (expand_selection self S greedy).2 →
                    is_test_node self x).
  { by intros x [_ ?]%elem_of_selected_tests. }
  assert (H2 : ∀ x, x ∈ (expand_selection self S greedy).1 →
                    x ∈ S ∨ is_test_node self x).
  { intros x. destruct greedy; simpl; [|by left].
    intros [?|Hx]%elem_of_union; [by left|right].
    by apply (H1 x). }
  assert (H3 : S ⊆ (expand_selection self S greedy).1).
  { destruct greedy; simpl; [|done]. apply union_subseteq_l. }
  split; [done|]. split; [done|]. split; [done|].
  split; [apply incorporate_greedy_nodes_bound|].
  split; [apply incorporate_greedy_nodes_mono|].
  intros x Hx. split; [|split].
  - intros (node & ? & _)%H1. congruence.
  - split; [|apply H3]. intros [?|(node & ? & _)]%H2; [done|congruence].
  - split; [|apply incorporate_greedy_nodes_mono].
    intros [?|[_ [node ?]]]%incorporate_greedy_nodes_bound; [done|congruence].
Qed.

End selection_properties.

(** ** The construction of a loader *)

Section state_check_construction.
Context `{FileHashOps} `{!ManifestOps} `{!ParserOps} `{!SystemOps} `{!LoadOps}.
Implicit Types (config : RuntimeConfig) (w : World).
Implicit Types (all_projects : list (string * Project)).

Lemma build_manifest_state_check_unfold config all_projects w :
  build_manifest_state_check config all_projects w
  = (profile ←
       read_text (path_join (profiles_dir (args config)) "profiles.yml") w;
     project_hashes ← foldl (hash_project w) (Ok ∅) all_projects;
     mret {| vars_hash :=
               from_contents
                 (String.concat (String Ascii.zero EmptyString)
                    [getattr_or (args_vars (args config)) "{}";
                     getattr_or (args_profile (args config)) "";
                     getattr_or (args_target (args config)) "";
                     __version__]);
             profile_hash := from_contents profile;
             project_hashes := project_hashes |}).
Proof. reflexivity. Qed.

Lemma hash_project_ok w acc name project :
  hash_project w (Ok acc) (name, project)
  = match read_text (project_file project) w with
    | Ok contents => Ok (<[name := from_contents contents]> acc)
    | Raise e => Raise e
    end.
Proof. reflexivity. Qed.

Lemma hash_project_raise all_projects w e :
  foldl (hash_project w) (Raise e) all_projects = Raise e.
Proof. induction all_projects as [|[name project] l IH]; simpl; done. Qed.

Lemma hash_project_foldl_ok all_projects w acc hashes :
  foldl (hash_project w) (Ok acc) all_projects = Ok hashes →
  Forall (λ '(name, project), ∃ contents,
            read_text (project_file project) w = Ok contents) all_projects ∧
  (∀ k, k ∈ dom hashes ↔ k ∈ dom acc ∨ k ∈ all_projects.*1) ∧
  (∀ k, k ∉ all_projects.*1 → hashes !! k = acc !! k) ∧
  (NoDup all_projects.*1 →
   ∀ name project, (name, project) ∈ all_projects →
     ∃ contents, read_text (project_file project) w = Ok contents ∧
                 hashes !! name = Some (from_contents contents)).
Proof.
  revert acc. induction all_projects as [|[name project] l IH]; intros acc.
  - intros [= <-]. split; [constructor|]. split.
    { intros k. rewrite elem_of_nil. tauto. }
    split; [done|]. intros _ ? ? []%elem_of_nil.
  - cbn [foldl]. rewrite hash_project_ok.
    destruct (read_text _ w) as [contents|e] eqn:Hread.
    2:{ by rewrite hash_project_raise. }
    intros (Hall & Hdom & Hout & Hin)%IH.
    split; [constructor; [by exists contents|done]|].
    split.
    { intros k. rewrite Hdom, dom_insert, elem_of_union, elem_of_singleton.
      rewrite fmap_cons, elem_of_cons. simpl. tauto. }
    split.
    { intros k [Hk1 Hk2]%not_elem_of_cons. rewrite Hout by done.
      by apply lookup_insert_ne. }
    rewrite fmap_cons. simpl.
    intros [Hname Hnodup]%NoDup_cons name' project' [[= -> ->]|Hl]%elem_of_cons.
    + exists contents. split; [done|].
      rewrite Hout by done. apply lookup_insert_eq.
    + by apply Hin.
Qed.

Lemma hash_project_foldl_total all_projects w acc :
  Forall (λ '(name, project), ∃ contents,
            read_text (project_file project) w = Ok contents) all_projects →
  ∃ hashes, foldl (hash_project w) (Ok acc) all_projects = Ok hashes.
Proof.
  revert acc. induction all_projects as [|[name project] l IH]; intros acc.
  - by eexists.
  - intros [[contents Hread] Hl]%Forall_cons.
    cbn [foldl]. rewrite hash_project_ok, Hread. by apply IH.
Qed.

(** X1: [build_manifest_state_check] returns a state check exactly when
    [profiles.yml] and the [dbt_project.yml] of every project can be read.
    When the profile cannot be read it raises the exception of that read,
    and otherwise the exception of the first project file that cannot be
    read.  The state check that it returns has the hash of the arguments
    ([vars], [profile] and [target], an absent or empty one by its
    default, and the version), the hash of the contents of the profile,
    and a project hash for exactly the names of the projects: for each
    name, the hash of the contents of that project's file. *)
Theorem build_manifest_state_check_spec config all_projects w :
  let profile_path := path_join (profiles_dir (args config)) "profiles.yml" in
  ((∃ state_check,
      build_manifest_state_check config all_projects w = Ok state_check) ↔
   (∃ profile, read_text profile_path w = Ok profile) ∧
   Forall (λ '(name, project), ∃ contents,
             read_text (project_file project) w = Ok contents) all_projects) ∧
  (∀ e, read_text profile_path w = Raise e →
        build_manifest_state_check config all_projects w = Raise e) ∧
  (∀ profile before name project after e,
     read_text profile_path w = Ok profile →
     all_projects = before ++ (name, project) :: after →
     Forall (λ '(name, project), ∃ contents,
               read_text (project_file project) w = Ok contents) before →
     read_text (project_file project) w = Raise e →
     build_manifest_state_check config all_projects w = Raise e) ∧
  (∀ state_check,
     build_manifest_state_check config all_projects w = Ok state_check →
     vars_hash state_check
     = from_contents
         (String.concat (String Ascii.zero EmptyString)
            [getattr_or (args_vars (args config)) "{}";
             getattr_or (args_profile (args config)) "";
             getattr_or (args_target (args config)) "";
             __version__]) ∧
     (∃ profile, read_text profile_path w = Ok profile ∧
                 profile_hash state_check = from_contents profile) ∧
     dom (project_hashes state_check) = list_to_set all_projects.*1 ∧
     (NoDup all_projects.*1 →
      ∀ name project, (name, project) ∈ all_projects →
        ∃ contents, read_text (project_file project) w = Ok contents ∧
                    project_hashes state_check !! name
                    = Some (from_contents contents))).
Proof.
  intros profile_path. rewrite build_manifest_state_check_unfold.
  fold profile_path. unfold mbind, result_bind.
  destruct (read_text profile_path w) as [profile|e] eqn:Hprofile.
  2:{ split; [|split; [|done]]; [|by intros ? [= <-]].
      split; [by intros [? ?]|by intros [[? ?] _]]. }
  split; [|split; [done|split]].
  2:{ intros profile' before name project after e' _ -> Hbefore Hread.
      rewrite foldl_app.
      destruct (hash_project_foldl_total _ _ ∅ Hbefore) as [hashes ->].
      cbn [foldl]. by rewrite hash_project_ok, Hread, hash_project_raise. }
  - split.
    + intros [state_check Hsc]. split; [by eexists|].
      destruct (foldl _ _ _) as [hashes|] eqn:Hfold; [|done].
      by apply hash_project_foldl_ok in Hfold as [? _].
    + intros [_ Hall].
      destruct (hash_project_foldl_total _ _ ∅ Hall) as [hashes Hfold].
      rewrite Hfold. by eexists.
  - intros state_check.
    destruct (foldl _ _ _) as [hashes|] eqn:Hfold; [|done].
    intros [= <-]. simpl.
    apply hash_project_foldl_ok in Hfold as (_ & Hdom & _ & Hin).
    split; [done|]. split; [by exists profile|].
    split; [|done]. apply set_eq. intros k.
    rewrite Hdom, dom_empty, elem_of_list_to_set.
    split; [intros [[]%not_elem_of_empty|?]; done|by right].
Qed.

End state_check_construction.

Section loader_construction.
Context `{FileHashOps} `{!ManifestOps} `{!ParserOps} `{!SystemOps} `{!LoadOps}.
Implicit Types (self : ManifestLoader) (w : World) (run : Run).
Implicit Types (config : RuntimeConfig) (saved : Manifest).

(** What [read_saved_manifest] can return. *)
Lemma read_saved_manifest_cases self w :
  let saved_path :=
    path_join (target_path (root_project self)) PARTIAL_PARSE_FILE_NAME in
  read_saved_manifest self w = Ok None ∨
  ∃ saved, read_saved_manifest self w = Ok (Some saved) ∧
           _partial_parse_enabled self = true ∧
           path_exists saved_path w = true ∧
           pickle_load saved_path w = Ok saved ∧
           matching_parse_results self saved = true.
Proof.
  intros saved_path. unfold read_saved_manifest. fold saved_path.
  unfold try_except, mbind, result_bind.
  destruct (_partial_parse_enabled self); simpl; [|by left].
  destruct (path_exists saved_path w); [|by left].
  destruct (pickle_load saved_path w) as [saved|exc]; [|by left].
  destruct (matching_parse_results self saved) eqn:Hmatch; [|by left].
  right. by exists saved.
Qed.

(** X2: the constructor raises what [build_manifest_state_check] raises,
    and nothing else.  The loader that it makes is for the configuration
    and the projects it was given, with the hook or the one that does
    nothing, an empty file cache, and a manifest that is empty but for the
    metadata of the configuration and the state check just built; an old
    manifest that it starts with was unpickled from
    [partial_parse.pickle] under the target path, with partial parsing
    enabled, and accepted against that state check. *)
Theorem __init___spec config projects hook w :
  (∀ e, build_manifest_state_check config projects w = Raise e →
        __init__ config projects hook w = Raise e) ∧
  (∀ state_check,
     build_manifest_state_check config projects w = Ok state_check →
     ∃ self,
       __init__ config projects hook w = Ok self ∧
       root_project self = config ∧
       all_projects self = projects ∧
       macro_hook self = default (λ _, Ok ()) hook ∧
       _loaded_file_cache self = ∅ ∧
       manifest self
       = set_state_check (Some state_check)
           (empty_manifest (get_metadata config)) ∧
       ∀ saved, old_manifest self = Some saved →
         _partial_parse_enabled self = true ∧
         pickle_load (path_join (target_path config) PARTIAL_PARSE_FILE_NAME) w
         = Ok saved ∧
         matching_parse_results self saved = true).
Proof.
  unfold __init__. unfold mbind, result_bind.
  split; [by intros e ->|]. intros state_check ->.
  match goal with |- context [read_saved_manifest ?l w] => set (self := l) end.
  destruct (read_saved_manifest_cases self w)
    as [->|(saved & -> & Hon & _ & Hload & Hmatch)]; simpl;
    (eexists; split; [done|]); simpl; do 5 (split; [done|]).
  - by intros saved'.
  - by intros ? [= <-].
Qed.

(** X3: partial parsing is enabled exactly when the flag
    [flags.PARTIAL_PARSE] says so or, the flag not being set, the
    configuration says so: the flag goes before the configuration, and
    without either it is off.  When it is off [read_saved_manifest]
    returns [None] whatever the file system holds, so a saved manifest is
    only ever returned when it is on. *)
Theorem saved_manifest_needs_partial_parse self w :
  (_partial_parse_enabled self = true ↔
   flags_PARTIAL_PARSE = Some true ∨
   (flags_PARTIAL_PARSE = None ∧
    partial_parse (root_project self) = Some true)) ∧
  (_partial_parse_enabled self = false →
   read_saved_manifest self w = Ok None) ∧
  (∀ saved, read_saved_manifest self w = Ok (Some saved) →
            _partial_parse_enabled self = true).
Proof.
  split; [|split].
  - unfold _partial_parse_enabled, DEFAULT_PARTIAL_PARSE.
    destruct flags_PARTIAL_PARSE as [[]|].
    + split; [by left|done].
    + split; [done|]. by intros [?|[? _]].
    + destruct (partial_parse (root_project self)) as [[]|].
      * split; [by right|done].
      * split; [done|]. by intros [?|[_ ?]].
      * split; [done|]. by intros [?|[_ ?]].
  - unfold read_saved_manifest. by intros ->.
  - intros saved Hread.
    destruct (read_saved_manifest_cases self w) as [Hnone|(? & _ & ? & _)];
      [congruence|done].
Qed.

(** X4: a saved manifest that is malformed or of another version is
    ignored: [matching_parse_results] rejects a manifest whose
    [metadata.dbt_version] cannot be read or is not the running version,
    whatever its hashes, and rejects every manifest when the loader's own
    manifest or the manifest read has no state check; when such a manifest
    is what [partial_parse.pickle] holds, [read_saved_manifest] returns
    [None]. *)
Theorem incompatible_saved_manifest_is_ignored self w saved :
  pickle_load (path_join (target_path (root_project self))
                         PARTIAL_PARSE_FILE_NAME) w = Ok saved →
  metadata saved = None ∨
  (∃ md, metadata saved = Some md ∧ dbt_version md ≠ __version__) ∨
  state_check (manifest self) = None ∨
  state_check saved = None →
  matching_parse_results self saved = false ∧
  read_saved_manifest self w = Ok None.
Proof.
  intros Hload Hbad.
  assert (Hreject : matching_parse_results self saved = false).
  { unfold matching_parse_results.
    destruct Hbad as [->|[(md & -> & Hv)|[Hnone|Hnone]]]; [done|..].
    - by rewrite bool_decide_eq_true_2.
    - rewrite Hnone. destruct (metadata saved); [|done]. by case_bool_decide.
    - rewrite Hnone. destruct (metadata saved); [|done].
      case_bool_decide; [done|]. by destruct (state_check (manifest self)). }
  split; [done|].
  destruct (read_saved_manifest_cases self w)
    as [Hnone|(saved' & _ & _ & _ & Hload' & Hmatch)]; [done|].
  rewrite Hload in Hload'. injection Hload' as <-. congruence.
Qed.

(** A manifest is accepted against itself. *)
Lemma matching_parse_results_refl self md sc :
  (∀ h, FileHash_eq h h = true) →
  metadata (manifest self) = Some md →
  dbt_version md = __version__ →
  state_check (manifest self) = Some sc →
  matching_parse_results self (manifest self) = true.
Proof.
  intros Hrefl Hmd Hv Hsc. unfold matching_parse_results.
  rewrite Hmd, Hsc, bool_decide_eq_false_2 by (by intros ?).
  apply project_hashes_loop. unfold FileHash_ne. rewrite !Hrefl. simpl.
  split.
  - rewrite bool_decide_eq_false_2; [done|]. intros Hne. apply Hne.
    apply set_eq. intros k. rewrite elem_of_filter.
    split; [by intros [? ?]|by intros ?%not_elem_of_empty].
  - intros k hn ho Hn Ho. assert (hn = ho) as -> by congruence. apply Hrefl.
Qed.

(** What an accepted manifest has. *)
Lemma matching_parse_results_accepts self saved :
  matching_parse_results self saved = true →
  ∃ md new old,
    metadata saved = Some md ∧ dbt_version md = __version__ ∧
    state_check (manifest self) = Some new ∧ state_check saved = Some old ∧
    FileHash_eq (vars_hash new) (vars_hash old) = true ∧
    FileHash_eq (profile_hash new) (profile_hash old) = true ∧
    ∀ k hn, project_hashes new !! k = Some hn →
            ∃ ho, project_hashes old !! k = Some ho ∧
                  FileHash_eq hn ho = true.
Proof.
  unfold matching_parse_results.
  destruct (metadata saved) as [md|]; [|done].
  case_bool_decide as Hv; [done|].
  destruct (state_check (manifest self)) as [new|]; [|done].
  destruct (state_check saved) as [old|]; [|done].
  rewrite project_hashes_loop. unfold FileHash_ne.
  destruct (FileHash_eq (vars_hash new) (vars_hash old)) eqn:Hvars; simpl;
    [|intros [Hf _]; by repeat case_match].
  destruct (FileHash_eq (profile_hash new) (profile_hash old)) eqn:Hprofile;
    simpl; [|intros [Hf _]; by repeat case_match].
  case_bool_decide as Hmissing; [by intros [? _]|].
  intros [_ Hcommon]. exists md, new, old. do 6 (split; [done|]).
  intros k hn Hn.
  destruct (project_hashes old !! k) as [ho|] eqn:Ho.
  - exists ho. split; [done|]. by apply (Hcommon k).
  - exfalso. apply (not_elem_of_empty (C:=gset string) k).
    rewrite <-Hmissing. apply elem_of_filter. split.
    + by apply not_elem_of_dom.
    + apply elem_of_dom. by eexists.
Qed.

(** X5: the old manifest that a loader starts with is current: it
    carries the running version, and its state check has a vars hash equal
    to the hash of the present arguments and version, a profile hash equal
    to the hash of the present contents of [profiles.yml], and for every
    present project a hash equal to the hash of the present contents of
    its [dbt_project.yml].  So a saved manifest is dropped as soon as one
    of these has changed. *)
Theorem __init___old_manifest_is_current config projects hook w self saved :
  __init__ config projects hook w = Ok self →
  old_manifest self = Some saved →
  (∃ md, metadata saved = Some md ∧ dbt_version md = __version__) ∧
  ∃ old,
    state_check saved = Some old ∧
    FileHash_eq
      (from_contents
         (String.concat (String Ascii.zero EmptyString)
            [getattr_or (args_vars (args config)) "{}";
             getattr_or (args_profile (args config)) "";
             getattr_or (args_target (args config)) "";
             __version__]))
      (vars_hash old) = true ∧
    (∃ profile,
       read_text (path_join (profiles_dir (args config)) "profiles.yml") w
       = Ok profile ∧
       FileHash_eq (from_contents profile) (profile_hash old) = true) ∧
    (NoDup projects.*1 →
     ∀ name project, (name, project) ∈ projects →
       ∃ contents ho,
         read_text (project_file project) w = Ok contents ∧
         project_hashes old !! name = Some ho ∧
         FileHash_eq (from_contents contents) ho = true).
Proof.
  intros Hinit Hold.
  destruct (build_manifest_state_check config projects w) as [sc|e] eqn:Hsc.
  2:{ unfold __init__ in Hinit. unfold mbind, result_bind in Hinit.
      by rewrite Hsc in Hinit. }
  assert (manifest self
          = set_state_check (Some sc) (empty_manifest (get_metadata config)) ∧
          matching_parse_results self saved = true) as [Hm Hmatch].
  { unfold __init__ in Hinit. unfold mbind, result_bind in Hinit.
    rewrite Hsc in Hinit.
    match type of Hinit with
    | context [read_saved_manifest ?l w] => set (self0 := l) in Hinit
    end.
    destruct (read_saved_manifest_cases self0 w)
      as [Hnone|(saved' & Hsome & _ & _ & _ & Hmatch)].
    - rewrite Hnone in Hinit. injection Hinit as <-. done.
    - rewrite Hsome in Hinit. injection Hinit as <-.
      simpl in Hold. injection Hold as ->. done. }
  apply matching_parse_results_accepts in Hmatch
    as (md & new & old & Hmd & Hv & Hnew & Hsaved & Hvars & Hprofile & Hprojects).
  rewrite Hm in Hnew. injection Hnew as <-.
  rewrite build_manifest_state_check_unfold in Hsc.
  unfold mbind, result_bind in Hsc.
  destruct (read_text _ w) as [profile|] eqn:Hread; [|done].
  destruct (foldl _ _ _) as [hashes|] eqn:Hfold; [|done].
  injection Hsc as <-. simpl in *.
  split; [by exists md|]. exists old. split; [done|]. split; [done|].
  split; [by exists profile|].
  intros Hnodup name project Hin.
  apply hash_project_foldl_ok in Hfold as (_ & _ & _ & Hhashes).
  destruct (Hhashes Hnodup name project Hin) as (contents & ? & Hn).
  destruct (Hprojects _ _ Hn) as (ho & ? & ?). by exists contents, ho.
Qed.

(** X6: what [write_manifest_for_partial_parse] writes,
    [read_saved_manifest] reads back: on a file system that keeps a
    pickled manifest, for hashes that are equal to themselves, with
    partial parsing enabled and a manifest that carries the running
    version and a state check, the loader that has written its manifest
    is unchanged and reads that manifest from the file system that
    results. *)
Theorem saved_manifest_round_trip run run' md sc :
  (∀ h, FileHash_eq h h = true) →
  (∀ p m w w', pickle_dump p m w = Ok w' →
               path_exists p w' = true ∧ pickle_load p w' = Ok m) →
  _partial_parse_enabled (self run) = true →
  metadata (manifest (self run)) = Some md →
  dbt_version md = __version__ →
  state_check (manifest (self run)) = Some sc →
  write_manifest_for_partial_parse run = Ok ((), run') →
  self run' = self run ∧
  read_saved_manifest (self run') (world (process run'))
  = Ok (Some (manifest (self run))).
Proof.
  intros Hrefl Hfs Hon Hmd Hv Hsc.
  unfold write_manifest_for_partial_parse. unfold_monad.
  destruct (make_directory _ _) as [w1|]; [simpl|done].
  destruct (pickle_dump _ _ w1) as [w2|] eqn:Hdump; [simpl|done].
  intros [= <-]. simpl. split; [done|].
  apply Hfs in Hdump as [Hexists Hload].
  unfold read_saved_manifest. rewrite Hon. simpl.
  rewrite Hexists, Hload. simpl.
  by rewrite (matching_parse_results_refl _ md sc).
Qed.

End loader_construction.

(** ** The passes over the files of the projects *)

Section loops.
Context {σ A : Type}.
Implicit Types (l : list A) (body : A → M σ unit).

Lemma for_each_preserves (R : relation σ) `{!PreOrder R} l body :
  (∀ x s s', x ∈ l → body x s = Ok ((), s') → R s s') →
  ∀ s s', for_each l body s = Ok ((), s') → R s s'.
Proof.
  induction l as [|x l IH]; intros Hbody s s'; simpl.
  - by intros [= <-].
  - unfold mbind, M_bind.
    destruct (body x s) as [[[] s1]|] eqn:Hx; [|done]. intros Hl.
    trans s1.
    + apply (Hbody x); [by left|done].
    + apply IH; [|done]. intros y t t' Hy. apply Hbody. by right.
Qed.

Lemma for_each_covers (I : σ → Prop) (R : relation σ) `{!PreOrder R}
    (P : A → σ → Prop) l body :
  (∀ x s s', P x s → R s s' → P x s') →
  (∀ x s s', x ∈ l → I s → body x s = Ok ((), s') →
             I s' ∧ R s s' ∧ P x s') →
  ∀ s s', I s → for_each l body s = Ok ((), s') →
          I s' ∧ R s s' ∧ ∀ x, x ∈ l → P x s'.
Proof.
  intros Hmono. induction l as [|x l IH]; intros Hbody s s' HI; simpl.
  - intros [= <-]. split; [done|]. split; [done|]. by intros ? ?%elem_of_nil.
  - unfold mbind, M_bind.
    destruct (body x s) as [[[] s1]|] eqn:Hx; [|done]. intros Hl.
    destruct (Hbody x s s1) as (HI1 & HR1 & HP1); [by left|done..|].
    destruct (IH (λ y t t' Hy, Hbody y t t' (proj2 (elem_of_cons l y x) (or_intror Hy)))
                 s1 s' HI1 Hl) as (HI' & HR' & HP').
    split; [done|]. split; [by trans s1|].
    intros y [->|Hy]%elem_of_cons; [by apply (Hmono _ s1)|by apply HP'].
Qed.

Lemma for_each_commutes (f : σ → σ) l body :
  (∀ x s, body x (f s)
          = match body x s with
            | Ok (a, s') => Ok (a, f s')
            | Raise e => Raise e
            end) →
  ∀ s, for_each l body (f s)
       = match for_each l body s with
         | Ok (a, s') => Ok (a, f s')
         | Raise e => Raise e
         end.
Proof.
  intros Hbody. induction l as [|x l IH]; intros s; simpl; [done|].
  unfold mbind, M_bind. rewrite Hbody.
  destruct (body x s) as [[[] s1]|]; [|done]. apply IH.
Qed.

End loops.

Section parse_pass_properties.
Context `{FileHashOps} `{!ManifestOps} `{!ParserOps} `{!SystemOps} `{!LoadOps}.
Implicit Types (run : Run) (parser : Parser) (block : FileBlock).
Implicit Types (fp : FilePath) (project : Project).

#[local] Instance parse_frame_preorder : PreOrder parse_frame.
Proof.
  split.
  - by intros run.
  - intros r1 r2 r3 (?&?&?&?&?&?&?&?) (?&?&?&?&?&?&?&?).
    repeat split; [congruence..|by etrans].
Qed.

#[local] Instance cache_grows_preorder : PreOrder cache_grows.
Proof.
  split.
  - by intros run key.
  - intros r1 r2 r3 H12 H23 key ?. by apply H23, H12.
Qed.

(** [_get_cached] changes nothing but the loader's manifest. *)
Lemma _get_cached_frame block parser run cached run' :
  _get_cached block parser run = Ok (cached, run') →
  ∃ m, run' = set_self (set_manifest m (self run)) run.
Proof.
  unfold _get_cached. unfold_monad.
  destruct (old_manifest (self run)) as [old|].
  - destruct (has_file old (file block)).
    + destruct (sanitized_update _ _ _ _) as [[b m]|]; [|done].
      intros [= <- <-]. by exists m.
    + intros [= <- <-]. exists (manifest (self run)). by destruct run as [[]].
  - intros [= <- <-]. exists (manifest (self run)). by destruct run as [[]].
Qed.

Lemma parse_with_cache_raise fp parser run e :
  _get_file fp parser run = Raise e → parse_with_cache fp parser run = Raise e.
Proof.
  intros Hget. unfold parse_with_cache. unfold mbind at 1. unfold M_bind at 1.
  by rewrite Hget.
Qed.

Lemma parse_with_cache_frame fp parser run run' :
  parse_with_cache fp parser run = Ok ((), run') →
  parse_frame run run' ∧ cache_grows run run'.
Proof.
  destruct (_get_file fp parser run) as [[block run1]|] eqn:Hget.
  2:{ unfold parse_with_cache. unfold mbind at 1. unfold M_bind at 1.
      by rewrite Hget. }
  rewrite (parse_with_cache_unfold _ _ _ _ _ Hget).
  assert (parse_frame run run1 ∧ cache_grows run run1) as [Hf1 Hc1].
  { destruct (_loaded_file_cache (self run) !! search_key fp) as [b|] eqn:Hc.
    - rewrite (_get_file_hit _ _ _ _ Hc) in Hget. by injection Hget as <- <-.
    - rewrite (_get_file_miss _ _ _ Hc) in Hget.
      destruct (load_file parser fp) as [sf|]; [|done].
      injection Hget as <- <-. split.
      + repeat split. simpl. by apply prefix_app_r.
      + intros key Hkey. simpl. destruct (decide (key = search_key fp)) as [->|].
        * rewrite lookup_insert_eq. by eexists.
        * by rewrite lookup_insert_ne. }
  destruct (_get_cached block parser run1) as [[cached run2]|] eqn:Hcached;
    [|done].
  apply _get_cached_frame in Hcached as [m ->].
  destruct cached.
  - intros [= <-]. split.
    + etrans; [exact Hf1|]. by repeat split.
    + etrans; [exact Hc1|]. by intros key.
  - unfold parsed_fresh. simpl.
    destruct (parse_file parser block m) as [m'|]; [|done].
    intros [= <-]. split.
    + etrans; [exact Hf1|]. repeat split. simpl. by apply prefix_app_r.
    + etrans; [exact Hc1|]. by intros key.
Qed.

Lemma loaded_keys_app (cs1 cs2 : list Call) :
  loaded_keys (cs1 ++ cs2) = loaded_keys cs1 ++ loaded_keys cs2.
Proof. apply omap_app. Qed.

(** One call of [parse_with_cache] in a pass. *)
Lemma parse_with_cache_pass found before fp parser run run' :
  found parser fp →
  pass_invariant found before run →
  parse_with_cache fp parser run = Ok ((), run') →
  pass_invariant found before run' ∧
  is_Some (_loaded_file_cache (self run') !! search_key fp).
Proof.
  intros Hfound Hinv.
  destruct (_get_file fp parser run) as [[block run1]|] eqn:Hget.
  2:{ unfold parse_with_cache. unfold mbind at 1. unfold M_bind at 1.
      by rewrite Hget. }
  rewrite (parse_with_cache_unfold _ _ _ _ _ Hget).
  assert (pass_invariant found before run1 ∧
          _loaded_file_cache (self run1) !! search_key fp = Some block)
    as [Hinv1 Hblock].
  { destruct (_loaded_file_cache (self run) !! search_key fp) as [b|] eqn:Hc.
    - rewrite (_get_file_hit _ _ _ _ Hc) in Hget. by injection Hget as <- <-.
    - rewrite (_get_file_miss _ _ _ Hc) in Hget.
      destruct (load_file parser fp) as [sf|] eqn:Hload; [|done].
      injection Hget as <- <-. split; [|apply lookup_insert_eq].
      destruct Hinv as (new & Hcalls & Hnodup & Hkeys & Hcache & Hloads & Hparses).
      exists (new ++ [load_file_call parser fp]). simpl.
      split; [by rewrite Hcalls, (assoc_L (++))|].
      rewrite loaded_keys_app. simpl. split; [|split; [|split; [|split]]].
      + apply NoDup_app. split; [done|]. split; [|apply NoDup_singleton].
        intros key Hkey ->%list_elem_of_singleton.
        apply Hkeys in Hkey as [? ?]. congruence.
      + intros key. rewrite elem_of_app, list_elem_of_singleton, Hkeys.
        destruct (decide (key = search_key fp)) as [->|Hne].
        * rewrite lookup_insert_eq. split; [by eexists|by right].
        * rewrite lookup_insert_ne by done. split; [by intros [?|?]|by left].
      + intros key b. destruct (decide (key = search_key fp)) as [->|Hne].
        * rewrite lookup_insert_eq. intros [= <-]. exists parser, fp.
          split; [|done]. apply elem_of_app. right. by left.
        * rewrite lookup_insert_ne by done.
          intros (parser' & fp' & ? & ? & ?)%Hcache.
          exists parser', fp'. split; [|done]. apply elem_of_app. by left.
      + intros parser' fp' [?|[= -> ->]%list_elem_of_singleton]%elem_of_app;
          [by apply Hloads|done].
      + intros parser' b [Hin|[=]%list_elem_of_singleton]%elem_of_app.
        destruct (Hparses _ _ Hin) as (fp0 & parser'' & fp'' & ? & ? & ?).
        exists fp0, parser'', fp''. split; [done|]. split; [|done].
        apply elem_of_app. by left. }
  destruct (_get_cached block parser run1) as [[cached run2]|] eqn:Hcached;
    [|done].
  apply _get_cached_frame in Hcached as [m ->].
  destruct cached.
  - intros [= <-]. split; [exact Hinv1|]. simpl. by eexists.
  - unfold parsed_fresh. simpl.
    destruct (parse_file parser block m) as [m'|]; [|done].
    intros [= <-]. simpl. split; [|by eexists].
    destruct Hinv1 as (new & Hcalls & Hnodup & Hkeys & Hcache & Hloads & Hparses).
    exists (new ++ [parse_file_call parser block]). simpl.
    split; [by rewrite Hcalls, (assoc_L (++))|].
    rewrite loaded_keys_app. simpl. rewrite (right_id_L [] (++)).
    split; [done|]. split; [done|]. split; [|split].
    + intros key b (parser' & fp' & ? & ? & ?)%Hcache.
      exists parser', fp'. split; [|done]. apply elem_of_app. by left.
    + intros parser' fp' [?|[=]%list_elem_of_singleton]%elem_of_app.
      by apply Hloads.
    + intros parser' b [Hin|[= -> ->]%list_elem_of_singleton]%elem_of_app.
      * destruct (Hparses _ _ Hin) as (fp0 & parser'' & fp'' & ? & ? & ?).
        exists fp0, parser'', fp''. split; [done|]. split; [|done].
        apply elem_of_app. by left.
      * destruct (Hcache _ _ Hblock) as (parser'' & fp'' & ? & ? & ?).
        exists fp, parser'', fp''. split; [done|]. split; [|done].
        apply elem_of_app. by left.
Qed.

Lemma elem_of_project_parsers parser project run :
  parser ∈ project_parsers project run → parser_project parser = project.
Proof. by intros (cls & -> & _)%list_elem_of_fmap. Qed.

(** A pass of [parse_project]. *)
Lemma parse_project_pass project run run' :
  parse_project project run = Ok ((), run') →
  let found parser fp :=
    parser ∈ project_parsers project run ∧ fp ∈ search parser in
  pass_invariant found (calls (process run)) run' ∧
  ∀ parser fp, found parser fp →
               is_Some (_loaded_file_cache (self run') !! search_key fp).
Proof.
  rewrite parse_project_clears_cache. intros Hrun found.
  set (run0 := set_self (set_loaded_file_cache ∅ (self run)) run) in Hrun.
  assert (Hinv0 : pass_invariant found (calls (process run)) run0).
  { exists []. split; [by rewrite (right_id_L [] (++))|].
    split; [constructor|]. split; [|split; [|split]]; simpl.
    - intros key. rewrite elem_of_nil, lookup_empty. split; [done|].
      by intros [? ?].
    - intros key block. by rewrite lookup_empty.
    - by intros ? ? ?%elem_of_nil.
    - by intros ? ? ?%elem_of_nil. }
  destruct (for_each_covers
              (pass_invariant found (calls (process run))) cache_grows
              (λ parser s, ∀ fp, fp ∈ search parser →
                 is_Some (_loaded_file_cache (self s) !! search_key fp))
              (project_parsers project run)
              (λ parser, for_each (search parser)
                           (λ fp, parse_with_cache fp parser)))
    with (s := run0) (s' := run') as (Hinv & _ & Hcover); [| |done..|].
  - intros parser s s' HP Hgrows fp Hfp. by apply Hgrows, HP.
  - intros parser s s' Hparser Hinv Hbody.
    apply (for_each_covers
             (pass_invariant found (calls (process run))) cache_grows
             (λ fp s, is_Some (_loaded_file_cache (self s) !! search_key fp))
             (search parser) (λ fp, parse_with_cache fp parser));
      [..|done|done].
    + intros fp t t' HP Hgrows. by apply Hgrows.
    + intros fp t t' Hfp Ht Hstep.
      destruct (parse_with_cache_pass found (calls (process run))
                  fp parser t t') as [? ?]; [done..|].
      split; [done|]. split; [|done].
      by apply parse_with_cache_frame in Hstep as [_ ?].
  - split; [done|]. intros parser fp [? ?]. by apply (Hcover parser).
Qed.

(** X7: a pass of [parse_project] that returns has called [load_file]
    once, and only once, for every search key among the paths that the
    parsers of the project find, and for no other key; when it returns,
    the file cache holds exactly these search keys. *)
Theorem parse_project_loads_each_file_once project run run' :
  parse_project project run = Ok ((), run') →
  ∃ new,
    calls (process run') = calls (process run) ++ new ∧
    NoDup (loaded_keys new) ∧
    (∀ key, key ∈ loaded_keys new ↔
            ∃ parser fp, parser ∈ project_parsers project run ∧
                         fp ∈ search parser ∧ search_key fp = key) ∧
    (∀ key, is_Some (_loaded_file_cache (self run') !! key) ↔
            key ∈ loaded_keys new).
Proof.
  intros [(new & Hcalls & Hnodup & Hkeys & Hcache & Hloads & _) Hcover]
    %parse_project_pass.
  exists new. split; [done|]. split; [done|]. split; [|done].
  intros key. split.
  - intros [block Hblock]%Hkeys.
    destruct (Hcache _ _ Hblock) as (parser & fp & Hin & Hkey & _).
    destruct (Hloads _ _ Hin) as [? ?]. by exists parser, fp.
  - intros (parser & fp & Hparser & Hfp & <-).
    by apply Hkeys, (Hcover parser).
Qed.

(** X8: in a pass of [parse_project] every call of [load_file] and of
    [parse_file] is made by a parser of that project; a file that is
    loaded is one that its parser has found, and a block that is parsed
    holds a file that was loaded during this pass, by a parser of the
    project, under the search key of a path that the parser given the
    block has found.  No block of an earlier pass is parsed. *)
Theorem parse_project_parses_its_own_files project run run' :
  parse_project project run = Ok ((), run') →
  ∃ new,
    calls (process run') = calls (process run) ++ new ∧
    (∀ parser fp, load_file_call parser fp ∈ new →
                  parser_project parser = project ∧ fp ∈ search parser) ∧
    (∀ parser block, parse_file_call parser block ∈ new →
       parser_project parser = project ∧
       ∃ fp parser' fp',
         fp ∈ search parser ∧
         load_file_call parser' fp' ∈ new ∧
         parser_project parser' = project ∧
         fp' ∈ search parser' ∧
         search_key fp' = search_key fp ∧
         load_file parser' fp' = Ok (file block)).
Proof.
  intros [(new & Hcalls & _ & _ & _ & Hloads & Hparses) _]%parse_project_pass.
  exists new. split; [done|]. split.
  - intros parser fp [Hparser ?]%Hloads.
    by apply elem_of_project_parsers in Hparser.
  - intros parser block (fp & parser' & fp' & [Hp ?] & Hin & ? & ?)%Hparses.
    split; [by apply elem_of_project_parsers in Hp|].
    exists fp, parser', fp'. split; [done|]. split; [done|].
    destruct (Hloads _ _ Hin) as [Hp' ?].
    by apply elem_of_project_parsers in Hp'.
Qed.

Lemma parse_project_frame project run run' :
  parse_project project run = Ok ((), run') → parse_frame run run'.
Proof.
  rewrite parse_project_clears_cache. intros Hrun.
  trans (set_self (set_loaded_file_cache ∅ (self run)) run);
    [by repeat split|].
  revert Hrun. apply for_each_preserves; [apply _|].
  intros parser s s' _. apply for_each_preserves; [apply _|].
  intros fp t t' _ Hstep. by apply parse_with_cache_frame in Hstep as [? _].
Qed.

Lemma load_unfold run :
  load run = for_each (all_projects (self run)).*2 parse_project
                      (load_started run).
Proof.
  unfold load, load_started. unfold mbind, M_bind, get.
  by destruct (old_manifest (self run)).
Qed.

Lemma load_frame run run' :
  load run = Ok ((), run') → parse_frame (load_started run) run'.
Proof.
  rewrite load_unfold.
  apply for_each_preserves; [apply _|].
  intros project s s' _. apply parse_project_frame.
Qed.

(** The message of [load] apart, the run is as it was. *)
Lemma load_started_frame run :
  self (load_started run) = self run ∧
  world (process (load_started run)) = world (process run) ∧
  _macro_manifest_lazy (process (load_started run))
  = _macro_manifest_lazy (process run) ∧
  calls (process (load_started run)) = calls (process run).
Proof. unfold load_started. by destruct (old_manifest (self run)). Qed.

Lemma create_macro_manifest_frame run mm run' :
  create_macro_manifest run = Ok (mm, run') →
  parse_frame run run' ∧
  mm = {| mm_macros := macros (manifest (self run'));
          mm_files := files (manifest (self run')) |}.
Proof.
  unfold create_macro_manifest. unfold mbind at 1 2 3, M_bind at 1 2 3.
  unfold get at 1 2, mret, M_ret.
  destruct (for_each _ _ run) as [[[] run1]|] eqn:Hloop; [|done].
  intros [= <- <-]. split; [|done].
  revert Hloop. apply for_each_preserves; [apply _|].
  intros project s s' _. apply for_each_preserves; [apply _|].
  intros fp t t' _ Hstep. by apply parse_with_cache_frame in Hstep as [? _].
Qed.

(** X9: [load] changes nothing but the loader's manifest and file cache,
    and the log: when it returns, the configuration, the projects, the hook
    and the old manifest of the loader and the file system are what they
    were, and the calls made to the parsers before it are still on record,
    in front of the new ones.  To the log [load] itself sends one message,
    at debug level, when the loader has an old manifest, and none when it
    has not. *)
Theorem load_only_parses run run' :
  load run = Ok ((), run') →
  root_project (self run') = root_project (self run) ∧
  all_projects (self run') = all_projects (self run) ∧
  macro_hook (self run') = macro_hook (self run) ∧
  old_manifest (self run') = old_manifest (self run) ∧
  world (process run') = world (process run) ∧
  calls (process run) `prefix_of` calls (process run') ∧
  log_records (process run')
  = log_records (process run)
    ++ (if old_manifest (self run) is Some _
        then [{| level := DEBUG;
                 message :=
                   literal "Got an acceptable cached parse result" |}]
        else []).
Proof.
  intros (Hroot & Hprojects & Hhook & Hold & Hworld & _ & Hlog & Hcalls)
    %load_frame.
  rewrite Hroot, Hprojects, Hhook, Hold, Hworld, Hlog.
  revert Hcalls. unfold load_started.
  destruct (old_manifest (self run)) eqn:Hsaved; simpl; intros Hcalls.
  - done.
  - by rewrite (right_id_L [] (++)).
Qed.

Lemma load_macros_from_adapter_post run run' :
  load_macros_from_adapter run = Ok ((), run') →
  ∃ macro_manifest,
    _macro_manifest_lazy (process run') = Some macro_manifest ∧
    mm_macros macro_manifest = macros (manifest (self run')) ∧
    mm_files macro_manifest = files (manifest (self run')) ∧
    macro_hook (self run) macro_manifest = Ok () ∧
    world (process run') = world (process run) ∧
    (∀ cached, _macro_manifest_lazy (process run) = Some cached →
       macro_manifest = cached ∧
       calls (process run') = calls (process run) ∧
       _loaded_file_cache (self run') = _loaded_file_cache (self run) ∧
       nodes (manifest (self run')) = nodes (manifest (self run)) ∧
       exposures (manifest (self run')) = exposures (manifest (self run))) ∧
    (_macro_manifest_lazy (process run) = None →
     ∃ run1, create_macro_manifest run = Ok (macro_manifest, run1) ∧
             manifest (self run') = manifest (self run1) ∧
             calls (process run') = calls (process run1)).
Proof.
  unfold load_macros_from_adapter. unfold mbind at 1, M_bind at 1, get at 1.
  destruct (_macro_manifest_lazy (process run)) as [cached|] eqn:Hlazy.
  - unfold_monad. destruct (macro_hook (self run) cached) as [[]|] eqn:Hhook;
      [|done].
    intros [= <-]. exists cached. simpl. repeat (split; [done|]).
    split; [|done]. by intros ? [= <-].
  - unfold mbind at 1, M_bind at 1.
    destruct (create_macro_manifest run) as [[mm run1]|] eqn:Hcreate; [|done].
    apply create_macro_manifest_frame in Hcreate as [Hframe Hmm].
    destruct Hframe as (_ & _ & _ & _ & Hworld & _).
    unfold_monad. destruct (macro_hook (self run) mm) as [[]|] eqn:Hhook;
      [|done].
    intros [= <-]. exists mm. simpl. split; [done|].
    split; [by rewrite Hmm|]. split; [by rewrite Hmm|]. split; [done|].
    split; [done|]. split; [done|]. intros _. by exists run1.
Qed.

(** X10: when [load_macros_from_adapter] returns, the adapter has a macro
    manifest, its macros and files are those of the loader's manifest, and
    the hook has been called on it and has returned; the file system is
    untouched.  When the adapter had a macro manifest already, it is that
    one: no parser is called, the file cache and the nodes and exposures
    of the loader's manifest stay as they were.  When it had none, the
    macro manifest is the one that [create_macro_manifest] returns. *)
Theorem load_macros_from_adapter_spec run run' :
  load_macros_from_adapter run = Ok ((), run') →
  ∃ macro_manifest,
    _macro_manifest_lazy (process run') = Some macro_manifest ∧
    mm_macros macro_manifest = macros (manifest (self run')) ∧
    mm_files macro_manifest = files (manifest (self run')) ∧
    macro_hook (self run) macro_manifest = Ok () ∧
    world (process run') = world (process run) ∧
    (∀ cached, _macro_manifest_lazy (process run) = Some cached →
       macro_manifest = cached ∧
       calls (process run') = calls (process run) ∧
       _loaded_file_cache (self run') = _loaded_file_cache (self run) ∧
       nodes (manifest (self run')) = nodes (manifest (self run)) ∧
       exposures (manifest (self run')) = exposures (manifest (self run))) ∧
    (_macro_manifest_lazy (process run) = None →
     ∃ run1, create_macro_manifest run = Ok (macro_manifest, run1) ∧
             manifest (self run') = manifest (self run1) ∧
             calls (process run') = calls (process run1)).
Proof. apply load_macros_from_adapter_post. Qed.

Lemma _get_file_macro_hook hook fp parser run :
  _get_file fp parser (with_macro_hook hook run)
  = match _get_file fp parser run with
    | Ok (block, run') => Ok (block, with_macro_hook hook run')
    | Raise e => Raise e
    end.
Proof.
  destruct (_loaded_file_cache (self run) !! search_key fp) as [block|] eqn:Hc.
  - by rewrite (_get_file_hit _ _ run block), (_get_file_hit _ _ _ block).
  - rewrite (_get_file_miss _ _ run), (_get_file_miss _ _ (with_macro_hook _ _))
      by done.
    by destruct (load_file parser fp).
Qed.

Lemma _get_cached_macro_hook hook block parser run :
  _get_cached block parser (with_macro_hook hook run)
  = match _get_cached block parser run with
    | Ok (cached, run') => Ok (cached, with_macro_hook hook run')
    | Raise e => Raise e
    end.
Proof.
  unfold _get_cached. unfold_monad. simpl.
  destruct (old_manifest (self run)) as [old|]; [|done].
  destruct (has_file old (file block)); [|done].
  by destruct (sanitized_update _ _ _ _) as [[cached m]|].
Qed.

Lemma parsed_fresh_macro_hook hook block parser run :
  parsed_fresh parser block (with_macro_hook hook run)
  = match parsed_fresh parser block run with
    | Ok (a, run') => Ok (a, with_macro_hook hook run')
    | Raise e => Raise e
    end.
Proof.
  unfold parsed_fresh. simpl. by destruct (parse_file parser block _).
Qed.

Lemma parse_with_cache_macro_hook hook fp parser run :
  parse_with_cache fp parser (with_macro_hook hook run)
  = match parse_with_cache fp parser run with
    | Ok (a, run') => Ok (a, with_macro_hook hook run')
    | Raise e => Raise e
    end.
Proof.
  pose proof (_get_file_macro_hook hook fp parser run) as Hget'.
  destruct (_get_file fp parser run) as [[block run1]|] eqn:Hget.
  - rewrite (parse_with_cache_unfold _ _ _ _ _ Hget),
      (parse_with_cache_unfold _ _ _ _ _ Hget'), _get_cached_macro_hook.
    destruct (_get_cached block parser run1) as [[[] run2]|]; [done| |done].
    apply parsed_fresh_macro_hook.
  - by rewrite (parse_with_cache_raise _ _ _ _ Hget),
      (parse_with_cache_raise _ _ _ _ Hget').
Qed.

Lemma create_macro_manifest_unfold run :
  create_macro_manifest run
  = match
      for_each (all_projects (self run)).*2
        (λ project,
           let parser := {| parser_cls := MacroParser;
                            parser_project := project;
                            parser_root_project := None |} in
           for_each (search parser) (λ fp, parse_with_cache fp parser)) run
    with
    | Ok (_, run1) =>
        Ok ({| mm_macros := macros (manifest (self run1));
               mm_files := files (manifest (self run1)) |}, run1)
    | Raise e => Raise e
    end.
Proof.
  unfold create_macro_manifest, mbind, M_bind, get, mret, M_ret.
  by destruct (for_each _ _ run) as [[[] run1]|].
Qed.

(** A pass of [create_macro_manifest] that starts with an empty file
    cache. *)
Lemma create_macro_manifest_pass run macro_manifest run' :
  _loaded_file_cache (self run) = ∅ →
  create_macro_manifest run = Ok (macro_manifest, run') →
  let found parser fp :=
    ∃ project, project ∈ (all_projects (self run)).*2 ∧
               parser = macro_parser project ∧ fp ∈ search parser in
  pass_invariant found (calls (process run)) run' ∧
  ∀ parser fp, found parser fp →
               is_Some (_loaded_file_cache (self run') !! search_key fp).
Proof.
  intros Hempty. rewrite create_macro_manifest_unfold.
  destruct (for_each _ _ run) as [[[] run1]|] eqn:Hloop; [|done].
  intros [= _ <-] found.
  assert (Hinv0 : pass_invariant found (calls (process run)) run).
  { exists []. split; [by rewrite (right_id_L [] (++))|].
    split; [constructor|]. rewrite Hempty.
    split; [|split; [|split]]; simpl.
    - intros key. rewrite elem_of_nil, lookup_empty. split; [done|].
      by intros [? ?].
    - intros key block. by rewrite lookup_empty.
    - by intros ? ? ?%elem_of_nil.
    - by intros ? ? ?%elem_of_nil. }
  destruct (for_each_covers
              (pass_invariant found (calls (process run))) cache_grows
              (λ project s, ∀ fp, fp ∈ search (macro_parser project) →
                 is_Some (_loaded_file_cache (self s) !! search_key fp))
              (all_projects (self run)).*2
              (λ project,
                 for_each (search (macro_parser project))
                          (λ fp, parse_with_cache fp (macro_parser project))))
    with (s := run) (s' := run1) as (Hinv & _ & Hcover); [| |done..|].
  - intros project s s' HP Hgrows fp Hfp. by apply Hgrows, HP.
  - intros project s s' Hproject Hinv Hbody.
    apply (for_each_covers
             (pass_invariant found (calls (process run))) cache_grows
             (λ fp s, is_Some (_loaded_file_cache (self s) !! search_key fp))
             (search (macro_parser project))
             (λ fp, parse_with_cache fp (macro_parser project)));
      [..|done|done].
    + intros fp t t' HP Hgrows. by apply Hgrows.
    + intros fp t t' Hfp Ht Hstep.
      destruct (parse_with_cache_pass found (calls (process run))
                  fp (macro_parser project) t t') as [? ?];
        [by exists project|done..|].
      split; [done|]. split; [|done].
      by apply parse_with_cache_frame in Hstep as [_ ?].
  - split; [done|]. intros parser fp (project & ? & -> & ?).
    by apply (Hcover project).
Qed.

(** C7, as the code has it.
    - A call of [_get_file] for a search key that the cache does not have
      loads the file and caches its block; every later call for that key,
      while the cache has it, returns the block without loading again.
    - [parse_project] clears the file cache before it parses anything; in
      its pass no search key is loaded twice, and every block that is
      parsed was loaded in this pass by a parser of the project: no block
      is reused across packages.
    - [create_macro_manifest] does not clear the file cache between the
      projects: started on an empty cache, it ends with the blocks of the
      macro files of every project in the cache.  When the macro files of
      different projects have different search keys, every block that a
      parser is given was loaded by that parser from a path that it found:
      here too no block is reused across packages. *)
Theorem file_cache_scope :
  (∀ fp parser run source_file,
     _loaded_file_cache (self run) !! search_key fp = None →
     load_file parser fp = Ok source_file →
     let block := {| file := source_file |} in
     ∃ run1,
       _get_file fp parser run = Ok (block, run1) ∧
       calls (process run1)
       = calls (process run) ++ [load_file_call parser fp] ∧
       _loaded_file_cache (self run1) !! search_key fp = Some block ∧
       ∀ fp' parser' run',
         search_key fp' = search_key fp →
         _loaded_file_cache (self run') !! search_key fp = Some block →
         _get_file fp' parser' run' = Ok (block, run')) ∧
  (∀ project run,
     parse_project project run
     = for_each (project_parsers project run)
         (λ parser, for_each (search parser)
                      (λ fp, parse_with_cache fp parser))
         (set_self (set_loaded_file_cache ∅ (self run)) run)) ∧
  (∀ project run run',
     parse_project project run = Ok ((), run') →
     ∃ new,
       calls (process run') = calls (process run) ++ new ∧
       NoDup (loaded_keys new) ∧
       ∀ parser block,
         parse_file_call parser block ∈ new →
         parser_project parser = project ∧
         ∃ parser' fp',
           load_file_call parser' fp' ∈ new ∧
           parser_project parser' = project ∧
           load_file parser' fp' = Ok (file block)) ∧
  (∀ run macro_manifest run',
     _loaded_file_cache (self run) = ∅ →
     create_macro_manifest run = Ok (macro_manifest, run') →
     (∀ project fp,
        project ∈ (all_projects (self run)).*2 →
        fp ∈ search (macro_parser project) →
        is_Some (_loaded_file_cache (self run') !! search_key fp)) ∧
     (macro_files_kept_apart (all_projects (self run)).*2 →
      ∃ new,
        calls (process run') = calls (process run) ++ new ∧
        NoDup (loaded_keys new) ∧
        ∀ parser block,
          parse_file_call parser block ∈ new →
          ∃ fp', fp' ∈ search parser ∧
                 load_file_call parser fp' ∈ new ∧
                 load_file parser fp' = Ok (file block))).
Proof.
  split; [|split; [|split]].
  - intros fp parser run source_file Hmiss Hload block.
    destruct (_get_file_memoizes _ _ _ _ Hmiss Hload) as (? & ? & ? & ?).
    by eexists.
  - intros project run. apply parse_project_clears_cache.
  - intros project run run'
      [(new & Hcalls & Hnodup & _ & _ & Hloads & Hparses) _]%parse_project_pass.
    exists new. split; [done|]. split; [done|].
    intros parser block (fp & parser' & fp' & [Hp ?] & Hin & ? & ?)%Hparses.
    split; [by apply elem_of_project_parsers in Hp|].
    exists parser', fp'. split; [done|]. split; [|done].
    destruct (Hloads _ _ Hin) as [Hp' ?].
    by apply elem_of_project_parsers in Hp'.
  - intros run macro_manifest run' Hempty Hcreate.
    destruct (create_macro_manifest_pass _ _ _ Hempty Hcreate)
      as [(new & Hcalls & Hnodup & _ & _ & Hloads & Hparses) Hcover].
    split.
    + intros project fp Hproject Hfp.
      apply (Hcover (macro_parser project)). by exists project.
    + intros Hapart. exists new. split; [done|]. split; [done|].
      intros parser block
        (fp & parser' & fp' & (project & Hproject & -> & Hfp) & Hin & Hkey
         & Hload)%Hparses.
      destruct (Hloads _ _ Hin) as (project' & Hproject' & -> & Hfp').
      rewrite (Hapart project project' fp fp') in * by done.
      by exists fp'.
Qed.

Lemma create_macro_manifest_macro_hook hook run :
  create_macro_manifest (with_macro_hook hook run)
  = match create_macro_manifest run with
    | Ok (mm, run') => Ok (mm, with_macro_hook hook run')
    | Raise e => Raise e
    end.
Proof.
  rewrite !create_macro_manifest_unfold. simpl.
  rewrite (for_each_commutes (with_macro_hook hook)).
  - by destruct (for_each _ _ run) as [[[] run1]|].
  - intros project s.
    apply (for_each_commutes (with_macro_hook hook)).
    intros fp t. apply parse_with_cache_macro_hook.
Qed.

Lemma __init___macro_hook config projects hook hook' w :
  __init__ config projects (Some hook) w
  = match __init__ config projects (Some hook') w with
    | Ok self => Ok (set_macro_hook hook self)
    | Raise e => Raise e
    end.
Proof.
  unfold __init__. unfold mbind, result_bind.
  destruct (build_manifest_state_check config projects w) as [sc|]; [|done].
  unfold read_saved_manifest, _partial_parse_enabled, try_except,
    mbind, result_bind. simpl.
  destruct flags_PARTIAL_PARSE as [[]|]; simpl;
    [|done|destruct (partial_parse config) as [[]|]; simpl; [|done..]];
    (destruct (path_exists _ w); [|done];
     destruct (pickle_load _ w) as [saved|]; [|done];
     by destruct (matching_parse_results _ saved)).
Qed.

(** X11: [load_macros] never calls the hook that it is given: its outcome
    is the same for any two hooks.  When it returns, it has not touched the
    file system or the macro manifest that the adapter has, and the calls
    made to the parsers before it are still on record. *)
Theorem load_macros_spec root_config p :
  (∀ hook hook', load_macros root_config hook p
                 = load_macros root_config hook' p) ∧
  (∀ hook macro_manifest p',
     load_macros root_config hook p = Ok (macro_manifest, p') →
     world p' = world p ∧
     _macro_manifest_lazy p' = _macro_manifest_lazy p ∧
     calls p `prefix_of` calls p').
Proof.
  split.
  - intros hook hook'. unfold load_macros.
    unfold mbind, M_bind, lift, get, zoom.
    destruct (load_dependencies root_config) as [projects|]; [|done].
    rewrite (__init___macro_hook _ _ hook hook').
    destruct (__init__ root_config projects (Some hook') (world p))
      as [loader|]; [|done].
    change {| self := set_macro_hook hook loader; process := p |}
      with (with_macro_hook hook {| self := loader; process := p |}).
    rewrite create_macro_manifest_macro_hook.
    by destruct (create_macro_manifest _) as [[mm run']|].
  - intros hook mm p'. unfold load_macros.
    unfold mbind, M_bind, lift, get, zoom.
    destruct (load_dependencies root_config) as [projects|]; [|done].
    destruct (__init__ _ _ _ _) as [loader|]; [|done].
    destruct (create_macro_manifest _) as [[mm' run']|] eqn:Hcreate; [|done].
    intros [= <- <-].
    by apply create_macro_manifest_frame
      in Hcreate as [(_ & _ & _ & _ & ? & ? & _ & ?) _].
Qed.

(** Steps that leave the adapter's macro manifest alone. *)
Lemma keeps_macro_manifest_lazy_ret {A} (a : A) :
  keeps_macro_manifest_lazy (mret a).
Proof. by intros run a' run' [= _ <-]. Qed.

Lemma keeps_macro_manifest_lazy_bind {A B} (c : M Run A) (f : A → M Run B) :
  keeps_macro_manifest_lazy c → (∀ a, keeps_macro_manifest_lazy (f a)) →
  keeps_macro_manifest_lazy (c ≫= f).
Proof.
  intros Hc Hf run b run'. unfold mbind, M_bind.
  destruct (c run) as [[a run1]|] eqn:E; [|done].
  intros Hrun'. rewrite (Hf _ _ _ _ Hrun'). by apply (Hc _ a).
Qed.

Lemma keeps_macro_manifest_lazy_get : keeps_macro_manifest_lazy get.
Proof. by intros run a run' [= _ <-]. Qed.

Lemma keeps_macro_manifest_lazy_lift {A} (r : result A) :
  keeps_macro_manifest_lazy (lift r).
Proof. intros run a run'. unfold lift. destruct r; by intros [= _ <-]. Qed.

Lemma keeps_macro_manifest_lazy_on_self_manifest {A} (c : M Manifest A) :
  keeps_macro_manifest_lazy (on_self_manifest c).
Proof.
  intros run a run'. unfold on_self_manifest, zoom.
  destruct (c _) as [[a' m]|]; by intros [= _ <-].
Qed.

Lemma keeps_macro_manifest_lazy_on_world (f : World → result World) :
  keeps_macro_manifest_lazy (on_world f).
Proof.
  intros run a run'. unfold on_world, zoom, update.
  destruct (f _) as [w|]; by intros [= _ <-].
Qed.

Lemma keeps_macro_manifest_lazy_on_env {A} (c : M Env A) :
  keeps_macro_manifest_lazy (on_env c).
Proof.
  intros run a run'. unfold on_env, zoom.
  destruct (c _) as [[a' env]|]; by intros [= _ <-].
Qed.

Ltac solve_keeps_macro_manifest_lazy :=
  repeat first
    [ apply keeps_macro_manifest_lazy_ret
    | apply keeps_macro_manifest_lazy_get
    | apply keeps_macro_manifest_lazy_lift
    | apply keeps_macro_manifest_lazy_on_self_manifest
    | apply keeps_macro_manifest_lazy_on_world
    | apply keeps_macro_manifest_lazy_on_env
    | apply keeps_macro_manifest_lazy_bind; [|intros ?] ].

Lemma keeps_macro_manifest_lazy_write :
  keeps_macro_manifest_lazy write_manifest_for_partial_parse.
Proof. unfold write_manifest_for_partial_parse. solve_keeps_macro_manifest_lazy. Qed.

Lemma keeps_macro_manifest_lazy_after_write config :
  keeps_macro_manifest_lazy (after_write config).
Proof.
  unfold after_write, update_manifest, process_manifest.
  solve_keeps_macro_manifest_lazy.
Qed.

(** X12: when [get_full_manifest] returns, the adapter has a macro
    manifest, on which the query-header hook has been called and has
    returned; without [reset], an adapter that had a macro manifest
    before keeps that one. *)
Theorem get_full_manifest_leaves_macro_manifest config reset p m p' :
  get_full_manifest config reset p = Ok (m, p') →
  ∃ macro_manifest,
    _macro_manifest_lazy p' = Some macro_manifest ∧
    set_query_header macro_manifest = Ok () ∧
    (reset = false → ∀ cached, _macro_manifest_lazy p = Some cached →
                     macro_manifest = cached).
Proof.
  destruct (run_of_load config reset p) as [run|e] eqn:Hload.
  2:{ revert Hload. unfold run_of_load, get_full_manifest.
      unfold zoom, mbind, M_bind, result_bind, lift, get.
      replace ((if reset then modify (set_macro_manifest_lazy None)
                else mret ()) p)
        with (Ok ((), if reset then set_macro_manifest_lazy None p else p)
              : result (unit * Process)) by by destruct reset.
      destruct (load_dependencies config) as [projects|]; [|done].
      destruct (__init__ _ _ _ _) as [loader|]; [|done].
      destruct (load_macros_from_adapter _) as [[[] run1]|]; [|done].
      by destruct (load run1) as [[[] run2]|]. }
  rewrite (get_full_manifest_unfold _ _ _ _ Hload).
  destruct (write_manifest_for_partial_parse run) as [[[] run1]|] eqn:Hwrite;
    [|done].
  destruct (after_write config run1) as [[m' run2]|] eqn:Hafter; [|done].
  intros [= <- <-].
  rewrite (keeps_macro_manifest_lazy_after_write _ _ _ _ Hafter).
  rewrite (keeps_macro_manifest_lazy_write _ _ _ Hwrite).
  revert Hload. unfold run_of_load. unfold mbind at 1 2, result_bind.
  destruct (load_dependencies config) as [projects|]; [|done].
  destruct (__init__ _ _ _ _) as [loader|] eqn:Hinit; [|done].
  unfold mbind, M_bind.
  destruct (load_macros_from_adapter _) as [[[] run0]|] eqn:Hmacros; [|done].
  destruct (load run0) as [[[] run0']|] eqn:Hparse; [|done].
  intros [= <-].
  apply load_frame in Hparse as (_ & _ & _ & _ & _ & -> & _).
  destruct (load_started_frame run0) as (_ & _ & -> & _).
  apply load_macros_from_adapter_post in Hmacros
    as (mm & Hmm & _ & _ & Hhook & _ & Hcached & _).
  exists mm. split; [done|]. split.
  - revert Hhook. simpl. unfold __init__ in Hinit.
    unfold mbind, result_bind, mret, result_ret in Hinit.
    destruct (build_manifest_state_check _ _ _); [|done].
    destruct (read_saved_manifest _ _); [|done].
    by injection Hinit as <-.
  - intros -> cached Hp. by destruct (Hcached cached Hp).
Qed.

#[local] Instance resolve_frame_preorder : PreOrder resolve_frame.
Proof.
  split.
  - by intros run.
  - intros r1 r2 r3 (?&?&?&?&?&?&?&?) (?&?&?&?&?&?&?&?).
    repeat split; congruence.
Qed.

Lemma relates_ret {A} (R : relation Run) `{!Reflexive R} (a : A) :
  relates R (mret a).
Proof. by intros run a' run' [= _ <-]. Qed.

Lemma relates_get (R : relation Run) `{!Reflexive R} : relates R get.
Proof. by intros run a run' [= _ <-]. Qed.

Lemma relates_lift {A} (R : relation Run) `{!Reflexive R} (r : result A) :
  relates R (lift r).
Proof. intros run a run'. unfold lift. destruct r; by intros [= _ <-]. Qed.

Lemma relates_bind {A B} (R : relation Run) `{!Transitive R}
    (c : M Run A) (f : A → M Run B) :
  relates R c → (∀ a, relates R (f a)) → relates R (c ≫= f).
Proof.
  intros Hc Hf run b run'. unfold mbind, M_bind.
  destruct (c run) as [[a run1]|] eqn:E; [|done].
  intros Hrun'. trans run1; [by apply (Hc _ a)|by apply (Hf a _ b)].
Qed.

Lemma relates_on_self_manifest {A} (c : M Manifest A) :
  relates resolve_frame (on_self_manifest c).
Proof.
  intros run a run'. unfold on_self_manifest, zoom.
  destruct (c _) as [[a' m]|]; [|done]. intros [= _ <-]. by repeat split.
Qed.

Lemma relates_on_env {A} (c : M Env A) : relates resolve_frame (on_env c).
Proof.
  intros run a run'. unfold on_env, zoom.
  destruct (c _) as [[a' env]|]; [|done]. intros [= _ <-]. by repeat split.
Qed.

Ltac solve_relates :=
  repeat first
    [ apply relates_ret; apply _
    | apply relates_get; apply _
    | apply relates_lift; apply _
    | apply relates_on_self_manifest
    | apply relates_on_env
    | apply relates_bind; [apply _| |intros ?] ].

Lemma update_manifest_frame : relates resolve_frame update_manifest.
Proof. unfold update_manifest, process_manifest. solve_relates. Qed.

Lemma after_write_frame config : relates resolve_frame (after_write config).
Proof.
  unfold after_write. apply relates_bind; [apply _|apply update_manifest_frame|].
  intros m. solve_relates.
Qed.


(** X25: a full load that returns has written the saved manifest, and
    that is all it has done to the file system: the file system afterwards
    is the one before with the target directory made and the loader's
    manifest, as it was when [load] had returned, pickled into
    [partial_parse.pickle]; and no parser is called after [load]. *)
Theorem get_full_manifest_writes_once config reset p m p' :
  get_full_manifest config reset p = Ok (m, p') →
  ∃ run w,
    run_of_load config reset p = Ok run ∧
    make_directory (target_path config) (world p) = Ok w ∧
    pickle_dump (path_join (target_path config) PARTIAL_PARSE_FILE_NAME)
                (manifest (self run)) w = Ok (world p') ∧
    calls p' = calls (process run).
Proof.
  destruct (run_of_load config reset p) as [run|e] eqn:Hload.
  2:{ revert Hload. unfold run_of_load, get_full_manifest.
      unfold zoom, mbind, M_bind, result_bind, lift, get.
      replace ((if reset then modify (set_macro_manifest_lazy None)
                else mret ()) p)
        with (Ok ((), if reset then set_macro_manifest_lazy None p else p)
              : result (unit * Process)) by by destruct reset.
      destruct (load_dependencies config) as [projects|]; [|done].
      destruct (__init__ _ _ _ _) as [loader|]; [|done].
      destruct (load_macros_from_adapter _) as [[[] run1]|]; [|done].
      by destruct (load run1) as [[[] run2]|]. }
  rewrite (get_full_manifest_unfold _ _ _ _ Hload).
  assert (Hworld : world (process run) = world p).
  { revert Hload. unfold run_of_load. unfold mbind at 1 2, result_bind.
    destruct (load_dependencies config) as [projects|]; [|done].
    destruct (__init__ _ _ _ _) as [loader|]; [|done].
    unfold mbind, M_bind.
    destruct (load_macros_from_adapter _) as [[[] run0]|] eqn:Hmacros;
      [|done].
    destruct (load run0) as [[[] run0']|] eqn:Hparse; [|done].
    intros [= <-].
    apply load_frame in Hparse as (_ & _ & _ & _ & -> & _).
    destruct (load_started_frame run0) as (_ & -> & _).
    apply load_macros_from_adapter_post in Hmacros
      as (mm & _ & _ & _ & _ & -> & _).
    simpl. by destruct reset. }
  pose proof (run_of_load_root_project _ _ _ _ Hload) as Hconfig.
  unfold write_manifest_for_partial_parse. unfold_monad. simpl.
  rewrite Hconfig, Hworld.
  destruct (make_directory (target_path config) (world p)) as [w|]; [|done].
  simpl.
  destruct (pickle_dump _ (manifest (self run)) w) as [w'|] eqn:Hdump;
    [|done].
  simpl.
  destruct (after_write config _) as [[m' run2]|] eqn:Hafter; [|done].
  intros [= <- <-]. exists run, w. split; [done|]. split; [done|].
  apply after_write_frame in Hafter as (_ & _ & _ & _ & _ & Hw & _ & Hcalls).
  simpl in Hw, Hcalls. rewrite Hw, Hcalls. by rewrite Hdump.
Qed.

End parse_pass_properties.

(** ** The counts of a pass *)

Section perf_properties.
Context `{FileHashOps} `{!ManifestOps} `{!ParserOps} `{!SystemOps} `{!LoadOps}.
Implicit Types (run : Run) (info : Perf.ManifestLoaderInfo).

Lemma for_each_cons {σ A} (x : A) (l : list A) (body : A → M σ unit) (s : σ) :
  for_each (x :: l) body s
  = match body x s with
    | Ok (_, s1) => for_each l body s1
    | Raise e => Raise e
    end.
Proof. simpl. unfold mbind, M_bind. by destruct (body x s) as [[[] s1]|]. Qed.

Lemma for_each_on_cons {σ A B} (x : A) (l : list A) (body : B → A → M σ B)
    (b : B) (s : σ) :
  for_each_on (x :: l) body b s
  = match body b x s with
    | Ok (b1, s1) => for_each_on l body b1 s1
    | Raise e => Raise e
    end.
Proof. reflexivity. Qed.

(** The loop over the paths of a parser counts the paths. *)
Lemma count_paths (p : Parser) (l : list FilePath) (n : nat) run info :
  for_each_on l
    (λ parser_path_count path,
       Perf.on_run (parse_with_cache path p);;
       mret (parser_path_count + 1)) n (run, info)
  = match for_each l (λ path, parse_with_cache path p) run with
    | Ok (_, run') => Ok (n + length l, (run', info))
    | Raise e => Raise e
    end.
Proof.
  revert n run. induction l as [|path l IH]; intros n run.
  - simpl. by rewrite Nat.add_0_r.
  - rewrite for_each_on_cons, for_each_cons.
    unfold mbind, M_bind, Perf.on_run, zoom, mret, M_ret. simpl.
    destruct (parse_with_cache path p run) as [[[] run1]|]; [|done].
    rewrite IH.
    destruct (for_each l _ run1) as [[[] run2]|]; [|done].
    by replace (n + 1 + length l) with (n + S (length l)) by lia.
Qed.

(** The loop over the parsers of a project collects the counts. *)
Lemma count_parsers (ps : list Parser) (infos : list Perf.ParserInfo)
    (total : nat) run info :
  for_each_on ps
    (λ '(project_parser_info, total_path_count) parser,
       parser_path_count ←
         for_each_on (search parser)
           (λ parser_path_count path,
              Perf.on_run (parse_with_cache path parser);;
              mret (parser_path_count + 1))
           0;
       if decide (0 < parser_path_count) then
         mret (project_parser_info
               ++ [{| Perf.parser := parser_resource_type parser;
                      Perf.parser_path_count := parser_path_count |}],
               total_path_count + parser_path_count)
       else mret (project_parser_info, total_path_count))
    (infos, total) (run, info)
  = match for_each ps (λ parser, for_each (search parser)
                                   (λ path, parse_with_cache path parser))
                   run with
    | Ok (_, run') =>
        Ok ((infos ++ Perf.parser_infos ps, total + Perf.paths_found ps),
            (run', info))
    | Raise e => Raise e
    end.
Proof.
  revert infos total run. induction ps as [|p ps IH]; intros infos total run.
  - simpl. unfold Perf.parser_infos, Perf.paths_found. simpl.
    by rewrite (right_id_L [] (++)), Nat.add_0_r.
  - rewrite for_each_on_cons, for_each_cons.
    unfold mbind at 1, M_bind at 1. rewrite count_paths.
    destruct (for_each (search p) _ run) as [[[] run1]|]; [|done].
    assert (Hinfos : Perf.parser_infos (p :: ps)
      = (if decide (0 < length (search p))
         then [{| Perf.parser := parser_resource_type p;
                  Perf.parser_path_count := length (search p) |}]
         else []) ++ Perf.parser_infos ps).
    { unfold Perf.parser_infos. simpl. by destruct (decide _). }
    assert (Hfound : Perf.paths_found (p :: ps)
                     = length (search p) + Perf.paths_found ps)
      by reflexivity.
    rewrite Hinfos, Hfound. simpl (0 + _).
    destruct (decide (0 < length (search p))) as [Hpos|Hzero];
      unfold mret, M_ret; rewrite IH;
      (destruct (for_each ps _ run1) as [[[] run2]|]; [|done]).
    + by rewrite <-(assoc_L (++)), Nat.add_assoc.
    + simpl. by replace (length (search p)) with 0 by lia.
Qed.

(** X13: keeping the counts does not change what [parse_project] does to
    the loader, and a pass that returns has added the number of paths that
    the parsers of the project find to [path_count], and one
    [ProjectLoaderInfo] to [projects], which has that number and one
    [ParserInfo] for every parser that finds at least one path, with the
    number of paths it finds. *)
Theorem parse_project_counts project run info :
  Perf.parse_project project (run, info)
  = match parse_project project run with
    | Ok (_, run') => Ok ((), (run', Perf.info_after project run info))
    | Raise e => Raise e
    end.
Proof.
  rewrite parse_project_clears_cache. unfold Perf.parse_project.
  unfold mbind at 1 2 3, M_bind at 1 2 3, get at 1.
  unfold Perf.on_run at 1, zoom, clear_loaded_file_cache, modify at 1.
  cbn [fst snd]. rewrite count_parsers.
  destruct (for_each _ _ _) as [[[] run1]|]; [|done].
  reflexivity.
Qed.

End perf_properties.

(** ** The passes over the mentions of a node *)

Section pass_properties.
Context `{FileHashOps} `{!ManifestOps} `{!DocsOps}.
Implicit Types (node : ManifestNode) (exposure : ParsedExposure) (env : Env).
Implicit Types (ref : list string) (current_project : string).

Lemma for_each_noop {σ A} (l : list A) (body : A → M σ unit) (s : σ) :
  (∀ x, x ∈ l → body x s = Ok ((), s)) → for_each l body s = Ok ((), s).
Proof.
  induction l as [|x l IH]; intros Hbody; simpl; [done|].
  unfold mbind, M_bind. rewrite Hbody by by left.
  apply IH. intros y Hy. apply Hbody. by right.
Qed.

(** What the body of a loop over the mentions of a node returns. *)
Lemma process_ref_for_node_result current_project node ref env node' env' :
  process_ref_for_node current_project node ref env = Ok (node', env') →
  (∃ target_id, node' = depends_on_append target_id node) ∨
  node' = set_enabled false node.
Proof.
  unfold process_ref_for_node. unfold mbind at 1, M_bind at 1, lift at 1.
  destruct (ref_arguments ref) as [[pkg name]|]; [|done].
  unfold mbind at 1, M_bind at 1, get at 1.
  destruct (resolve_ref _ _ _ _ _) as [target|target|].
  - unfold on_manifest, assign_node. unfold_monad. simpl.
    destruct (update_node _ _) as [m|]; [|done]. simpl.
    intros [= <- <-]. left. by eexists.
  - unfold mbind, M_bind, assign_node, modify, mret, M_ret.
    destruct (invalid_ref_fail_unless_test _ _ _ _ _) as [[[] env1]|]; [|done].
    intros [= <- <-]. by right.
  - unfold mbind, M_bind, assign_node, modify, mret, M_ret.
    destruct (invalid_ref_fail_unless_test _ _ _ _ _) as [[[] env1]|]; [|done].
    intros [= <- <-]. by right.
Qed.

Lemma process_source_for_node_result current_project node mention env
    node' env' :
  process_source_for_node current_project node mention env = Ok (node', env') →
  (∃ target_id, node' = depends_on_append target_id node) ∨
  node' = set_enabled false node.
Proof.
  unfold process_source_for_node. destruct mention as [source_name table_name].
  unfold mbind at 1, M_bind at 1, get at 1.
  destruct (resolve_source _ _ _ _ _) as [target|target|].
  - unfold on_manifest, assign_node. unfold_monad. simpl.
    destruct (update_node _ _) as [m|]; [|done]. simpl.
    intros [= <- <-]. left. by eexists.
  - unfold mbind, M_bind, assign_node, modify, mret, M_ret.
    destruct (invalid_source_fail_unless_test _ _ _ _ _) as [[[] env1]|];
      [|done].
    intros [= <- <-]. by right.
  - unfold mbind, M_bind, assign_node, modify, mret, M_ret.
    destruct (invalid_source_fail_unless_test _ _ _ _ _) as [[[] env1]|];
      [|done].
    intros [= <- <-]. by right.
Qed.

(** A loop whose body appends a dependency or disables the node. *)
Lemma for_each_on_resolved_into {A} (body : ManifestNode → A → M Env ManifestNode)
    (l : list A) node env node' env' :
  (∀ node x env node' env',
     body node x env = Ok (node', env') →
     (∃ target_id, node' = depends_on_append target_id node) ∨
     node' = set_enabled false node) →
  for_each_on l body node env = Ok (node', env') →
  ∃ new, resolved_into (length l) new node node'.
Proof.
  intros Hbody. revert node env.
  induction l as [|x l IH]; intros node env; simpl.
  - intros [= <- <-]. exists []. split; [done|].
    rewrite (right_id_L [] (++)). split; [done|]. split; [done|].
    split; [done|]. by intros [? _].
  - unfold mbind, M_bind.
    destruct (body node x env) as [[n1 env1]|] eqn:Hx; [|done].
    intros (new & Hsame & Hdeps & Hlen & Hen)%IH.
    destruct (Hbody _ _ _ _ _ Hx) as [[target_id ->]| ->].
    + exists (target_id :: new). split; [done|]. split.
      { rewrite Hdeps. simpl. by rewrite <-(assoc_L (++)). }
      split; [simpl; lia|]. rewrite Hen. simpl. split.
      * intros [? ->]. done.
      * intros [? [= ?]]. done.
    + exists new. split; [done|]. split; [done|]. split; [lia|].
      rewrite Hen. simpl. split; [by intros [? _]|]. intros [_ ?]. lia.
Qed.

(** X14: when the pass over the refs of a node returns, the node has the
    unique id, package, resource type, refs and sources that it had; its
    dependencies are the former ones followed by new ones, at most one for
    every ref; and it is enabled exactly when it was enabled before and
    every ref has given a dependency.  The pass never enables a node and
    never removes a dependency. *)
Theorem _process_refs_for_node_invariants current_project node env node' env' :
  _process_refs_for_node current_project node env = Ok (node', env') →
  unique_id node' = unique_id node ∧
  package_name node' = package_name node ∧
  resource_type node' = resource_type node ∧
  refs node' = refs node ∧
  sources node' = sources node ∧
  ∃ new,
    depends_on_nodes node' = depends_on_nodes node ++ new ∧
    length new ≤ length (refs node) ∧
    (config_enabled node' = true ↔
     config_enabled node = true ∧ length new = length (refs node)).
Proof.
  intros (new & (? & ? & ? & ? & ?) & ? & ? & ?)%for_each_on_resolved_into;
    [|apply process_ref_for_node_result].
  do 5 (split; [done|]). by exists new.
Qed.

(** X15: the same for the pass over the sources of a node: identity,
    refs and sources are kept, the dependencies are the former ones
    followed by at most one for every source mention, and the node is
    enabled afterwards exactly when it was enabled before and every
    mention has given a dependency. *)
Theorem _process_sources_for_node_invariants current_project node env
    node' env' :
  _process_sources_for_node current_project node env = Ok (node', env') →
  unique_id node' = unique_id node ∧
  package_name node' = package_name node ∧
  resource_type node' = resource_type node ∧
  refs node' = refs node ∧
  sources node' = sources node ∧
  ∃ new,
    depends_on_nodes node' = depends_on_nodes node ++ new ∧
    length new ≤ length (sources node) ∧
    (config_enabled node' = true ↔
     config_enabled node = true ∧ length new = length (sources node)).
Proof.
  intros (new & (? & ? & ? & ? & ?) & ? & ? & ?)%for_each_on_resolved_into;
    [|apply process_source_for_node_result].
  do 5 (split; [done|]). by exists new.
Qed.

(** What the body of a loop over the mentions of an exposure returns. *)
Lemma process_ref_for_exposure_result current_project exposure ref env
    exposure' env' :
  process_ref_for_exposure current_project exposure ref env
  = Ok (exposure', env') →
  (∃ target_id, exposure' = exp_depends_on_append target_id exposure) ∨
  exposure' = exposure.
Proof.
  unfold process_ref_for_exposure. unfold mbind at 1, M_bind at 1, lift at 1.
  destruct (ref_arguments ref) as [[pkg name]|]; [|done].
  unfold mbind at 1, M_bind at 1, get at 1.
  destruct (resolve_ref _ _ _ _ _) as [target|target|].
  - unfold on_manifest, assign_exposure. unfold_monad. simpl.
    destruct (update_exposure _ _) as [m|]; [|done]. simpl.
    intros [= <- <-]. left. by eexists.
  - unfold mbind, M_bind, mret, M_ret.
    destruct (invalid_ref_fail_unless_test _ _ _ _ _) as [[[] env1]|]; [|done].
    intros [= <- <-]. by right.
  - unfold mbind, M_bind, mret, M_ret.
    destruct (invalid_ref_fail_unless_test _ _ _ _ _) as [[[] env1]|]; [|done].
    intros [= <- <-]. by right.
Qed.

Lemma process_source_for_exposure_result current_project exposure mention
    env exposure' env' :
  process_source_for_exposure current_project exposure mention env
  = Ok (exposure', env') →
  (∃ target_id, exposure' = exp_depends_on_append target_id exposure) ∨
  exposure' = exposure.
Proof.
  unfold process_source_for_exposure.
  destruct mention as [source_name table_name].
  unfold mbind at 1, M_bind at 1, get at 1.
  destruct (resolve_source _ _ _ _ _) as [target|target|].
  - unfold on_manifest, assign_exposure. unfold_monad. simpl.
    destruct (update_exposure _ _) as [m|]; [|done]. simpl.
    intros [= <- <-]. left. by eexists.
  - unfold mbind, M_bind, mret, M_ret.
    destruct (invalid_source_fail_unless_test _ _ _ _ _) as [[[] env1]|];
      [|done].
    intros [= <- <-]. by right.
  - unfold mbind, M_bind, mret, M_ret.
    destruct (invalid_source_fail_unless_test _ _ _ _ _) as [[[] env1]|];
      [|done].
    intros [= <- <-]. by right.
Qed.

(** A loop whose body appends a dependency to the exposure or leaves it
    alone. *)
Lemma for_each_on_appended {A}
    (body : ParsedExposure → A → M Env ParsedExposure)
    (l : list A) exposure env exposure' env' :
  (∀ exposure x env exposure' env',
     body exposure x env = Ok (exposure', env') →
     (∃ target_id, exposure' = exp_depends_on_append target_id exposure) ∨
     exposure' = exposure) →
  for_each_on l body exposure env = Ok (exposure', env') →
  exp_unique_id exposure' = exp_unique_id exposure ∧
  exp_package_name exposure' = exp_package_name exposure ∧
  exp_refs exposure' = exp_refs exposure ∧
  exp_sources exposure' = exp_sources exposure ∧
  ∃ new, exp_depends_on_nodes exposure'
         = exp_depends_on_nodes exposure ++ new ∧
         length new ≤ length l.
Proof.
  intros Hbody. revert exposure env.
  induction l as [|x l IH]; intros exposure env; simpl.
  - intros [= <- <-]. do 4 (split; [done|]). exists [].
    by rewrite (right_id_L [] (++)).
  - unfold mbind, M_bind.
    destruct (body exposure x env) as [[e1 env1]|] eqn:Hx; [|done].
    intros (? & ? & ? & ? & new & Hdeps & Hlen)%IH.
    destruct (Hbody _ _ _ _ _ Hx) as [[target_id ->]| ->].
    + do 4 (split; [done|]). exists (target_id :: new). split.
      * rewrite Hdeps. simpl. by rewrite <-(assoc_L (++)).
      * simpl. lia.
    + do 4 (split; [done|]). exists new. split; [done|]. lia.
Qed.

(** X26: when the pass over the refs of an exposure, or the one over its
    sources, returns, the exposure has the unique id, package, refs and
    sources that it had, and its dependencies are the former ones followed
    by new ones, at most one for every mention.  No dependency is ever
    removed. *)
Theorem exposure_passes_invariants current_project exposure env exposure'
    env' :
  (_process_refs_for_exposure current_project exposure env
   = Ok (exposure', env') →
   exp_unique_id exposure' = exp_unique_id exposure ∧
   exp_package_name exposure' = exp_package_name exposure ∧
   exp_refs exposure' = exp_refs exposure ∧
   exp_sources exposure' = exp_sources exposure ∧
   ∃ new, exp_depends_on_nodes exposure'
          = exp_depends_on_nodes exposure ++ new ∧
          length new ≤ length (exp_refs exposure)) ∧
  (_process_sources_for_exposure current_project exposure env
   = Ok (exposure', env') →
   exp_unique_id exposure' = exp_unique_id exposure ∧
   exp_package_name exposure' = exp_package_name exposure ∧
   exp_refs exposure' = exp_refs exposure ∧
   exp_sources exposure' = exp_sources exposure ∧
   ∃ new, exp_depends_on_nodes exposure'
          = exp_depends_on_nodes exposure ++ new ∧
          length new ≤ length (exp_sources exposure)).
Proof.
  split; intros Hpass.
  - apply (for_each_on_appended _ _ _ _ _ _
             (process_ref_for_exposure_result current_project) Hpass).
  - apply (for_each_on_appended _ _ _ _ _ _
             (process_source_for_exposure_result current_project) Hpass).
Qed.

(** X16: when [process_node] returns, the descriptions of the node have
    been rendered, the node has kept its unique id, package and resource
    type, and its dependencies are the former ones, followed by those of
    its source mentions, followed by those of its refs; it is enabled
    exactly when it was enabled before and every mention of a source and
    every ref has given a dependency. *)
Theorem process_node_spec config node env node' env' :
  process_node config node env = Ok (node', env') →
  render_node_docs config node' (env_manifest env') = Ok () ∧
  unique_id node' = unique_id node ∧
  package_name node' = package_name node ∧
  resource_type node' = resource_type node ∧
  ∃ from_sources from_refs,
    depends_on_nodes node'
    = depends_on_nodes node ++ from_sources ++ from_refs ∧
    length from_sources ≤ length (sources node) ∧
    length from_refs ≤ length (refs node) ∧
    (config_enabled node' = true ↔
     config_enabled node = true ∧
     length from_sources = length (sources node) ∧
     length from_refs = length (refs node)).
Proof.
  unfold process_node. unfold mbind at 1, M_bind at 1.
  destruct (_process_sources_for_node _ node env) as [[n1 env1]|] eqn:Hs;
    [|done].
  unfold mbind at 1, M_bind at 1.
  destruct (_process_refs_for_node _ n1 env1) as [[n2 env2]|] eqn:Hr; [|done].
  unfold_monad.
  destruct (render_node_docs config n2 (env_manifest env2)) as [[]|] eqn:Hdocs;
    [|done].
  intros [= <- <-]. split; [done|].
  apply for_each_on_resolved_into in Hs
    as (from_sources & (? & ? & ? & Hrefs & ?) & Hd1 & ? & Hen1);
    [|apply process_source_for_node_result].
  apply for_each_on_resolved_into in Hr
    as (from_refs & (? & ? & ? & ? & ?) & Hd2 & ? & Hen2);
    [|apply process_ref_for_node_result].
  rewrite Hrefs in *.
  do 3 (split; [congruence|]).
  exists from_sources, from_refs.
  split; [by rewrite Hd2, Hd1, <-(assoc_L (++))|].
  split; [done|]. split; [done|]. rewrite Hen2, Hen1. tauto.
Qed.

Lemma for_each_node_noop (body : ManifestNode → M Env unit) env :
  (∀ uid node, nodes (env_manifest env) !! uid = Some node →
               body node env = Ok ((), env)) →
  for_each_node body env = Ok ((), env).
Proof.
  intros Hbody. unfold for_each_node, mbind, M_bind, get.
  apply for_each_noop. intros uid _.
  destruct (nodes (env_manifest env) !! uid) as [node|] eqn:E; [|done].
  by apply (Hbody uid).
Qed.

Lemma for_each_exposure_noop (body : ParsedExposure → M Env unit) env :
  (∀ uid exposure, exposures (env_manifest env) !! uid = Some exposure →
                   body exposure env = Ok ((), env)) →
  for_each_exposure body env = Ok ((), env).
Proof.
  intros Hbody. unfold for_each_exposure, mbind, M_bind, get.
  apply for_each_noop. intros uid _.
  destruct (exposures (env_manifest env) !! uid) as [exposure|] eqn:E;
    [|done].
  by apply (Hbody uid).
Qed.

(** X17: [process_refs] returns and leaves the manifest and the log as
    they are when no node and no exposure has a ref; so does
    [process_sources] when no exposure has a source mention and every node
    with one has resource type [Source]: the mentions of these nodes are
    not looked at. *)
Theorem passes_without_mentions current_project env :
  ((∀ uid node, nodes (env_manifest env) !! uid = Some node →
                refs node = []) →
   (∀ uid exposure, exposures (env_manifest env) !! uid = Some exposure →
                    exp_refs exposure = []) →
   process_refs current_project env = Ok ((), env)) ∧
  ((∀ uid node, nodes (env_manifest env) !! uid = Some node →
                resource_type node = Source ∨ sources node = []) →
   (∀ uid exposure, exposures (env_manifest env) !! uid = Some exposure →
                    exp_sources exposure = []) →
   process_sources current_project env = Ok ((), env)).
Proof.
  split; intros Hnodes Hexposures.
  - unfold process_refs. unfold mbind at 1, M_bind at 1.
    rewrite for_each_node_noop.
    + apply for_each_exposure_noop. intros uid exposure E.
      unfold _process_refs_for_exposure. by rewrite (Hexposures _ _ E).
    + intros uid node E.
      unfold _process_refs_for_node. by rewrite (Hnodes _ _ E).
  - unfold process_sources. unfold mbind at 1, M_bind at 1.
    rewrite for_each_node_noop.
    + apply for_each_exposure_noop. intros uid exposure E.
      unfold _process_sources_for_exposure. by rewrite (Hexposures _ _ E).
    + intros uid node E.
      destruct (decide (resource_type node = Source)); [done|].
      unfold _process_sources_for_node.
      destruct (Hnodes _ _ E) as [?| ->]; done.
Qed.

End pass_properties.

(** ** Mentions that do not resolve *)

Section unresolved_mentions.
Context `{FileHashOps} `{!ManifestOps}.
Implicit Types (node : ManifestNode) (exposure : ParsedExposure) (env : Env).
Implicit Types (ref : list string) (current_project : string).

(** A loop that gets as far as [x]: what the body does there decides how
    it goes on. *)
Lemma for_each_on_reaches {σ A B} (before after : list A) (x : A)
    (body : B → A → M σ B) (b b1 : B) (s s1 : σ) :
  for_each_on before body b s = Ok (b1, s1) →
  for_each_on (before ++ x :: after) body b s
  = match body b1 x s1 with
    | Ok (b2, s2) => for_each_on after body b2 s2
    | Raise e => Raise e
    end.
Proof. intros Hbefore. by rewrite for_each_on_app, Hbefore. Qed.

(** The message about a test with a mention that does not resolve, and
    the assignment to [node.config.enabled] before it. *)
Lemma test_told env node (msg : Message) (disabled : bool) :
  let env2 :=
    logged (if disabled then DEBUG else WARNING) (warning_tag msg)
           (node_assigned (set_enabled false node) env) in
  (if disabled then log DEBUG (warning_tag msg)
   else warn_or_error msg warning_tag)
    (node_assigned (set_enabled false node) env) = Ok ((), env2) ∧
  logger env2
  = logger env ++ [{| level := if disabled then DEBUG else WARNING;
                      message := warning_tag msg |}] ∧
  nodes (env_manifest env2) !! unique_id node
  = (λ _, set_enabled false node) <$> nodes (env_manifest env) !! unique_id node.
Proof.
  simpl. split; [by destruct disabled|].
  unfold logged, node_assigned. simpl.
  destruct (decide (is_Some (nodes (env_manifest env) !! unique_id node)))
    as [[n Hn]|Hn]; simpl.
  - split; [done|]. by rewrite lookup_insert_eq, Hn.
  - split; [done|]. apply eq_None_not_Some in Hn. by rewrite Hn.
Qed.

(** When the rest of a pass returns for a node that has been disabled,
    the node is disabled, and what the pass has appended to its
    dependencies comes from the rest of the mentions. *)
Lemma disabled_for_good {A} (body : ManifestNode → A → M Env ManifestNode)
    (after : list A) node env node' env' :
  (∀ node x env node' env',
     body node x env = Ok (node', env') →
     (∃ target_id, node' = depends_on_append target_id node) ∨
     node' = set_enabled false node) →
  for_each_on after body (set_enabled false node) env = Ok (node', env') →
  config_enabled node' = false ∧
  ∃ new, depends_on_nodes node' = depends_on_nodes node ++ new ∧
         length new ≤ length after.
Proof.
  intros Hbody (new & _ & Hdeps & Hlen & Hen)%for_each_on_resolved_into;
    [|done].
  split; [|by exists new].
  destruct (config_enabled node'); [|done]. by destruct (proj1 Hen).
Qed.

(** C3, as the code has it.  When the pass over the refs of a node, or
    over its source mentions, reaches one that resolves to nothing or to a
    disabled target:
    - on a test the pass goes on with the rest of the mentions; the test
      has been marked disabled ([config.enabled = False], which the
      manifest sees when it holds the node) and stays so, nothing is
      appended to its dependencies for the mention, and one record is
      added to the log: the message under [warning_tag], at debug level
      when the target is disabled, as the warning of [warn_or_error] when
      it is missing;
    - on any other node the pass raises a compilation error, whose message
      is made from the node, the requested target and the flag that tells
      a disabled target from a missing one.
    An exposure is never a test: the passes over its refs and over its
    source mentions raise that error. *)
Theorem unresolved_mention_policy current_project :
  (∀ node env before ref after node1 env1 pkg name disabled,
     refs node = before ++ ref :: after →
     for_each_on before (process_ref_for_node current_project) node env
     = Ok (node1, env1) →
     ref_arguments ref = Ok (pkg, name) →
     unresolved (resolve_ref (env_manifest env1) name pkg current_project
                             (package_name node1)) = Some disabled →
     let msg :=
       target_not_found_or_disabled_msg (unique_id node1) name pkg disabled in
     let pass := _process_refs_for_node current_project node env in
     if decide (resource_type node1 = Test) then
       ∃ env2,
         pass = for_each_on after (process_ref_for_node current_project)
                            (set_enabled false node1) env2 ∧
         logger env2
         = logger env1 ++ [{| level := if disabled then DEBUG else WARNING;
                              message := warning_tag msg |}] ∧
         nodes (env_manifest env2) !! unique_id node1
         = (λ _, set_enabled false node1)
             <$> nodes (env_manifest env1) !! unique_id node1 ∧
         ∀ node' env',
           pass = Ok (node', env') →
           config_enabled node' = false ∧
           ∃ new, depends_on_nodes node' = depends_on_nodes node1 ++ new ∧
                  length new ≤ length after
     else pass = Raise (CompilationException msg)) ∧
  (∀ node env before source_name table_name after node1 env1 disabled,
     sources node = before ++ (source_name, table_name) :: after →
     for_each_on before (process_source_for_node current_project) node env
     = Ok (node1, env1) →
     unresolved (resolve_source (env_manifest env1) source_name table_name
                                current_project (package_name node1))
     = Some disabled →
     let msg :=
       source_not_found_or_disabled_msg
         (unique_id node1) source_name table_name disabled in
     let pass := _process_sources_for_node current_project node env in
     if decide (resource_type node1 = Test) then
       ∃ env2,
         pass = for_each_on after (process_source_for_node current_project)
                            (set_enabled false node1) env2 ∧
         logger env2
         = logger env1 ++ [{| level := if disabled then DEBUG else WARNING;
                              message := warning_tag msg |}] ∧
         nodes (env_manifest env2) !! unique_id node1
         = (λ _, set_enabled false node1)
             <$> nodes (env_manifest env1) !! unique_id node1 ∧
         ∀ node' env',
           pass = Ok (node', env') →
           config_enabled node' = false ∧
           ∃ new, depends_on_nodes node' = depends_on_nodes node1 ++ new ∧
                  length new ≤ length after
     else pass = Raise (CompilationException msg)) ∧
  (∀ exposure env before ref after exposure1 env1 pkg name disabled,
     exp_refs exposure = before ++ ref :: after →
     for_each_on before (process_ref_for_exposure current_project)
                 exposure env
     = Ok (exposure1, env1) →
     ref_arguments ref = Ok (pkg, name) →
     unresolved (resolve_ref (env_manifest env1) name pkg current_project
                             (exp_package_name exposure1)) = Some disabled →
     _process_refs_for_exposure current_project exposure env
     = Raise (CompilationException
                (target_not_found_or_disabled_msg
                   (exp_unique_id exposure1) name pkg disabled))) ∧
  (∀ exposure env before source_name table_name after exposure1 env1
     disabled,
     exp_sources exposure = before ++ (source_name, table_name) :: after →
     for_each_on before (process_source_for_exposure current_project)
                 exposure env
     = Ok (exposure1, env1) →
     unresolved (resolve_source (env_manifest env1) source_name table_name
                                current_project (exp_package_name exposure1))
     = Some disabled →
     _process_sources_for_exposure current_project exposure env
     = Raise (CompilationException
                (source_not_found_or_disabled_msg
                   (exp_unique_id exposure1) source_name table_name
                   disabled))).
Proof.
  split; [|split; [|split]].
  - intros node env before ref after node1 env1 pkg name disabled
      Hrefs Hbefore Href Hun msg pass.
    assert (Hpass :
      pass
      = match process_ref_for_node current_project node1 ref env1 with
        | Ok (node2, env2) =>
            for_each_on after (process_ref_for_node current_project)
                        node2 env2
        | Raise e => Raise e
        end).
    { unfold pass, _process_refs_for_node. rewrite Hrefs.
      by apply for_each_on_reaches. }
    rewrite (process_ref_for_node_unresolved _ _ _ _ _ _ _ Href Hun) in Hpass.
    unfold invalid_ref_fail_unless_test in Hpass. simpl in Hpass.
    destruct (decide (resource_type node1 = Test)) as [Ht|Ht]; [|done].
    destruct (test_told env1 node1 msg disabled) as (Htold & Hlog & Hnode).
    fold msg in Hpass. rewrite Htold in Hpass.
    eexists. split; [exact Hpass|]. split; [exact Hlog|].
    split; [exact Hnode|].
    intros node' env'. rewrite Hpass.
    apply disabled_for_good, process_ref_for_node_result.
  - intros node env before source_name table_name after node1 env1 disabled
      Hsources Hbefore Hun msg pass.
    assert (Hpass :
      pass
      = match process_source_for_node current_project node1
                (source_name, table_name) env1 with
        | Ok (node2, env2) =>
            for_each_on after (process_source_for_node current_project)
                        node2 env2
        | Raise e => Raise e
        end).
    { unfold pass, _process_sources_for_node. rewrite Hsources.
      by apply for_each_on_reaches. }
    rewrite (process_source_for_node_unresolved _ _ _ _ _ _ Hun) in Hpass.
    unfold invalid_source_fail_unless_test in Hpass. simpl in Hpass.
    destruct (decide (resource_type node1 = Test)) as [Ht|Ht]; [|done].
    destruct (test_told env1 node1 msg disabled) as (Htold & Hlog & Hnode).
    fold msg in Hpass. rewrite Htold in Hpass.
    eexists. split; [exact Hpass|]. split; [exact Hlog|].
    split; [exact Hnode|].
    intros node' env'. rewrite Hpass.
    apply disabled_for_good, process_source_for_node_result.
  - intros exposure env before ref after exposure1 env1 pkg name disabled
      Hrefs Hbefore Href Hun.
    unfold _process_refs_for_exposure. rewrite Hrefs.
    rewrite (for_each_on_reaches _ _ _ _ _ _ _ _ Hbefore).
    by rewrite (process_ref_for_exposure_unresolved _ _ _ _ _ _ _ Href Hun).
  - intros exposure env before source_name table_name after exposure1 env1
      disabled Hsources Hbefore Hun.
    unfold _process_sources_for_exposure. rewrite Hsources.
    rewrite (for_each_on_reaches _ _ _ _ _ _ _ _ Hbefore).
    by rewrite (process_source_for_exposure_unresolved _ _ _ _ _ _ Hun).
Qed.

End unresolved_mentions.

(** ** The uniqueness of resources *)

Section uniqueness_properties.
Context `{FileHashOps} `{!RelationOps}.
Implicit Types (config : RuntimeConfig) (node : ManifestNode).
Implicit Types (items done : list (UniqueId * ManifestNode)).
Implicit Types (seen : gmap string ManifestNode * gmap string ManifestNode).

Lemma check_resources_snoc config items item seen :
  check_resources config (items ++ [item]) seen
  = (seen' ← check_resources config items seen;
     check_resource config seen' item.2).
Proof. unfold check_resources. by rewrite foldl_app. Qed.

(** The loop, from empty dicts: either it has gone through all the items,
    which then have no two refable nodes of one name or of one relation,
    or it has stopped at the first item that clashes with one before
    it. *)
Lemma check_resources_outcome config items :
  NoDup items.*1 →
  match check_resources config items (∅, ∅) with
  | Ok seen =>
      seen_from config items seen ∧
      ∀ uid1 node1 uid2 node2,
        (uid1, node1) ∈ items → (uid2, node2) ∈ items → uid1 ≠ uid2 →
        resource_type node1 ∈ refable → resource_type node2 ∈ refable →
        node_name node1 ≠ node_name node2 ∧
        full_node_name config node1 ≠ full_node_name config node2
  | Raise e =>
      ∃ uid1 node1 uid2 node2,
        (uid1, node1) ∈ items ∧ (uid2, node2) ∈ items ∧ uid1 ≠ uid2 ∧
        resource_type node1 ∈ refable ∧ resource_type node2 ∈ refable ∧
        ((node_name node1 = node_name node2 ∧
          e = raise_duplicate_resource_name node1 node2) ∨
         (full_node_name config node1 = full_node_name config node2 ∧
          e = raise_ambiguous_alias node1 node2
                (full_node_name config node2)))
  end.
Proof.
  induction items as [|[uid node] items IH] using rev_ind; intros Hnodup.
  - simpl. split.
    + split; [|split]; simpl.
      * intros s node. by rewrite lookup_empty.
      * intros s node. by rewrite lookup_empty.
      * by intros ? ? ?%elem_of_nil.
    + by intros ? ? ? ? ?%elem_of_nil.
  - rewrite fmap_app in Hnodup.
    apply NoDup_app in Hnodup as (Hnodup & Hfresh & _).
    assert (Hnew : ∀ uid' node', (uid', node') ∈ items → uid' ≠ uid).
    { intros uid' node' Hin ->. apply (Hfresh uid); [|by left].
      apply list_elem_of_fmap. by exists (uid, node'). }
    specialize (IH Hnodup). rewrite check_resources_snoc.
    destruct (check_resources config items (∅, ∅))
      as [[names_resources alias_resources]|e]; simpl.
    2:{ destruct IH as (uid1 & node1 & uid2 & node2 & ? & ? & ?).
        exists uid1, node1, uid2, node2.
        split; [apply elem_of_app; by left|].
        split; [apply elem_of_app; by left|done]. }
    destruct IH as [(Hnames & Haliases & Hseen) Hunique]. simpl in *.
    destruct (decide (resource_type node ∉ refable)) as [Hskip|Hrefable].
    { split.
      - split; [|split]; simpl.
        + intros s node' (? & ? & uid' & ?)%Hnames. split; [done|].
          split; [done|]. exists uid'. apply elem_of_app. by left.
        + intros s node' (? & ? & uid' & ?)%Haliases. split; [done|].
          split; [done|]. exists uid'. apply elem_of_app. by left.
        + intros uid' node' [?|[= -> ->]%list_elem_of_singleton]%elem_of_app;
            [by apply (Hseen uid')|done].
      - intros uid1 node1 uid2 node2
          [?|[= -> ->]%list_elem_of_singleton]%elem_of_app
          [?|[= -> ->]%list_elem_of_singleton]%elem_of_app; try done.
        by apply Hunique. }
    apply dec_stable in Hrefable.
    destruct (names_resources !! node_name node) as [existing_node|] eqn:Hname.
    { destruct (Hnames _ _ Hname) as (? & ? & uid' & Hin).
      exists uid', existing_node, uid, node.
      split; [apply elem_of_app; by left|].
      split; [apply elem_of_app; right; by left|].
      split; [by apply (Hnew _ _ Hin)|]. split; [done|]. split; [done|].
      by left. }
    destruct (alias_resources !! full_node_name config node)
      as [existing_alias|] eqn:Halias.
    { destruct (Haliases _ _ Halias) as (? & ? & uid' & Hin).
      exists uid', existing_alias, uid, node.
      split; [apply elem_of_app; by left|].
      split; [apply elem_of_app; right; by left|].
      split; [by apply (Hnew _ _ Hin)|]. split; [done|]. split; [done|].
      by right. }
    split.
    + split; [|split]; simpl.
      * intros s node'.
        destruct (decide (s = node_name node)) as [->|Hne].
        -- rewrite lookup_insert_eq. intros [= <-]. split; [done|].
           split; [done|]. exists uid. apply elem_of_app. right. by left.
        -- rewrite lookup_insert_ne by done.
           intros (? & ? & uid' & ?)%Hnames. split; [done|].
           split; [done|]. exists uid'. apply elem_of_app. by left.
      * intros s node'.
        destruct (decide (s = full_node_name config node)) as [->|Hne].
        -- rewrite lookup_insert_eq. intros [= <-]. split; [done|].
           split; [done|]. exists uid. apply elem_of_app. right. by left.
        -- rewrite lookup_insert_ne by done.
           intros (? & ? & uid' & ?)%Haliases. split; [done|].
           split; [done|]. exists uid'. apply elem_of_app. by left.
      * intros uid' node' [Hin|[= -> ->]%list_elem_of_singleton]%elem_of_app Hr.
        -- destruct (Hseen _ _ Hin Hr) as [[n1 Hn1] [n2 Hn2]].
           split.
           ++ rewrite lookup_insert_ne; [by eexists|]. congruence.
           ++ rewrite lookup_insert_ne; [by eexists|]. congruence.
        -- rewrite !lookup_insert_eq. split; by eexists.
    + assert (Hold : ∀ uid' node', (uid', node') ∈ items →
                resource_type node' ∈ refable →
                node_name node' ≠ node_name node ∧
                full_node_name config node' ≠ full_node_name config node).
      { intros uid' node' Hin Hr.
        destruct (Hseen _ _ Hin Hr) as [[n1 Hn1] [n2 Hn2]].
        split; congruence. }
      intros uid1 node1 uid2 node2
        [Hin1|[= -> ->]%list_elem_of_singleton]%elem_of_app
        [Hin2|[= -> ->]%list_elem_of_singleton]%elem_of_app Hne Hr1 Hr2.
      * by apply (Hunique uid1 node1 uid2 node2).
      * by apply (Hold uid1).
      * destruct (Hold uid2 node2 Hin2 Hr2). split; congruence.
      * done.
Qed.

(** X18: [_check_resource_uniqueness] returns exactly when no two
    entries of [manifest.nodes] with refable nodes have the same name or
    the same relation.  When it raises, it raises what
    [raise_duplicate_resource_name] raises for two such nodes of one name,
    or what [raise_ambiguous_alias] raises for two such nodes of one
    relation.  Nodes that are not refable do not count. *)
Theorem _check_resource_uniqueness_spec manifest config :
  (_check_resource_uniqueness manifest config = Ok () ↔
   ∀ node1 node2, refable_pair manifest node1 node2 →
     node_name node1 ≠ node_name node2 ∧
     full_node_name config node1 ≠ full_node_name config node2) ∧
  (∀ e, _check_resource_uniqueness manifest config = Raise e →
     ∃ node1 node2,
       refable_pair manifest node1 node2 ∧
       ((node_name node1 = node_name node2 ∧
         e = raise_duplicate_resource_name node1 node2) ∨
        (full_node_name config node1 = full_node_name config node2 ∧
         e = raise_ambiguous_alias node1 node2
               (full_node_name config node2)))).
Proof.
  pose proof (check_resources_outcome config (map_to_list (nodes manifest))
                (NoDup_fst_map_to_list _)) as Hout.
  unfold _check_resource_uniqueness. unfold mbind, result_bind.
  destruct (check_resources config _ _) as [seen|e].
  - destruct Hout as [_ Hunique]. split; [|done]. split; [|done].
    intros _ node1 node2 (uid1 & uid2 & ?%elem_of_map_to_list
                          & ?%elem_of_map_to_list & ? & ? & ?).
    by apply (Hunique uid1 node1 uid2 node2).
  - destruct Hout as (uid1 & node1 & uid2 & node2
                      & ?%elem_of_map_to_list & ?%elem_of_map_to_list
                      & ? & ? & ? & Hpair).
    assert (refable_pair manifest node1 node2) by by exists uid1, uid2.
    split.
    + split; [done|]. intros Hunique.
      destruct (Hunique node1 node2) as [? ?]; [done|].
      destruct Hpair as [[? _]|[? _]]; done.
    + intros e' [= <-]. by exists node1, node2.
Qed.

End uniqueness_properties.

(** ** Candidates that do not wait for one another *)

Section selection_more.
Context `{FileHashOps} `{GraphOps}.
Import TestSelector.
Implicit Types (self : TestSelector.t).
Implicit Types (S W : gset UniqueId) (G : list UniqueId) (x c : UniqueId).

Lemma dependencies_selected_mono self W W' c :
  W ⊆ W' → dependencies_selected self W c → dependencies_selected self W' c.
Proof.
  intros Hsub (node & ? & Hdeps). exists node. split; [done|].
  intros d Hd. by apply Hsub, Hdeps.
Qed.

Lemma incorporate_mono self W W' c :
  W ⊆ W' → incorporate self W c ⊆ incorporate self W' c.
Proof.
  intros Hsub x. rewrite !elem_of_incorporate.
  intros [?|[-> ?]]; [left; by apply Hsub|right].
  split; [done|]. by apply (dependencies_selected_mono _ W).
Qed.

(** X19: [incorporate_greedy_nodes] is monotone in the selection: for the
    same candidates in the same order, a larger selection gives a result
    that contains the result of the smaller one. *)
Theorem incorporate_greedy_nodes_monotone self S S' G :
  S ⊆ S' →
  incorporate_greedy_nodes self S G ⊆ incorporate_greedy_nodes self S' G.
Proof.
  revert S S'. induction G as [|c G IH]; intros S S' Hsub; simpl; [done|].
  by apply IH, incorporate_mono.
Qed.

Lemma incorporate_greedy_nodes_snoc self S G c :
  incorporate_greedy_nodes self S (G ++ [c])
  = incorporate self (incorporate_greedy_nodes self S G) c.
Proof. by rewrite incorporate_greedy_nodes_app. Qed.

Lemma elem_of_incorporate_independent self S G x :
  independent_candidates self S G →
  x ∈ incorporate_greedy_nodes self S G ↔
  x ∈ S ∨ (x ∈ G ∧ dependencies_selected self S x).
Proof.
  induction G as [|c G IH] using rev_ind; intros Hind.
  - simpl. split; [by left|]. intros [?|[[]%elem_of_nil _]]. done.
  - assert (Hind' : independent_candidates self S G).
    { intros c' node d Hc' Hnode Hd HdG.
      apply (Hind c' node d); [apply elem_of_app; by left|done..|].
      apply elem_of_app. by left. }
    specialize (IH Hind').
    rewrite incorporate_greedy_nodes_snoc, elem_of_incorporate, IH.
    assert (Hdeps : dependencies_selected self
                      (incorporate_greedy_nodes self S G) c ↔
                    dependencies_selected self S c).
    { split; [|apply dependencies_selected_mono,
                 incorporate_greedy_nodes_mono].
      intros (node & Hnode & Hdeps). exists node. split; [done|].
      intros d Hd. specialize (Hdeps d Hd).
      apply incorporate_greedy_nodes_bound in Hdeps as [?|[HdG _]]; [done|].
      apply (Hind c node d); [|done..|].
      - apply elem_of_app. right. by left.
      - apply elem_of_app. by left. }
    rewrite Hdeps, elem_of_app, list_elem_of_singleton.
    split.
    + intros [[?|[? ?]]|[-> ?]]; [by left|right..]; split; auto.
    + intros [?|[[?| ->] ?]]; [left; by left|left; right|right]; done.
Qed.

(** X20: when no candidate waits for another one (every dependency of a
    candidate that is itself a candidate is selected already), the result
    of [incorporate_greedy_nodes] is the selection with the candidates
    that are keys of [manifest.nodes] and have all their dependencies in
    the selection; it does not depend on the order in which the candidates
    are visited, and a second pass adds nothing. *)
Theorem incorporate_greedy_nodes_independent self S G :
  independent_candidates self S G →
  (∀ x, x ∈ incorporate_greedy_nodes self S G ↔
        x ∈ S ∨ (x ∈ G ∧ dependencies_selected self S x)) ∧
  (∀ G', G' ≡ₚ G →
         incorporate_greedy_nodes self S G'
         = incorporate_greedy_nodes self S G) ∧
  incorporate_greedy_nodes self (incorporate_greedy_nodes self S G) G
  = incorporate_greedy_nodes self S G.
Proof.
  intros Hind. split; [|split].
  - intros x. by apply elem_of_incorporate_independent.
  - intros G' Hperm. apply set_eq. intros x.
    rewrite !elem_of_incorporate_independent; [by rewrite Hperm|done|].
    intros c node d Hc Hnode Hd HdG. rewrite Hperm in Hc, HdG.
    by apply (Hind c node d).
  - apply set_eq. intros x. split; [|apply incorporate_greedy_nodes_mono].
    pose proof (incorporate_greedy_nodes_mono self S G) as Hsub.
    assert (Hind1 : independent_candidates self
                      (incorporate_greedy_nodes self S G) G).
    { intros c node d Hc Hnode Hd HdG. by apply Hsub, (Hind c node d). }
    rewrite (elem_of_incorporate_independent _ _ _ _ Hind1).
    intros [?|[Hx (node & Hnode & Hdeps)]]; [done|].
    apply elem_of_incorporate_independent; [done|]. right. split; [done|].
    exists node. split; [done|]. intros d Hd. specialize (Hdeps d Hd).
    apply (elem_of_incorporate_independent _ _ _ _ Hind) in Hdeps
      as [?|[HdG _]]; [done|].
    by apply (Hind x node d).
Qed.

(** X21: [incorporate_greedy_nodes] on the candidates that
    [expand_selection] gives, when none of them waits for another one:
    the result is the selection with the successors of the selection that
    are tests and have all their dependencies in the selection. *)
Theorem expand_then_incorporate self S greedy G :
  (∀ x, x ∈ G ↔ x ∈ (expand_selection self S greedy).2) →
  independent_candidates self S G →
  ∀ x, x ∈ incorporate_greedy_nodes self S G ↔
       x ∈ S ∨ (x ∈ select_successors (graph self) S ∧
                is_test_node self x ∧ dependencies_selected self S x).
Proof.
  intros HG Hind x.
  rewrite (elem_of_incorporate_independent _ _ _ _ Hind), HG,
    elem_of_selected_tests.
  tauto.
Qed.

End selection_more.

(** ** Running a test, and the columns of a node *)

Section runner_properties.
Context `{FileHashOps} `{!TestRunner.RunnerOps}.
Import TestRunner.

(** X22: [execute] runs a data test by [execute_data_test] and a schema
    test by [execute_schema_test], and raises what they raise; on a node
    of another class it raises [InternalException].  The result is for the
    test it was given, its message is the number of failing rows, and its
    status is [Pass] exactly when no row fails, [Fail] exactly when a row
    fails and the severity, in upper case, is [ERROR] or [WARN_ERROR] is
    set, and [Warn] exactly when a row fails and neither holds. *)
Theorem execute_status test manifest :
  (∀ r, execute test manifest = Ok r →
     node r = test ∧
     match test_class test with
     | CompiledDataTestNode => execute_data_test test manifest = Ok (message r)
     | CompiledSchemaTestNode => execute_schema_test test = Ok (message r)
     | OtherNode _ => False
     end ∧
     (status r = Pass ↔ message r = 0%Z) ∧
     (status r = Fail ↔
      message r ≠ 0%Z ∧
      (upper (severity test) = "ERROR" ∨ flags_WARN_ERROR = true)) ∧
     (status r = Warn ↔
      message r ≠ 0%Z ∧ upper (severity test) ≠ "ERROR" ∧
      flags_WARN_ERROR = false)) ∧
  (∀ type_repr, test_class test = OtherNode type_repr →
     execute test manifest
     = Raise (InternalException
                ("Expected compiled schema test or compiled data test, got "
                 +:+ type_repr))) ∧
  (∀ e, test_class test = CompiledDataTestNode →
        execute_data_test test manifest = Raise e →
        execute test manifest = Raise e) ∧
  (∀ e, test_class test = CompiledSchemaTestNode →
        execute_schema_test test = Raise e →
        execute test manifest = Raise e).
Proof.
  unfold execute. unfold mbind, result_bind, mret, result_ret.
  split; [|split; [|split]].
  - intros r.
    assert (Hstatus : ∀ failed_rows,
      let status :=
        if decide (failed_rows = 0%Z) then Pass
        else if bool_decide (upper (severity test) = "ERROR")
                || flags_WARN_ERROR then Fail
        else Warn in
      (status = Pass ↔ failed_rows = 0%Z) ∧
      (status = Fail ↔
       failed_rows ≠ 0%Z ∧
       (upper (severity test) = "ERROR" ∨ flags_WARN_ERROR = true)) ∧
      (status = Warn ↔
       failed_rows ≠ 0%Z ∧ upper (severity test) ≠ "ERROR" ∧
       flags_WARN_ERROR = false)).
    { intros failed_rows. simpl.
      destruct (decide (failed_rows = 0%Z)) as [Hz|Hz].
      { split; [done|]. split; split; try done; by intros [? _]. }
      case_bool_decide as Hsev; simpl.
      { split; [done|]. split; [|split; [done|by intros (_ & ? & _)]].
        split; [|done]. intros _. split; [done|by left]. }
      destruct flags_WARN_ERROR; simpl.
      { split; [done|]. split; [|split; [done|by intros (_ & _ & ?)]].
        split; [|done]. intros _. split; [done|by right]. }
      split; [done|]. split; [|done].
      split; [done|]. by intros [_ [?|?]]. }
    destruct (test_class test) as [| |type_repr].
    + destruct (execute_data_test test manifest) as [failed_rows|]; [|done].
      intros [= <-]. simpl. split; [done|]. split; [done|]. apply Hstatus.
    + destruct (execute_schema_test test) as [failed_rows|]; [|done].
      intros [= <-]. simpl. split; [done|]. split; [done|]. apply Hstatus.
    + done.
  - by intros type_repr ->.
  - by intros e -> ->.
  - by intros e -> ->.
Qed.

End runner_properties.

Section column_properties.

(** X23: [_get_node_column] returns the column of that name when
    [node.columns] has it, and leaves [node.columns] as it is.  When the
    column is missing the call raises [UnboundLocalError], after it has
    put a new [ColumnInfo] of that name into [node.columns]: a second call
    returns that column.  The other columns are never touched. *)
Theorem _get_node_column_spec (columns : gmap string ColumnInfo)
    (name : string) :
  (∀ column, columns !! name = Some column →
     _get_node_column columns name = (Ok column, columns)) ∧
  (columns !! name = None →
   let created := {| column_name := name; column_description := "" |} in
   _get_node_column columns name
   = (Raise (PythonException "UnboundLocalError"),
      <[name := created]> columns) ∧
   _get_node_column (<[name := created]> columns) name
   = (Ok created, <[name := created]> columns)) ∧
  (∀ other, other ≠ name →
     (_get_node_column columns name).2 !! other = columns !! other).
Proof.
  unfold _get_node_column. split; [|split].
  - by intros column ->.
  - intros ->. simpl. split; [done|]. by rewrite lookup_insert_eq.
  - intros other Hne. destruct (columns !! name); simpl; [done|].
    by apply lookup_insert_ne.
Qed.

End column_properties.

(** ** The properties on the sample installation *)

Section examples.
#[local] Existing Instances sample_hash sample_manifest_ops sample_parser_ops
  sample_load_ops.

(** Here the file system can be written. *)
#[local] Existing Instance writable_system.

(** The saved manifest of the sample is accepted by the sample loader, and
    stays so with one more project in its state check. *)
Lemma matching_parse_results_spec_witness :
  let self := sample_loader None in
  matching_parse_results self sample_old_manifest = true ∧
  matching_parse_results self
    (add_project_hash "c" "hash of c" sample_old_manifest)
  = matching_parse_results self sample_old_manifest.
Proof.
  intros self.
  destruct (matching_parse_results_spec self sample_old_manifest
              sample_state_check sample_old_state_check
              eq_refl eq_refl) as [Haccept Hextra].
  split; [|by apply Hextra].
  apply Haccept. split; [by eexists|]. split; [done|]. split; [done|].
  simpl. split.
  - intros k [hn [<- _]%lookup_singleton_Some]%elem_of_dom.
    apply elem_of_dom. by eexists.
  - intros k hn ho [<- <-]%lookup_singleton_Some. by intros [= <-].
Defined.


(** In the sample the macro files of the two projects have different
    search keys: their locations. *)
Lemma sample_macro_files_kept_apart :
  macro_files_kept_apart [project_a; project_b].
Proof.
  intros project project' fp fp' Hp Hp' Hfp Hfp' Hkey.
  apply elem_of_cons in Hp as [->|Hp];
    [|apply list_elem_of_singleton in Hp as ->];
    (apply elem_of_cons in Hp' as [->|Hp'];
       [|apply list_elem_of_singleton in Hp' as ->]);
    try reflexivity;
    apply list_elem_of_singleton in Hfp as ->;
    apply list_elem_of_singleton in Hfp' as ->;
    discriminate Hkey.
Qed.

(** The macro files of the sample: every block that a parser is given is
    one that it has loaded itself. *)
Lemma file_cache_scope_witness :
  match create_macro_manifest (sample_run None) with
  | Ok (_, run') =>
      ∃ new,
        calls (process run') = [] ++ new ∧
        ∀ parser block,
          parse_file_call parser block ∈ new →
          ∃ fp', fp' ∈ search parser ∧
                 load_file_call parser fp' ∈ new ∧
                 load_file parser fp' = Ok (file block)
  | Raise _ => False
  end.
Proof.
  assert (Hmade :
    match create_macro_manifest (sample_run None) with
    | Ok _ => true
    | Raise _ => false
    end = true) by reflexivity.
  destruct (create_macro_manifest (sample_run None))
    as [[macro_manifest run']|e] eqn:Hcreate; [|discriminate Hmade].
  destruct file_cache_scope as (_ & _ & _ & Hmacros).
  destruct (Hmacros (sample_run None) _ _ eq_refl Hcreate) as [_ Hapart].
  destruct (Hapart sample_macro_files_kept_apart)
    as (new & Hcalls & _ & Hparses).
  exists new. split; [exact Hcalls|exact Hparses].
Defined.

(** The counterexample to C7 as the spec has it.  Projects [a] and [b]
    both have [macros/m.sql].  [create_macro_manifest] does not clear the
    file cache when it comes to project [b]: the block of the file of
    [a] is still in the cache when the pass is over.  Each parser is
    given the block of its own file, because the search keys differ. *)
Lemma create_macro_manifest_keeps_the_cache :
  let path_b :=
    {| searched_path := "macros"; relative_path := "m.sql";
       project_root := "/b" |} in
  let block_b :=
    {| file := {| path := path_b; checksum := "/b/macros/m.sql";
                  file_nodes := []; file_exposures := [];
                  file_macros := [] |} |} in
  match create_macro_manifest (sample_run None) with
  | Ok (_, run) =>
      Some (dom (_loaded_file_cache (self run)), calls (process run))
  | Raise _ => None
  end
  = Some ({["/a/macros/m.sql"; "/b/macros/m.sql"]},
          [load_file_call (macro_parser project_a) sample_macro_path;
           parse_file_call (macro_parser project_a)
                           {| file := sample_macro_file |};
           load_file_call (macro_parser project_b) path_b;
           parse_file_call (macro_parser project_b) block_b]).
Proof. reflexivity. Qed.

(** [parse_project] does clear it: after the macros, the pass over project
    [b] leaves the file of the models of [b] alone in the cache. *)
Example parse_project_clears_cache_sample :
  match (create_macro_manifest;; parse_project project_b) (sample_run None)
  with
  | Ok (_, run) => Some (dom (_loaded_file_cache (self run)))
  | Raise _ => None
  end
  = Some {["/b/models/y.sql"]}.
Proof. reflexivity. Qed.

(** The sample loader finds no saved manifest on the empty file system,
    and reads back the one that is there when it matches. *)
Example read_saved_manifest_sample :
  read_saved_manifest (sample_loader None) (sample_world true) = Ok None ∧
  read_saved_manifest
    (sample_loader None)
    (<["target/partial_parse.pickle" := sample_old_manifest]>
       (sample_world true))
  = Ok (Some sample_old_manifest).
Proof. split; reflexivity. Qed.

End examples.

Section examples_read_only.
#[local] Existing Instances sample_hash sample_manifest_ops sample_parser_ops
  sample_load_ops.

(** Here the file system cannot be written. *)
#[local] Existing Instance read_only_system.

(** The counterexample to C6 as the spec has it.  With partial parsing
    enabled, the sample projects are loaded, and [get_full_manifest] then
    raises the [OSError] of the write: no manifest is returned.  And when
    the file can be written, what it holds is not the manifest that
    [get_full_manifest] returns: the model [y] of the manifest that is
    returned depends on the model [x], the one of the file has no
    dependency. *)
Lemma get_full_manifest_write_failure_is_fatal :
  match run_of_load sample_config false (sample_process false) with
  | Ok run => Some (_partial_parse_enabled (self run))
  | Raise _ => None
  end = Some true ∧
  get_full_manifest sample_config false (sample_process false)
  = Raise (PythonException "OSError") ∧
  match @get_full_manifest sample_hash sample_manifest_ops sample_parser_ops
                           writable_system sample_load_ops
                           sample_config false (sample_process true) with
  | Ok (m, p) =>
      Some (depends_on_nodes <$> nodes m !! "model.a.y",
            (λ saved : Manifest,
               depends_on_nodes <$> nodes saved !! "model.a.y")
              <$> (world p : gmap string Manifest)
                  !! "target/partial_parse.pickle")
  | Raise _ => None
  end = Some (Some ["model.a.x"], Some (Some [])).
Proof. repeat split; reflexivity. Qed.

(** The same load by the theorem: the exception of [pickle.dump] is the
    outcome of [get_full_manifest]. *)
Lemma get_full_manifest_persists_witness :
  get_full_manifest sample_config false (sample_process false)
  = Raise (PythonException "OSError").
Proof.
  destruct (run_of_load sample_config false (sample_process false))
    as [run|exc] eqn:Hload.
  - destruct (get_full_manifest_persists _ _ _ _ Hload) as (_ & Hdump & _).
    exact (Hdump (world (process run)) _ eq_refl eq_refl).
  - assert (Hloaded :
      match run_of_load sample_config false (sample_process false) with
      | Ok _ => true
      | Raise _ => false
      end = true) by reflexivity.
    rewrite Hload in Hloaded. discriminate Hloaded.
Defined.

End examples_read_only.

Section examples_passes_and_selection.
#[local] Existing Instances sample_hash sample_manifest_ops sample_graph_ops.

(** The pass over the refs of the test [test.a.t] of the sample, in the
    manifest that holds it: its first ref, to a model that does not exist,
    disables the test with a warning, and the pass goes on with the second
    ref.  The pass over the refs of the model with a ref to the disabled
    model [off] raises the compilation error that says so. *)
Lemma unresolved_mention_policy_witness :
  (∃ env2,
     _process_refs_for_node "a" sample_test_with_refs
                            (sample_env_of sample_test_with_refs)
     = for_each_on [["a"; "m"]] (process_ref_for_node "a")
                   (set_enabled false sample_test_with_refs) env2 ∧
     logger env2
     = [{| level := WARNING;
           message :=
             warning_tag
               (target_not_found_or_disabled_msg
                  "test.a.t" "missing" None false) |}] ∧
     nodes (env_manifest env2) !! "test.a.t"
     = Some (set_enabled false sample_test_with_refs)) ∧
  _process_refs_for_node "a" sample_model_of_disabled
                         (sample_env_of sample_model_of_disabled)
  = Raise (CompilationException
             (target_not_found_or_disabled_msg "model.a.m" "off" None true)).
Proof.
  destruct (unresolved_mention_policy "a") as (Hrefs & _).
  split.
  - pose proof (Hrefs sample_test_with_refs
                  (sample_env_of sample_test_with_refs)
                  [] ["missing"] [["a"; "m"]] sample_test_with_refs
                  (sample_env_of sample_test_with_refs)
                  None "missing" false eq_refl eq_refl eq_refl eq_refl)
      as Htest.
    destruct Htest as (env2 & Hpass & Hlog & Hnode & _).
    exists env2. split; [exact Hpass|]. split; [exact Hlog|exact Hnode].
  - exact (Hrefs sample_model_of_disabled
                 (sample_env_of sample_model_of_disabled)
                 [] ["off"] [] sample_model_of_disabled
                 (sample_env_of sample_model_of_disabled)
                 None "off" true eq_refl eq_refl eq_refl eq_refl).
Defined.

(** The counterexample to C3 as the spec has it: the test of the sample
    with a ref to the disabled model [off], in the manifest that holds it.
    The pass over its refs returns, the test is disabled and has no
    dependency, and the one record in the log is at debug level: no
    warning is given.  So it is for [process_refs] on that manifest. *)
Lemma disabled_target_of_test_is_no_warning :
  let told :=
    [{| level := DEBUG;
        message :=
          warning_tag
            (target_not_found_or_disabled_msg "test.a.t" "off" None true) |}]
  in
  match _process_refs_for_node "a" sample_test_of_disabled
                               (sample_env_of sample_test_of_disabled) with
  | Ok (node, env) =>
      Some (config_enabled node, depends_on_nodes node, logger env)
  | Raise _ => None
  end = Some (false, [], told) ∧
  match process_refs "a" (sample_env_of sample_test_of_disabled) with
  | Ok (_, env) =>
      Some (config_enabled <$> nodes (env_manifest env) !! "test.a.t",
            logger env)
  | Raise _ => None
  end = Some (Some false, told).
Proof. split; reflexivity. Qed.

(** A ref of three arguments, on the test and on the model of the
    sample. *)
Lemma malformed_ref_raises_internal_exception_witness :
  process_ref_for_node "a" sample_test ["x"; "y"; "z"] sample_env
  = Raise (InternalException "Refs should always be 1 or 2 arguments - got 3")
  ∧
  process_ref_for_node "a" sample_model ["x"; "y"; "z"] sample_env
  = Raise (InternalException "Refs should always be 1 or 2 arguments - got 3").
Proof.
  assert (H1 : length ["x"; "y"; "z"] ≠ 1) by (simpl; lia).
  assert (H2 : length ["x"; "y"; "z"] ≠ 2) by (simpl; lia).
  destruct (malformed_ref_raises_internal_exception "a" ["x"; "y"; "z"] H1 H2)
    as (Hnode & _).
  split; apply Hnode.
Defined.

(** The pass over the refs of a test: the ref that does not resolve
    disables the test and is logged, the next one is still resolved. *)
Example _process_refs_for_node_sample :
  match _process_refs_for_node "a" sample_test_with_refs sample_env with
  | Ok (node, env) =>
      Some (config_enabled node, depends_on_nodes node, logger env)
  | Raise _ => None
  end
  = Some (false, ["model.a.m"],
          [{| level := WARNING;
              message :=
                warning_tag
                  (target_not_found_or_disabled_msg
                     "test.a.t" "missing" None false) |}]).
Proof. reflexivity. Qed.

(** In a graph given by direct successors, the successors of a selection
    are the direct successors of its elements. *)
Lemma elem_of_adjacency_successors (g : gmap UniqueId (gset UniqueId))
    (selected : gset UniqueId) (x : UniqueId) :
  x ∈ adjacency_successors g selected ↔
  ∃ s succs, s ∈ selected ∧ g !! s = Some succs ∧ x ∈ succs.
Proof.
  unfold adjacency_successors. rewrite elem_of_union_list. split.
  - intros (X & HX & Hx). apply list_elem_of_fmap in HX as (s & -> & Hs).
    apply elem_of_elements in Hs.
    destruct (g !! s) as [succs|] eqn:E; simpl in Hx;
      [|by apply not_elem_of_empty in Hx].
    by exists s, succs.
  - intros (s & succs & Hs & E & Hx). exists succs. split; [|done].
    apply list_elem_of_fmap. exists s. rewrite E. split; [done|].
    by apply elem_of_elements.
Qed.

(** The scenario of the spec: selecting [model_1]. *)
Example expand_selection_sample :
  TestSelector.expand_selection sample_selector {["model_1"]} false
  = ({["model_1"]}, {["unique_model_1"; "relationships_1_3"]}) ∧
  TestSelector.expand_selection sample_selector {["model_1"]} true
  = ({["model_1"; "unique_model_1"; "relationships_1_3"]},
     {["unique_model_1"; "relationships_1_3"]}).
Proof. split; reflexivity. Qed.

(** [incorporate_greedy_nodes] makes one pass.  [chained] depends on
    [unique_model_1] alone: visited before it, [chained] is left out,
    although its dependency is in the result; a second call adds it, and
    so does a single call that visits the two in the other order.
    [relationships_1_3] stays out as long as [model_3] is not selected, and
    [exposure_1], no key of [manifest.nodes], is skipped. *)
Example incorporate_greedy_nodes_single_pass :
  let once :=
    TestSelector.incorporate_greedy_nodes
      sample_selector {["model_1"]}
      ["chained"; "relationships_1_3"; "exposure_1"; "unique_model_1"] in
  once = {["model_1"; "unique_model_1"]} ∧
  TestSelector.incorporate_greedy_nodes
    sample_selector once
    ["chained"; "relationships_1_3"; "exposure_1"; "unique_model_1"]
  = {["model_1"; "unique_model_1"; "chained"]} ∧
  TestSelector.incorporate_greedy_nodes
    sample_selector {["model_1"]}
    ["unique_model_1"; "relationships_1_3"; "exposure_1"; "chained"]
  = {["model_1"; "unique_model_1"; "chained"]}.
Proof. repeat split; reflexivity. Qed.

(** The first of these passes by the theorem, at the candidate
    [chained]. *)
Lemma incorporate_greedy_nodes_spec_witness :
  let R :=
    TestSelector.incorporate_greedy_nodes
      sample_selector {["model_1"]} ["chained"; "unique_model_1"] in
  ("chained" ∉ R) ∧ {["model_1"]} ⊆ R.
Proof.
  assert (Hnodup : NoDup ([] ++ "chained" :: ["unique_model_1"])).
  { apply (bool_decide_unpack _). exact I. }
  destruct (incorporate_greedy_nodes_spec
              sample_selector {["model_1"]} [] ["unique_model_1"] "chained"
              Hnodup)
    as (_ & Hsub & _ & _ & Hout & _).
  split; [|exact Hsub].
  apply Hout.
  - by intros [=]%elem_of_singleton.
  - intros (node & [= <-] & Hdeps).
    specialize (Hdeps "unique_model_1" ltac:(by left)). simpl in Hdeps.
    by apply elem_of_singleton in Hdeps.
Defined.

End examples_passes_and_selection.

(** ** The further properties on the sample installation *)

Section examples_loader.
#[local] Existing Instances sample_hash sample_manifest_ops sample_parser_ops
  sample_load_ops writable_system.

(** The state check of the sample is built, and has the hash of the
    project file of [a]. *)
Lemma build_manifest_state_check_spec_witness :
  match build_manifest_state_check sample_config sample_projects
                                   (sample_world true) with
  | Ok state_check =>
      project_hashes state_check !! "a" = Some "/a/dbt_project.yml"
  | Raise _ => False
  end.
Proof.
  destruct (build_manifest_state_check_spec sample_config sample_projects
              (sample_world true)) as (_ & _ & _ & Hok).
  destruct (build_manifest_state_check _ _ _) as [state_check|e] eqn:Hsc.
  - destruct (Hok state_check eq_refl) as (_ & _ & _ & Hin).
    assert (Hnodup : NoDup sample_projects.*1)
      by (apply (bool_decide_unpack _); exact I).
    destruct (Hin Hnodup "a" project_a) as (contents & Hread & Hhash);
      [by left|].
    injection Hread as <-. exact Hhash.
  - assert (Hbuilt :
      match build_manifest_state_check sample_config sample_projects
                                       (sample_world true) with
      | Ok _ => true
      | Raise _ => false
      end = true) by reflexivity.
    rewrite Hsc in Hbuilt. discriminate Hbuilt.
Defined.

(** The loader of the sample is made, for the sample configuration and
    with an empty file cache. *)
Lemma __init___spec_witness :
  match __init__ sample_config sample_projects None (sample_world true) with
  | Ok self => root_project self = sample_config ∧ _loaded_file_cache self = ∅
  | Raise _ => False
  end.
Proof.
  destruct (__init___spec sample_config sample_projects None
              (sample_world true)) as [_ Hok].
  destruct (build_manifest_state_check sample_config sample_projects
              (sample_world true)) as [state_check|e] eqn:Hsc.
  - destruct (Hok state_check eq_refl) as (self & Hinit & ? & _ & _ & ? & _).
    destruct (__init__ _ _ _ _) as [self'|]; [|discriminate Hinit].
    injection Hinit as ->. by split.
  - assert (Hbuilt :
      match build_manifest_state_check sample_config sample_projects
                                       (sample_world true) with
      | Ok _ => true
      | Raise _ => false
      end = true) by reflexivity.
    rewrite Hsc in Hbuilt. discriminate Hbuilt.
Defined.

(** In the sample, partial parsing is switched on by the flag. *)
Lemma saved_manifest_needs_partial_parse_witness :
  _partial_parse_enabled (sample_loader None) = true.
Proof.
  destruct (saved_manifest_needs_partial_parse
              (sample_loader None) (sample_world true)) as [Hon _].
  apply Hon. left. reflexivity.
Defined.

(** A saved manifest without a state check is not read back. *)
Lemma incompatible_saved_manifest_is_ignored_witness :
  read_saved_manifest
    (sample_loader None)
    (<["target/partial_parse.pickle"
       := empty_manifest {| dbt_version := "0.19.1" |}]> (sample_world true))
  = Ok None.
Proof.
  destruct (incompatible_saved_manifest_is_ignored
              (sample_loader None)
              (<["target/partial_parse.pickle"
                 := empty_manifest {| dbt_version := "0.19.1" |}]>
                 (sample_world true))
              (empty_manifest {| dbt_version := "0.19.1" |}))
    as [_ Hread]; [reflexivity|by do 3 right|].
  exact Hread.
Defined.

(** On the file system that has the saved manifest of the sample, the
    loader starts with it: it was saved for the [profiles.yml] that is
    there. *)
Lemma __init___old_manifest_is_current_witness :
  match __init__ sample_config sample_projects None sample_saved_world with
  | Ok self =>
      match old_manifest self with
      | Some saved =>
          ∃ old, state_check saved = Some old ∧
                 FileHash_eq "~/.dbt/profiles.yml" (profile_hash old) = true
      | None => False
      end
  | Raise _ => False
  end.
Proof.
  assert (Hstarted :
    match __init__ sample_config sample_projects None sample_saved_world with
    | Ok self => match old_manifest self with
                 | Some _ => true
                 | None => false
                 end
    | Raise _ => false
    end = true) by reflexivity.
  destruct (__init__ sample_config sample_projects None sample_saved_world)
    as [self|e] eqn:Hinit; [|discriminate Hstarted].
  destruct (old_manifest self) as [saved|] eqn:Hold; [|discriminate Hstarted].
  destruct (__init___old_manifest_is_current _ _ _ _ _ _ Hinit Hold)
    as (_ & old & Hsaved & _ & (profile & Hread & Hprofile) & _).
  exists old. split; [exact Hsaved|].
  injection Hread as <-. exact Hprofile.
Defined.

(** The sample loader reads back the manifest that it has written. *)
Lemma saved_manifest_round_trip_witness :
  read_saved_manifest
    (sample_loader None)
    (<["target/partial_parse.pickle" := manifest (sample_loader None)]>
       (sample_world true))
  = Ok (Some (manifest (sample_loader None))).
Proof.
  assert (Hfs : ∀ p m (w w' : World),
    pickle_dump p m w = Ok w' →
    path_exists p w' = true ∧ pickle_load p w' = Ok m).
  { intros p m w w' [= <-]. simpl. rewrite lookup_insert_eq. split; [|done].
    apply bool_decide_eq_true_2. by eexists. }
  destruct (saved_manifest_round_trip
              (sample_run None)
              (set_process
                 (set_world
                    (<["target/partial_parse.pickle"
                       := manifest (sample_loader None)]> (sample_world true))
                    (sample_process true))
                 (sample_run None))
              {| dbt_version := "0.19.1" |} sample_state_check
              String.eqb_refl Hfs eq_refl eq_refl eq_refl eq_refl eq_refl)
    as [_ Hread].
  exact Hread.
Defined.

(** A pass over project [a] of the sample: the file of its models is
    loaded, once. *)
Lemma parse_project_loads_each_file_once_witness :
  match parse_project project_a (sample_run None) with
  | Ok (_, run') =>
      ∃ new, calls (process run') = [] ++ new ∧ NoDup (loaded_keys new) ∧
             "/a/models/y.sql" ∈ loaded_keys new
  | Raise _ => False
  end.
Proof.
  assert (Hparsed :
    match parse_project project_a (sample_run None) with
    | Ok _ => true
    | Raise _ => false
    end = true) by reflexivity.
  destruct (parse_project project_a (sample_run None))
    as [[[] run']|e] eqn:Hpass; [|discriminate Hparsed].
  destruct (parse_project_loads_each_file_once _ _ _ Hpass)
    as (new & Hcalls & Hnodup & Hkeys & _).
  exists new. split; [exact Hcalls|]. split; [exact Hnodup|].
  apply Hkeys.
  exists {| parser_cls := ModelParser; parser_project := project_a;
            parser_root_project := Some sample_config |},
         {| searched_path := "models"; relative_path := "y.sql";
            project_root := "/a" |}.
  split; [|split; [|reflexivity]].
  - apply list_elem_of_fmap. exists ModelParser. split; [reflexivity|].
    by left.
  - by left.
Defined.

Lemma parse_project_parses_its_own_files_witness :
  match parse_project project_a (sample_run None) with
  | Ok (_, run') =>
      ∃ new, calls (process run') = [] ++ new ∧
             ∀ parser fp, load_file_call parser fp ∈ new →
                          parser_project parser = project_a
  | Raise _ => False
  end.
Proof.
  assert (Hparsed :
    match parse_project project_a (sample_run None) with
    | Ok _ => true
    | Raise _ => false
    end = true) by reflexivity.
  destruct (parse_project project_a (sample_run None))
    as [[[] run']|e] eqn:Hpass; [|discriminate Hparsed].
  destruct (parse_project_parses_its_own_files _ _ _ Hpass)
    as (new & Hcalls & Hloads & _).
  exists new. split; [exact Hcalls|].
  intros parser fp Hin. by destruct (Hloads parser fp Hin).
Defined.

(** The parse phase of the sample, for a loader with an old manifest,
    leaves the file system and the old manifest alone and logs its
    message. *)
Lemma load_only_parses_witness :
  match load (sample_run (Some sample_old_manifest)) with
  | Ok (_, run') =>
      world (process run') = sample_world true ∧
      old_manifest (self run') = Some sample_old_manifest ∧
      log_records (process run')
      = [{| level := DEBUG;
            message := literal "Got an acceptable cached parse result" |}]
  | Raise _ => False
  end.
Proof.
  assert (Hloaded :
    match load (sample_run (Some sample_old_manifest)) with
    | Ok _ => true
    | Raise _ => false
    end = true) by reflexivity.
  destruct (load (sample_run (Some sample_old_manifest)))
    as [[[] run']|e] eqn:Hload; [|discriminate Hloaded].
  destruct (load_only_parses _ _ Hload)
    as (_ & _ & _ & Hold & Hworld & _ & Hlog).
  split; [exact Hworld|]. split; [exact Hold|exact Hlog].
Defined.

(** The adapter of the sample gets the macro manifest of the loader. *)
Lemma load_macros_from_adapter_spec_witness :
  match load_macros_from_adapter (sample_run None) with
  | Ok (_, run') =>
      ∃ macro_manifest,
        _macro_manifest_lazy (process run') = Some macro_manifest ∧
        mm_macros macro_manifest = macros (manifest (self run'))
  | Raise _ => False
  end.
Proof.
  assert (Hloaded :
    match load_macros_from_adapter (sample_run None) with
    | Ok _ => true
    | Raise _ => false
    end = true) by reflexivity.
  destruct (load_macros_from_adapter (sample_run None))
    as [[[] run']|e] eqn:Hload; [|discriminate Hloaded].
  destruct (load_macros_from_adapter_spec _ _ Hload)
    as (macro_manifest & Hlazy & Hmacros & _).
  exists macro_manifest. split; [exact Hlazy|exact Hmacros].
Defined.

(** [load_macros] with a hook that would raise: the macros are loaded,
    and nothing is stored in the adapter. *)
Lemma load_macros_spec_witness :
  match load_macros sample_config (λ _, Raise (PythonException "hook"))
                    (sample_process true) with
  | Ok (_, p') => _macro_manifest_lazy p' = None
  | Raise _ => False
  end.
Proof.
  assert (Hloaded :
    match load_macros sample_config (λ _, Raise (PythonException "hook"))
                      (sample_process true) with
    | Ok _ => true
    | Raise _ => false
    end = true) by reflexivity.
  destruct (load_macros_spec sample_config (sample_process true))
    as [_ Hframe].
  destruct (load_macros sample_config _ (sample_process true))
    as [[macro_manifest p']|e] eqn:Hload; [|discriminate Hloaded].
  destruct (Hframe _ _ _ Hload) as (_ & Hlazy & _). exact Hlazy.
Defined.

(** After a full load of the sample the adapter has a macro manifest. *)
Lemma get_full_manifest_leaves_macro_manifest_witness :
  match get_full_manifest sample_config false (sample_process true) with
  | Ok (_, p') =>
      ∃ macro_manifest, _macro_manifest_lazy p' = Some macro_manifest
  | Raise _ => False
  end.
Proof.
  assert (Hloaded :
    match get_full_manifest sample_config false (sample_process true) with
    | Ok _ => true
    | Raise _ => false
    end = true) by reflexivity.
  destruct (get_full_manifest sample_config false (sample_process true))
    as [[m p']|e] eqn:Hload; [|discriminate Hloaded].
  destruct (get_full_manifest_leaves_macro_manifest _ _ _ _ _ Hload)
    as (macro_manifest & Hlazy & _).
  by exists macro_manifest.
Defined.


(** A full load of the sample has written the manifest of the parse
    phase. *)
Lemma get_full_manifest_writes_once_witness :
  match get_full_manifest sample_config false (sample_process true) with
  | Ok (_, p') =>
      ∃ run w,
        run_of_load sample_config false (sample_process true) = Ok run ∧
        make_directory "target" (sample_world true) = Ok w ∧
        pickle_dump "target/partial_parse.pickle" (manifest (self run)) w
        = Ok (world p')
  | Raise _ => False
  end.
Proof.
  assert (Hloaded :
    match get_full_manifest sample_config false (sample_process true) with
    | Ok _ => true
    | Raise _ => false
    end = true) by reflexivity.
  destruct (get_full_manifest sample_config false (sample_process true))
    as [[m p']|e] eqn:Hload; [|discriminate Hloaded].
  destruct (get_full_manifest_writes_once _ _ _ _ _ Hload)
    as (run & w & Hrun & Hdir & Hdump & _).
  exists run, w. split; [exact Hrun|]. split; [exact Hdir|exact Hdump].
Defined.

End examples_loader.

Section examples_passes.
#[local] Existing Instances sample_hash sample_manifest_ops sample_docs_ops
  sample_relation_ops.

(** The pass over the refs of the test of the sample: one of its two refs
    resolves, and the test is disabled. *)
Lemma _process_refs_for_node_invariants_witness :
  match _process_refs_for_node "a" sample_test_with_refs sample_env with
  | Ok (node', _) =>
      unique_id node' = unique_id sample_test_with_refs ∧
      ∃ new,
        depends_on_nodes node'
        = depends_on_nodes sample_test_with_refs ++ new ∧
        length new ≤ length (refs sample_test_with_refs)
  | Raise _ => False
  end.
Proof.
  assert (Hpassed :
    match _process_refs_for_node "a" sample_test_with_refs sample_env with
    | Ok _ => true
    | Raise _ => false
    end = true) by reflexivity.
  destruct (_process_refs_for_node "a" sample_test_with_refs sample_env)
    as [[node' env']|e] eqn:Hpass; [|discriminate Hpassed].
  destruct (_process_refs_for_node_invariants _ _ _ _ _ Hpass)
    as (Hid & _ & _ & _ & _ & new & Hdeps & Hlen & _).
  split; [exact Hid|]. exists new. split; [exact Hdeps|exact Hlen].
Defined.

(** The pass over the sources of a test with a source that does not
    resolve. *)
Lemma _process_sources_for_node_invariants_witness :
  match _process_sources_for_node "a" sample_test_with_source sample_env with
  | Ok (node', _) =>
      unique_id node' = unique_id sample_test_with_source ∧
      sources node' = sources sample_test_with_source
  | Raise _ => False
  end.
Proof.
  assert (Hpassed :
    match _process_sources_for_node "a" sample_test_with_source sample_env
    with
    | Ok _ => true
    | Raise _ => false
    end = true) by reflexivity.
  destruct (_process_sources_for_node "a" sample_test_with_source sample_env)
    as [[node' env']|e] eqn:Hpass; [|discriminate Hpassed].
  destruct (_process_sources_for_node_invariants _ _ _ _ _ Hpass)
    as (Hid & _ & _ & _ & Hsources & _).
  split; [exact Hid|exact Hsources].
Defined.

(** The pass over the refs of the exposure of the sample. *)
Lemma exposure_passes_invariants_witness :
  match _process_refs_for_exposure "a" sample_exposure sample_env with
  | Ok (exposure', _) =>
      ∃ new, exp_depends_on_nodes exposure'
             = exp_depends_on_nodes sample_exposure ++ new ∧
             length new ≤ length (exp_refs sample_exposure)
  | Raise _ => False
  end.
Proof.
  assert (Hpassed :
    match _process_refs_for_exposure "a" sample_exposure sample_env with
    | Ok _ => true
    | Raise _ => false
    end = true) by reflexivity.
  destruct (_process_refs_for_exposure "a" sample_exposure sample_env)
    as [[exposure' env']|e] eqn:Hpass; [|discriminate Hpassed].
  destruct (exposure_passes_invariants "a" sample_exposure sample_env
              exposure' env') as [Hrefs _].
  destruct (Hrefs Hpass) as (_ & _ & _ & _ & new & Hdeps & Hlen).
  exists new. split; [exact Hdeps|exact Hlen].
Defined.

(** [process_node] on the test of the sample. *)
Lemma process_node_spec_witness :
  match process_node sample_config sample_test_with_refs sample_env with
  | Ok (node', _) => unique_id node' = unique_id sample_test_with_refs
  | Raise _ => False
  end.
Proof.
  assert (Hpassed :
    match process_node sample_config sample_test_with_refs sample_env with
    | Ok _ => true
    | Raise _ => false
    end = true) by reflexivity.
  destruct (process_node sample_config sample_test_with_refs sample_env)
    as [[node' env']|e] eqn:Hpass; [|discriminate Hpassed].
  destruct (process_node_spec _ _ _ _ _ Hpass) as (_ & Hid & _).
  exact Hid.
Defined.

(** The nodes of the sample manifest have neither refs nor sources. *)
Lemma passes_without_mentions_witness :
  process_refs "a" sample_env = Ok ((), sample_env) ∧
  process_sources "a" sample_env = Ok ((), sample_env).
Proof.
  destruct (passes_without_mentions "a" sample_env) as [Hrefs Hsources].
  assert (Hnodes :
    map_Forall (λ _ node, refs node = [] ∧ sources node = [])
               (nodes (env_manifest sample_env)))
    by (apply (bool_decide_unpack _); exact I).
  split.
  - apply Hrefs.
    + intros uid node Hnode. by destruct (Hnodes uid node Hnode).
    + intros uid exposure Hexposure.
      by destruct (lookup_empty_Some (M:=gmap UniqueId) uid exposure).
  - apply Hsources.
    + intros uid node Hnode. right. by destruct (Hnodes uid node Hnode).
    + intros uid exposure Hexposure.
      by destruct (lookup_empty_Some (M:=gmap UniqueId) uid exposure).
Defined.

(** The two models of the sample manifest have different names and
    relations. *)
Lemma _check_resource_uniqueness_spec_witness :
  _check_resource_uniqueness (env_manifest sample_env) sample_config = Ok ().
Proof.
  destruct (_check_resource_uniqueness_spec (env_manifest sample_env)
              sample_config) as [Hunique _].
  assert (Hids :
    map_Forall (λ uid node, unique_id node = uid)
               (nodes (env_manifest sample_env)))
    by (apply (bool_decide_unpack _); exact I).
  apply Hunique. intros node1 node2 (uid1 & uid2 & H1 & H2 & Hne & _).
  apply Hids in H1, H2. simpl. split.
  - congruence.
  - intros Heq. do 2 apply String.app_inj in Heq. congruence.
Defined.

End examples_passes.

Section examples_selection.
#[local] Existing Instances sample_hash sample_graph_ops.

(** With [model_3] selected too, the test on [model_1] is still
    incorporated. *)
Lemma incorporate_greedy_nodes_monotone_witness :
  "unique_model_1"
  ∈ TestSelector.incorporate_greedy_nodes
      sample_selector {["model_1"; "model_3"]}
      ["unique_model_1"; "relationships_1_3"].
Proof.
  assert (Hsub : ({["model_1"]} : gset UniqueId) ⊆ {["model_1"; "model_3"]}).
  { intros x ->%elem_of_singleton. apply elem_of_union. left.
    by apply elem_of_singleton. }
  apply (incorporate_greedy_nodes_monotone
           sample_selector _ _ ["unique_model_1"; "relationships_1_3"] Hsub).
  apply (bool_decide_unpack _). exact I.
Defined.

(** The two tests on the models do not depend on one another. *)
Lemma sample_tests_independent (S : gset UniqueId) :
  independent_candidates sample_selector S
                         ["unique_model_1"; "relationships_1_3"].
Proof.
  intros c node d Hc Hnode Hd HdG.
  assert (d ∉ ["unique_model_1"; "relationships_1_3"]); [|done].
  clear HdG.
  apply elem_of_cons in Hc as [->|Hc];
    [|apply list_elem_of_singleton in Hc as ->].
  - assert (node = sample_node "unique_model_1" Test true ["model_1"]) as ->
      by (apply (inj Some); rewrite <-Hnode; reflexivity).
    apply list_elem_of_singleton in Hd as ->.
    apply (bool_decide_unpack _). exact I.
  - assert (node = sample_node "relationships_1_3" Test true
                               ["model_1"; "model_3"]) as ->
      by (apply (inj Some); rewrite <-Hnode; reflexivity).
    apply elem_of_cons in Hd as [->|Hd];
      [|apply list_elem_of_singleton in Hd as ->];
      apply (bool_decide_unpack _); exact I.
Qed.

(** The order in which the two tests are visited does not matter. *)
Lemma incorporate_greedy_nodes_independent_witness :
  TestSelector.incorporate_greedy_nodes
    sample_selector {["model_1"]} ["relationships_1_3"; "unique_model_1"]
  = TestSelector.incorporate_greedy_nodes
      sample_selector {["model_1"]} ["unique_model_1"; "relationships_1_3"].
Proof.
  destruct (incorporate_greedy_nodes_independent
              sample_selector {["model_1"]}
              ["unique_model_1"; "relationships_1_3"]
              (sample_tests_independent _)) as (_ & Hperm & _).
  apply Hperm. apply perm_swap.
Defined.

(** Selecting [model_1]: of its two tests, the one whose dependencies are
    all selected is incorporated. *)
Lemma expand_then_incorporate_witness :
  "unique_model_1"
  ∈ TestSelector.incorporate_greedy_nodes
      sample_selector {["model_1"]} ["unique_model_1"; "relationships_1_3"].
Proof.
  assert (HG : ∀ x,
    x ∈ ["unique_model_1"; "relationships_1_3"] ↔
    x ∈ (TestSelector.expand_selection sample_selector {["model_1"]} false).2).
  { intros x.
    assert ((TestSelector.expand_selection
               sample_selector {["model_1"]} false).2
            = {["unique_model_1"; "relationships_1_3"]}) as -> by reflexivity.
    rewrite elem_of_union, !elem_of_singleton, elem_of_cons,
      list_elem_of_singleton. done. }
  apply (expand_then_incorporate
           sample_selector {["model_1"]} false
           ["unique_model_1"; "relationships_1_3"] HG
           (sample_tests_independent _)).
  right. split; [|split].
  - apply (bool_decide_unpack _). exact I.
  - eexists. split; [reflexivity|reflexivity].
  - eexists. split; [reflexivity|]. intros d ->%list_elem_of_singleton.
    by apply elem_of_singleton.
Defined.

End examples_selection.

Section examples_runner.
#[local] Existing Instances sample_hash sample_runner_ops.

(** A data test with failing rows and severity [error], in lower case,
    fails. *)
Lemma execute_status_witness :
  match TestRunner.execute (sample_data_test "error")
                           (empty_manifest {| dbt_version := "0.19.1" |}) with
  | Ok r => TestRunner.status r = TestRunner.Fail
  | Raise _ => False
  end.
Proof.
  destruct (execute_status (sample_data_test "error")
              (empty_manifest {| dbt_version := "0.19.1" |})) as [Hok _].
  destruct (TestRunner.execute _ _) as [r|e] eqn:Hrun.
  - destruct (Hok r eq_refl) as (_ & Hrows & _ & Hfail & _).
    apply Hfail. injection Hrows as <-. split; [done|]. left. reflexivity.
  - assert (Hran :
      match TestRunner.execute (sample_data_test "error")
              (empty_manifest {| dbt_version := "0.19.1" |}) with
      | Ok _ => true
      | Raise _ => false
      end = true) by reflexivity.
    rewrite Hrun in Hran. discriminate Hran.
Defined.

(** A column that is missing: the first call raises, the second returns
    the column that the first has made. *)
Lemma _get_node_column_spec_witness :
  let created := {| column_name := "id"; column_description := "" |} in
  _get_node_column ∅ "id"
  = (Raise (PythonException "UnboundLocalError"), <["id" := created]> ∅) ∧
  _get_node_column (<["id" := created]> ∅) "id"
  = (Ok created, <["id" := created]> ∅).
Proof.
  destruct (_get_node_column_spec ∅ "id") as (_ & Hmissing & _).
  apply Hmissing. apply lookup_empty.
Defined.

End examples_runner.
